(** * A shallow embedding of the scanner's detection oracle

    The development follows the Python sources under [backend/]:
    - [active/injection/sqli.py], [nosqli.py], [cmdi.py], [ssti.py], [hpp.py]
      (the probe loops and their decision rules),
    - [diffing/timing.py] (the timing analyzer),
    - [core/scheduler.py] (the task scheduler).

    Python values are modelled as follows.  A [str] is a [string] (text over
    8-bit characters), an [int] is a [Z] (or a [nat] where the code only
    counts), a [float] is a primitive binary64 [float], so that the literals
    [0.60], [0.85], [0.70] and [4.5] denote the same doubles as in Python and
    comparisons follow IEEE 754.  A [dict] keyed by strings is a [gmap].
    Effects (the HTTP session, the clock, the evidence logger, the scanner's
    own attributes) are threaded through a state-and-exception monad. *)

From Stdlib Require Import Floats.PrimFloat Strings.Ascii.
From stdpp Require Import base option list strings gmap pretty.

Set Warnings "-inexact-float".

(* ================================================================= *)
(** ** Python preliminaries *)

Module Py.

(** Exceptions.  [except Exception] catches every class below except the
    two that derive from [BaseException] only. *)
Inductive exn : Type :=
| TimeoutError                       (* asyncio.TimeoutError *)
| ClientConnectorError (msg : string) (* connection refused *)
| ClientConnectorDNSError (msg : string)
| TypeError (msg : string)
| ValueError (msg : string)
| RuntimeError (msg : string)
| CancelledError                     (* BaseException since Python 3.8 *)
| KeyboardInterrupt.                 (* BaseException *)

#[global] Instance exn_eq_dec : EqDecision exn.
Proof. solve_decision. Defined.

Definition is_Exception (e : exn) : bool :=
  match e with
  | CancelledError | KeyboardInterrupt => false
  | _ => true
  end.

Definition is_TimeoutError (e : exn) : bool :=
  match e with TimeoutError => true | _ => false end.

(** [str(e)] *)
Definition str_exn (e : exn) : string :=
  match e with
  | TimeoutError => ""
  | ClientConnectorError m | ClientConnectorDNSError m
  | TypeError m | ValueError m | RuntimeError m => m
  | CancelledError => ""
  | KeyboardInterrupt => ""
  end.

(** The outcome of evaluating a Python expression or statement. *)
Inductive result (A : Type) : Type :=
| Ok (a : A)
| Raised (e : exn).
Arguments Ok {A} a.
Arguments Raised {A} e.

(** Loop control: what the body of a [for] asks for when it ends. *)
Inductive ctl : Type := Continue | Break.

(** A value that the code stores either as one number or as a pair
    (e.g. [status=(st_t, st_f)]). *)
Inductive one_or_two (A : Type) : Type :=
| One (a : A)
| Two (a b : A).
Arguments One {A} a.
Arguments Two {A} a b.

(** Truthiness of a [str]: only the empty string is false. *)
Definition truthy (s : string) : bool :=
  match s with EmptyString => false | _ => true end.

(** [s[:n]] *)
Definition slice_to (n : nat) (s : string) : string := String.substring 0 n s.

(** [needle in haystack] for strings. *)
Definition contains (needle haystack : string) : bool :=
  match String.index 0 needle haystack with Some _ => true | None => false end.

(** The double-quote character, as a one-character string. *)
Definition dq : string := String "034"%char EmptyString.

(** Insertion-ordered [dict] built from and updated as a list of pairs:
    [dict(pairs)] keeps the first position of a key and its last value;
    [q[key] = value] overwrites in place or appends. *)
Fixpoint dict_set (q : list (string * string)) (key value : string)
  : list (string * string) :=
  match q with
  | [] => [(key, value)]
  | (k, v) :: q' =>
      if String.eqb k key then (k, value) :: q'
      else (k, v) :: dict_set q' key value
  end.

Definition dict_of_pairs (kvs : list (string * string)) : list (string * string) :=
  fold_left (fun q kv => dict_set q kv.1 kv.2) kvs [].

End Py.
Export Py.

(* ================================================================= *)
(** ** Regular expressions, as far as the fingerprint tables use them

    The patterns of [DB_ERRORS] and [MONGO_HINTS] use literal characters,
    [.], [\s], [\d], alternation, and the quantifiers [*], [+], [?] and
    [{n}] on a single character or class.  Matching is Python's: the
    leftmost start wins, alternatives are tried in order, quantifiers are
    greedy and give characters back on failure.

    A text is a [string] whose characters are the code points 0 to 255
    (Latin-1); the classes and the case folding below are those of
    Python's [re] on [str] for these code points.  Texts with code points
    above 255 are not represented. *)

Module Regex.

Inductive cclass : Type :=
| Lit (c : ascii)      (* a literal character *)
| Dot                  (* [.] without DOTALL: anything but a newline *)
| Space                (* [\s] *)
| Digit.               (* [\d] *)

Inductive regex : Type :=
| Eps
| Atom (c : cclass)
| Seq (r1 r2 : regex)
| Alt (r1 r2 : regex)
| Rep (c : cclass) (lo : nat) (hi : option nat).   (* greedy c{lo,hi} *)

(** [str.lower] on one character: A-Z, and the Latin-1 capitals U+00C0 to
    U+00DE except the multiplication sign U+00D7. *)
Definition lower (c : ascii) : ascii :=
  let n := nat_of_ascii c in
  if ((65 <=? n)%nat && (n <=? 90)%nat) ||
     ((192 <=? n)%nat && (n <=? 222)%nat && negb (n =? 215)%nat)
  then ascii_of_nat (n + 32) else c.

Definition cmatch (ignorecase : bool) (cls : cclass) (ch : ascii) : bool :=
  match cls with
  | Lit c => if ignorecase then Ascii.eqb (lower c) (lower ch) else Ascii.eqb c ch
  | Dot => negb (Ascii.eqb ch "010"%char)
  | Space =>
      (* \t \n \v \f \r, U+001C to U+001F, the space, NEL U+0085 and the
         no-break space U+00A0 *)
      let n := nat_of_ascii ch in
      ((9 <=? n)%nat && (n <=? 13)%nat) || ((28 <=? n)%nat && (n <=? 32)%nat) ||
      (n =? 133)%nat || (n =? 160)%nat
  | Digit =>
      let n := nat_of_ascii ch in (48 <=? n)%nat && (n <=? 57)%nat
  end.

Definition under (hi : option nat) (n : nat) : bool :=
  match hi with None => true | Some h => (n <? h)%nat end.

(** Greedy repetition of one class, [n] characters taken so far; [k] is
    the rest of the pattern. *)
Fixpoint rep_greedy (p : ascii -> bool) (lo : nat) (hi : option nat)
    (k : string -> option string) (n : nat) (s : string) : option string :=
  let stop := if (lo <=? n)%nat then k s else None in
  match s with
  | String ch s' =>
      if p ch && under hi n then
        match rep_greedy p lo hi k (S n) s' with
        | Some rest => Some rest
        | None => stop
        end
      else stop
  | EmptyString => stop
  end.

(** [rmatch ic r s k]: match [r] at the start of [s], then [k] on what is
    left; the result is the text left after the whole match. *)
Fixpoint rmatch (ic : bool) (r : regex) (s : string)
    (k : string -> option string) : option string :=
  match r with
  | Eps => k s
  | Atom c =>
      match s with
      | String ch s' => if cmatch ic c ch then k s' else None
      | EmptyString => None
      end
  | Seq r1 r2 => rmatch ic r1 s (fun s' => rmatch ic r2 s' k)
  | Alt r1 r2 =>
      match rmatch ic r1 s k with
      | Some rest => Some rest
      | None => rmatch ic r2 s k
      end
  | Rep c lo hi => rep_greedy (cmatch ic c) lo hi k 0 s
  end.

(** [pattern.search(s)], returning [m.group(0)]. *)
Fixpoint search (ic : bool) (r : regex) (s : string) : option string :=
  match rmatch ic r s Some with
  | Some rest => Some (String.substring 0 (String.length s - String.length rest) s)
  | None =>
      match s with
      | String _ s' => search ic r s'
      | EmptyString => None
      end
  end.

(** Pattern syntax. *)
Fixpoint lit (s : string) : regex :=
  match s with
  | EmptyString => Eps
  | String c EmptyString => Atom (Lit c)
  | String c s' => Seq (Atom (Lit c)) (lit s')
  end.

Definition star (c : cclass) : regex := Rep c 0 None.
Definition plus (c : cclass) : regex := Rep c 1 None.
Definition opt (c : cclass) : regex := Rep c 0 (Some 1).
Definition times (c : cclass) (n : nat) : regex := Rep c n (Some n).

Fixpoint seqs (rs : list regex) : regex :=
  match rs with
  | [] => Eps
  | [r] => r
  | r :: rs' => Seq r (seqs rs')
  end.

(** ["|".join(patterns)] *)
Fixpoint alts (rs : list regex) : regex :=
  match rs with
  | [] => Eps
  | [r] => r
  | r :: rs' => Alt r (alts rs')
  end.

End Regex.

(* ================================================================= *)
(** ** The runtime: HTTP session, clock and evidence logger *)

Module Runtime.

Inductive http_method : Type := GET | POST.

(** What [session.get(url, ...)] or [session.post(url, data=..., ...)]
    puts on the wire. *)
Record Request : Type := mkRequest {
  req_method : http_method;
  req_url : string;
  req_data : option (gmap string string);
}.

#[global] Instance http_method_eq_dec : EqDecision http_method.
Proof. solve_decision. Defined.

#[global] Instance Request_eq_dec : EqDecision Request.
Proof. solve_decision. Defined.

Definition get_request (url : string) : Request := mkRequest GET url None.
Definition post_request (url : string) (data : gmap string string) : Request :=
  mkRequest POST url (Some data).

(** What the transport does with a request: it answers, or the call
    raises.  Either way [took] seconds pass on the clock. *)
Inductive Outcome : Type :=
| Respond (status : Z) (body : string) (headers : list (string * string)) (took : float)
| Fail (e : exn) (took : float).

(** The target and the network in between: the outcome of a request may
    depend on how many requests were sent before it. *)
Class Transport : Type := net : nat -> Request -> Outcome.

(** [urllib.parse], as used by [_with_param].  The class describes the
    library on the URLs [urlparse] accepts.  On a URL with a malformed
    network location (an unbalanced square bracket) [urlparse]
    raises [ValueError], and every scanner calls [_with_param] outside
    its [try]: on such a URL a scan raises before it sends the request.
    The properties below that speak of a scan that returns, or that are
    stated under assumptions on the responses to the requests built by
    [_with_param], are about the accepted URLs. *)
Record ParseResult : Type := mkParseResult {
  scheme : string; netloc : string; path : string;
  params : string; query : string; fragment : string;
}.

Class Urllib : Type := {
  urlparse : string -> ParseResult;
  parse_qsl : string -> list (string * string);     (* keep_blank_values=True *)
  urlencode : list (string * string) -> string;     (* doseq=True *)
  urlunparse : ParseResult -> string;
}.

(** [evasions.encode.url_safe]: imported by the scanners, defined nowhere
    in the repository; any string transformation. *)
Class Encode : Type := url_safe : string -> string.

(** [diffing.responses.ResponseDiffer]: the interface the scanners call.
    The class itself is defined nowhere in the repository; [cmdi.py] and
    [hpp.py] carry a fallback (see [Fallback] below). *)
Class ResponseDiffer : Type := similarity : string -> string -> float.

(** The format specification [:.2f]. *)
Class Format : Type := format_2f : float -> string.

End Runtime.
Export Runtime.

(** A plain record of the fields every scanner's finding dictionaries and
    log calls are made of. *)
Module Evidence.

(** The dictionary built by [SQLiScanner._report]. *)
Record Finding : Type := mkFinding {
  title : string;
  category : string;
  url : string;
  parameter : string;
  technique : string;
  evidence : string;
  baseline_status : Z;
  status : one_or_two Z;
  baseline_len : nat;
  observed_len : one_or_two nat;
  timing : option float;
  severity : string;
  recommendation : string;
}.

(** The dictionary built by [NoSQLiScanner._report]. *)
Record NoSQLiFinding : Type := mkNoSQLiFinding {
  ns_title : string;
  ns_category : string;
  ns_url : string;
  ns_parameter : string;
  ns_evidence : string;
  ns_baseline_status : Z;
  ns_status : one_or_two Z;
  ns_baseline_len : nat;
  ns_observed_len : one_or_two nat;
  ns_severity : string;
  ns_recommendation : string;
  ns_request_body : option string;
}.

(** The dictionary built in [CMDIScanner.scan_timing_param]. *)
Record CMDiFinding : Type := mkCMDiFinding {
  ct_type : string;
  ct_url : string;
  ct_param : string;
  ct_payload : string;
  ct_baseline_time : float;
  ct_observed_time : float;
  ct_status_code : Z;
}.

(** The [evidence] dictionary and the finding of [SSTIScanner.scan_param]. *)
Record SSTIEvidence : Type := mkSSTIEvidence {
  se_param : string;
  se_payload : string;
  se_marker : option string;
  se_delay : option float;
  se_engine_hint : string;
}.

Record SSTIFinding : Type := mkSSTIFinding {
  sf_url : string;
  sf_param : string;
  sf_payload : string;
  sf_type : string;
  sf_evidence : SSTIEvidence;
}.

Inductive Meta : Type :=
| MetaSQLi (f : Finding)
| MetaNoSQLi (f : NoSQLiFinding)
| MetaCMDi (f : CMDiFinding)
| MetaSSTI (e : SSTIEvidence)
| MetaError (stage message : string).

(** Modelled from the spec: [backend.core.evidence.EvidenceLogger] is
    imported by every scanner but [core/evidence.py] defines no such class.
    Following the spec's external interface
    ("log_finding(category, url, evidence, severity, metadata) —
    fire-and-forget; failures here must not fail the scan") the logger is
    an append-only list of entries and its methods never raise. *)
Inductive LogEntry : Type :=
| LogError (where_ message : string)                            (* log_error *)
| LogFinding (category url evidence severity : string) (meta : Meta)  (* log_finding *)
| Log (category : string) (url : option string) (detail : Meta).      (* log *)

End Evidence.
Export Evidence.

(* ================================================================= *)
(** ** The state-and-exception monad *)

Module Eff.

(** Everything a scanner run can read or change. *)
Record State : Type := mkState {
  sent : list Request;                     (* requests issued so far, oldest first *)
  clock : float;                           (* time.perf_counter() / time.time() *)
  logger : list LogEntry;                  (* the evidence logger, oldest first *)
  _baselines : gmap string (Z * nat * string);  (* SQLiScanner._baselines *)
}.

Definition M (A : Type) : Type := State -> result A * State.

Definition ret {A} (a : A) : M A := fun s => (Ok a, s).

Definition bind {A B} (m : M A) (f : A -> M B) : M B :=
  fun s => match m s with
           | (Ok a, s') => f a s'
           | (Raised e, s') => (Raised e, s')
           end.

Definition raise {A} (e : exn) : M A := fun s => (Raised e, s).

(** [try: m  except Exception as e: h e] *)
Definition try_except {A} (m : M A) (h : exn -> M A) : M A :=
  fun s => match m s with
           | (Ok a, s') => (Ok a, s')
           | (Raised e, s') => if is_Exception e then h e s' else (Raised e, s')
           end.

Definition get : M State := fun s => (Ok s, s).
Definition modify (f : State -> State) : M unit := fun s => (Ok tt, f s).

(** [x ← m; k] and ['(a, b) ← m; k] are stdpp's notations for [bind]. *)
#[global] Instance M_ret : MRet M := @ret.
#[global] Instance M_bind : MBind M := fun A B f m => bind m f.

(** [for x in xs: body], where the body may [break]; [acc] carries the
    local variables the body updates (the [findings] list). *)
Fixpoint for_each {X A} (xs : list X) (body : X -> A -> M (ctl * A)) (acc : A) : M A :=
  match xs with
  | [] => ret acc
  | x :: xs' =>
      r ← body x acc;
      match r with
      | (Break, acc') => ret acc'
      | (Continue, acc') => for_each xs' body acc'
      end
  end.

(** [time.perf_counter()], [time.time()] *)
Definition perf_counter : M float := fun s => (Ok (clock s), s).

(** The awaited HTTP call: the request goes out, time passes, and the call
    answers or raises as the transport decides. *)
Definition session_request `{Transport} (r : Request) : M (Z * string * list (string * string)) :=
  fun s =>
    let s' took := mkState (sent s ++ [r]) (clock s + took)%float (logger s) (_baselines s) in
    match net (length (sent s)) r with
    | Respond st body hdrs took => (Ok (st, body, hdrs), s' took)
    | Fail e took => (Raised e, s' took)
    end.

Definition log_entry (e : LogEntry) : M unit :=
  modify (fun s => mkState (sent s) (clock s) (logger s ++ [e]) (_baselines s)).

Definition set_baseline (param : string) (b : Z * nat * string) : M unit :=
  modify (fun s => mkState (sent s) (clock s) (logger s) (<[param := b]> (_baselines s))).

Definition initial_state : State := mkState [] 0%float [] ∅.

End Eff.
Export Eff.

(* ================================================================= *)
(** ** The helper every scanner module repeats: [_with_param] *)

Module Urls.

(** Replace/add a single query parameter in [url] with [value]
    ([sqli.py], [nosqli.py], [cmdi.py] and [ssti.py] each define it with
    the same body). *)
Definition _with_param `{!Urllib} (url key value : string) : string :=
  let parsed := urlparse url in
  let q := dict_set (dict_of_pairs (parse_qsl (query parsed))) key value in
  let new_q := urlencode q in
  urlunparse (mkParseResult (scheme parsed) (netloc parsed) (path parsed)
                (params parsed) new_q (fragment parsed)).

End Urls.
Export Urls.

(* ================================================================= *)
(** ** [active/injection/sqli.py] *)

Module SQLi.
Import Regex.

Definition DB_ERRORS : list regex := [
  (* MySQL *)
  seqs [lit "SQL syntax"; star Dot; lit "MySQL"];
  seqs [lit "Warning: mysql"; opt (Lit "i"); lit "::"];
  lit "MySQL server version for the right syntax";
  seqs [lit "Unknown column '"; star Dot; lit "' in 'field list'"];
  (* PostgreSQL *)
  lit "PG::SyntaxError";
  lit "psql: error";
  seqs [lit "ERROR:"; plus Space; lit "syntax error at or near"];
  lit "invalid input syntax for type";
  (* MSSQL *)
  lit "Unclosed quotation mark after the character string";
  seqs [lit "SQL Server"; star Dot; lit "Driver"];
  lit "Microsoft OLE DB Provider for SQL Server";
  (* Oracle *)
  seqs [lit "ORA-"; times Digit 5];
  lit "Oracle error";
  (* SQLite *)
  lit "SQLite/JDBCDriver";
  lit "SQLITE_ERROR";
  lit ("near " +:+ dq +:+ "SELECT" +:+ dq +:+ ": syntax error")
].

(** [re.compile("|".join(DB_ERRORS), re.IGNORECASE | re.MULTILINE)];
    MULTILINE only changes [^] and [$], which the table does not use. *)
Definition DB_ERROR_RE : regex := alts DB_ERRORS.

Definition TIME_SAFETY_TIMEOUT : Z := 15.

(** [base_url.rstrip("/")] *)
Fixpoint rstrip_slash (s : string) : string :=
  match s with
  | EmptyString => EmptyString
  | String c s' =>
      match rstrip_slash s' with
      | EmptyString => if Ascii.eqb c "/" then EmptyString else String c EmptyString
      | r => String c r
      end
  end.

(** [sep.join(parts)] *)
Fixpoint join (sep : string) (parts : list string) : string :=
  match parts with
  | [] => ""
  | [x] => x
  | x :: rest => x +:+ sep +:+ join sep rest
  end.

(** The attributes [__init__] sets, apart from the session, the logger and
    the differ (which are the runtime) and [_baselines] (which is in the
    state, initially empty). *)
Record SQLiScanner : Type := mkSQLiScanner {
  base_url : string;
  max_union_cols : Z;
  boolean_pairs : list (string * string);
  error_payloads : list string;
  time_payloads : list string;
}.

Definition __init__ (base_url : string) (max_union_cols : Z) : SQLiScanner := {|
  base_url := rstrip_slash base_url;
  max_union_cols := max_union_cols;
  boolean_pairs := [
    ("1' OR '1'='1", "1' AND '1'='2");
    ("1) OR (1=1", "1) AND (1=2");
    ("1') OR ('1'='1", "1') AND ('1'='2")
  ];
  error_payloads := [
    "'"; dq; "'))"; "'))--"; "`"; "1'--"; "1')--"; "1" +:+ dq +:+ "--"; "1) --"
  ];
  time_payloads := [
    "1' OR SLEEP(5)-- ";
    "1'); SELECT pg_sleep(5); --";
    "1) OR SLEEP(5)-- ";
    "1) ; SELECT pg_sleep(5); --"
  ];
|}.

(** The default [max_union_cols: int = 6]. *)
Definition default_scanner (base_url : string) : SQLiScanner := __init__ base_url 6.

Definition _looks_like_db_error (body : string) : option string :=
  search true DB_ERROR_RE body.

Definition severity_of (technique : string) : string :=
  if existsb (String.eqb technique) ["time-blind"; "union-based"; "error-based"]
  then "High" else "Medium".

Definition recommendation_text : string :=
  "Use parameterized queries/ORM bind parameters; avoid dynamic SQL. " +:+
  "Apply least-privilege DB accounts and input validation. " +:+
  "Enable ORM/driver escaping consistently.".

Definition _report (title url param technique evidence : string)
    (baseline_status : Z) (status : one_or_two Z)
    (baseline_len : nat) (new_len : one_or_two nat)
    (timing : option float) : M Finding :=
  let data := {|
    title := title;
    category := "Injection/SQLi";
    url := url;
    parameter := param;
    technique := technique;
    evidence := evidence;
    baseline_status := baseline_status;
    status := status;
    baseline_len := baseline_len;
    observed_len := new_len;
    timing := timing;
    severity := severity_of technique;
    recommendation := recommendation_text;
  |} in
  log_entry (LogFinding "SQL Injection" url (technique +:+ ": " +:+ evidence)
               (severity data) (MetaSQLi data));;
  mret data.

Section scanner.
Context `{!Transport, !Urllib, !Encode, !ResponseDiffer, !Format}.

Definition _fetch (url : string) (method : http_method)
    (data : option (gmap string string)) : M (Z * string * list (string * string)) :=
  try_except
    (match method with
     | GET => session_request (get_request url)
     | POST => session_request (mkRequest POST url data)
     end)
    (fun e =>
       log_entry (LogError "SQLiScanner._fetch" (url +:+ ": " +:+ str_exn e));;
       mret (0%Z, "", [])).

Definition _baseline (url param : string) : M (Z * nat * string) :=
  s ← get;
  match _baselines s !! param with
  | Some cached => mret cached
  | None =>
      '(status, body, _) ← _fetch url GET None;
      let baseline := (status, String.length body, slice_to 4000 body) in
      set_baseline param baseline;;
      mret baseline
  end.

(** [_baseline] in its two halves around the [await]: the cache test,
    and what follows it on a miss.  The event loop can enter another call
    between the two. *)
Definition cached_baseline (param : string) : M (option (Z * nat * string)) :=
  s ← get; mret (_baselines s !! param).

Definition fetch_baseline (url param : string) : M (Z * nat * string) :=
  '(status, body, _) ← _fetch url GET None;
  let baseline := (status, String.length body, slice_to 4000 body) in
  set_baseline param baseline;;
  mret baseline.

(** Two calls of [_baseline] for one parameter name, the second entered
    while the first awaits its response: both cache tests come before
    either store. *)
Definition overlapping_baselines (url1 url2 param : string)
    : M ((Z * nat * string) * (Z * nat * string)) :=
  c1 ← cached_baseline param;
  c2 ← cached_baseline param;
  b1 ← match c1 with Some cached => mret cached | None => fetch_baseline url1 param end;
  b2 ← match c2 with Some cached => mret cached | None => fetch_baseline url2 param end;
  mret (b1, b2).

(** 1) Error-based quick checks: the body of the loop over
    [self.error_payloads]. *)
Definition error_probe (url p : string) (baseline_status : Z) (baseline_len : nat)
    (inj : string) (findings : list Finding) : M (ctl * list Finding) :=
  let test_url := _with_param url p (url_safe inj) in
  '(status, body, _) ← _fetch test_url GET None;
  if (status =? 0)%Z then mret (Continue, findings)
  else
    match _looks_like_db_error body with
    | Some err =>
        if truthy err then
          f ← _report "SQL Injection (Error-based)" test_url p "error-based" err
                baseline_status (One status) baseline_len (One (String.length body)) None;
          mret (Break, findings ++ [f])     (* one is enough to flag error-based *)
        else mret (Continue, findings)
    | None => mret (Continue, findings)
    end.

(** 2) Boolean-based blind: the body of the loop over
    [self.boolean_pairs]. *)
Definition boolean_probe (url p : string) (baseline_status : Z) (baseline_len : nat)
    (baseline_snippet : string) (pair : string * string)
    (findings : list Finding) : M (ctl * list Finding) :=
  let '(t, f_val) := pair in
  let t_url := _with_param url p (url_safe t) in
  let f_url := _with_param url p (url_safe f_val) in
  '(st_t, body_t, _) ← _fetch t_url GET None;
  '(st_f, body_f, _) ← _fetch f_url GET None;
  if (st_t =? 0)%Z || (st_f =? 0)%Z then mret (Continue, findings)
  else
    let sim_tf := similarity body_t body_f in
    let sim_tb := similarity body_t baseline_snippet in
    let sim_fb := similarity body_f baseline_snippet in
    if (sim_tf <? 0.60)%float && ((0.85 <? sim_tb)%float || (0.85 <? sim_fb)%float) then
      f ← _report "SQL Injection (Boolean-based)" (t_url +:+ "  vs  " +:+ f_url) p
            "boolean-blind"
            ("similarity(true,false)=" +:+ format_2f sim_tf +:+
             ", sim(true,base)=" +:+ format_2f sim_tb +:+
             ", sim(false,base)=" +:+ format_2f sim_fb)
            baseline_status (Two st_t st_f) baseline_len
            (Two (String.length body_t) (String.length body_f)) None;
      mret (Break, findings ++ [f])
    else mret (Continue, findings).

(** 3) Time-based blind: the body of the loop over [self.time_payloads]. *)
Definition time_probe (url p : string) (baseline_status : Z) (baseline_len : nat)
    (inj : string) (findings : list Finding) : M (ctl * list Finding) :=
  let test_url := _with_param url p (url_safe inj) in
  t0 ← perf_counter;
  '(status, body, _) ← _fetch test_url GET None;
  t1 ← perf_counter;
  let dt := (t1 - t0)%float in
  if (status =? 0)%Z then mret (Continue, findings)
  else if (4.5 <=? dt)%float then        (* ~5s sleep indicates execution *)
    f ← _report "SQL Injection (Time-based)" test_url p "time-blind"
          ("response time " +:+ format_2f dt +:+ "s")
          baseline_status (One status) baseline_len (One (String.length body)) (Some dt);
    mret (Break, findings ++ [f])
  else mret (Continue, findings).

(** 4) Union-based quick probe: the body of the loop over
    [range(1, self.max_union_cols + 1)]. *)
Definition union_technique (cols : nat) : string :=
  "union-based (cols~" +:+ pretty cols +:+ ")".

Definition union_probe (url p : string) (baseline_status : Z) (baseline_len : nat)
    (baseline_snippet : string) (cols : nat)
    (findings : list Finding) : M (ctl * list Finding) :=
  let nulls := join "," (replicate cols "NULL") in
  let payload := "1 UNION SELECT " +:+ nulls +:+ "-- " in
  let test_url := _with_param url p (url_safe payload) in
  '(status, body, _) ← _fetch test_url GET None;
  if (status =? 0)%Z then mret (Continue, findings)
  else
    let sim := similarity body baseline_snippet in
    if (sim <? 0.70)%float then
      f ← _report "SQL Injection (UNION-based, columns guess)" test_url p
            (union_technique cols)
            ("similarity(baseline,new)=" +:+ format_2f sim)
            baseline_status (One status) baseline_len (One (String.length body)) None;
      mret (Break, findings ++ [f])
    else mret (Continue, findings).

(** [range(1, n + 1)] *)
Definition range_1 (n : Z) : list nat := seq 1 (Z.to_nat n).

(** The body of [for p in params]. *)
Definition scan_param (self : SQLiScanner) (url p : string)
    (findings : list Finding) : M (list Finding) :=
  '(baseline_status, baseline_len, baseline_snippet) ← _baseline url p;
  findings ← for_each (error_payloads self)
               (error_probe url p baseline_status baseline_len) findings;
  findings ← for_each (boolean_pairs self)
               (boolean_probe url p baseline_status baseline_len baseline_snippet) findings;
  findings ← for_each (time_payloads self)
               (time_probe url p baseline_status baseline_len) findings;
  findings ← for_each (range_1 (max_union_cols self))
               (union_probe url p baseline_status baseline_len baseline_snippet) findings;
  mret findings.

Definition scan_get_params (self : SQLiScanner) (url : string) (params : list string)
    : M (list Finding) :=
  for_each params
    (fun p findings => findings ← scan_param self url p findings; mret (Continue, findings))
    [].

(** *** [scan_post_form]

    The form is a [dict] in insertion order; [{**form, p: inj}] overwrites
    field [p] in place or appends it, and [data=...] puts the fields on the
    wire.  The [request_body] argument of [_report] is not used by it. *)

(** [data=m] *)
Definition form_data (m : list (string * string)) : option (gmap string string) :=
  Some (list_to_map m).

(** Error-based: the body of the loop over [self.error_payloads]. *)
Definition error_probe_post (url : string) (form : list (string * string)) (p : string)
    (baseline : Z * nat * string) (inj : string) (findings : list Finding)
    : M (ctl * list Finding) :=
  let m := dict_set form p inj in
  '(st, body, _) ← _fetch url POST (form_data m);
  if (st =? 0)%Z then mret (Continue, findings)
  else
    match _looks_like_db_error body with
    | Some err =>
        if truthy err then
          f ← _report "SQL Injection (Error-based, POST)" url p "error-based" err
                baseline.1.1 (One st) baseline.1.2 (One (String.length body)) None;
          mret (Break, findings ++ [f])
        else mret (Continue, findings)
    | None => mret (Continue, findings)
    end.

(** Boolean-based: the body of the loop over [self.boolean_pairs]. *)
Definition boolean_probe_post (url : string) (form : list (string * string)) (p : string)
    (baseline : Z * nat * string) (pair : string * string) (findings : list Finding)
    : M (ctl * list Finding) :=
  let '(t, f_val) := pair in
  '(st_t, body_t, _) ← _fetch url POST (form_data (dict_set form p t));
  '(st_f, body_f, _) ← _fetch url POST (form_data (dict_set form p f_val));
  if (st_t =? 0)%Z || (st_f =? 0)%Z then mret (Continue, findings)
  else
    let sim_tf := similarity body_t body_f in
    let sim_tb := similarity body_t baseline.2 in
    let sim_fb := similarity body_f baseline.2 in
    if (sim_tf <? 0.60)%float && ((0.85 <? sim_tb)%float || (0.85 <? sim_fb)%float) then
      f ← _report "SQL Injection (Boolean-based, POST)" url p "boolean-blind"
            ("similarity(true,false)=" +:+ format_2f sim_tf)
            baseline.1.1 (Two st_t st_f) baseline.1.2
            (Two (String.length body_t) (String.length body_f)) None;
      mret (Break, findings ++ [f])
    else mret (Continue, findings).

(** Time-based: the body of the loop over [self.time_payloads]. *)
Definition time_probe_post (url : string) (form : list (string * string)) (p : string)
    (baseline : Z * nat * string) (inj : string) (findings : list Finding)
    : M (ctl * list Finding) :=
  t0 ← perf_counter;
  '(st, body, _) ← _fetch url POST (form_data (dict_set form p inj));
  t1 ← perf_counter;
  let dt := (t1 - t0)%float in
  if (st =? 0)%Z then mret (Continue, findings)
  else if (4.5 <=? dt)%float then
    f ← _report "SQL Injection (Time-based, POST)" url p "time-blind"
          ("response time " +:+ format_2f dt +:+ "s")
          baseline.1.1 (One st) baseline.1.2 (One (String.length body)) (Some dt);
    mret (Break, findings ++ [f])
  else mret (Continue, findings).

(** [target_params or list(form.keys())] *)
Definition fields_to_test (form : list (string * string))
    (target_params : option (list string)) : list string :=
  match target_params with
  | Some (p :: ps) => p :: ps
  | Some [] | None => map fst form
  end.

Definition scan_post_form (self : SQLiScanner) (url : string)
    (form : list (string * string)) (target_params : option (list string))
    : M (list Finding) :=
  let findings := [] in
  let target_params := fields_to_test form target_params in
  (* Baseline *)
  '(status_b, body_b, _) ← _fetch url POST (form_data form);
  let baseline := (status_b, String.length body_b, slice_to 4000 body_b) in
  for_each target_params
    (fun p findings =>
       findings ← for_each (error_payloads self) (error_probe_post url form p baseline) findings;
       findings ← for_each (boolean_pairs self) (boolean_probe_post url form p baseline) findings;
       findings ← for_each (time_payloads self) (time_probe_post url form p baseline) findings;
       mret (Continue, findings))
    findings.

End scanner.
End SQLi.

(* ================================================================= *)
(** ** [active/injection/nosqli.py] *)

Module NoSQLi.
Import Regex.

Definition MONGO_HINTS : list regex := [
  lit "$where"; lit "$ne"; lit "$gt"; lit "$regex"; lit "$and"; lit "$or"
].

(** [re.compile("|".join(MONGO_HINTS), re.IGNORECASE)] *)
Definition MONGO_HINTS_RE : regex := alts MONGO_HINTS.

(** [self.boolean_pairs] *)
Definition boolean_pairs : list (string * string) := [
  ("{" +:+ dq +:+ "$ne" +:+ dq +:+ ": null}", dq +:+ "fixedvalue" +:+ dq);
  ("{" +:+ dq +:+ "$gt" +:+ dq +:+ ": " +:+ dq +:+ dq +:+ "}", dq +:+ "zzzzzzzzzz" +:+ dq);
  ("{" +:+ dq +:+ "$regex" +:+ dq +:+ ": " +:+ dq +:+ ".*" +:+ dq +:+ "}",
   dq +:+ "no_such_value_12345" +:+ dq)
].

Definition recommendation_text : string :=
  "Use server-side input validation and strict schema. Avoid directly passing client-supplied " +:+
  "objects into NoSQL queries. Whitelist allowed operators/fields and sanitize strings.".

Definition _report (title param url evidence : string) (baseline_status : Z)
    (status : one_or_two Z) (baseline_len : nat) (new_len : one_or_two nat)
    (request_body : option string) : M NoSQLiFinding :=
  let data := {|
    ns_title := title;
    ns_category := "Injection/NoSQLi";
    ns_url := url;
    ns_parameter := param;
    ns_evidence := evidence;
    ns_baseline_status := baseline_status;
    ns_status := status;
    ns_baseline_len := baseline_len;
    ns_observed_len := new_len;
    ns_severity := "High";
    ns_recommendation := recommendation_text;
    ns_request_body := request_body;
  |} in
  log_entry (LogFinding "NoSQL Injection" url evidence (ns_severity data) (MetaNoSQLi data));;
  mret data.

Section scanner.
Context `{!Transport, !Urllib, !Encode, !ResponseDiffer, !Format}.

Definition _get (url : string) : M (Z * string) :=
  try_except
    ('(status, text, _) ← session_request (get_request url); mret (status, text))
    (fun e =>
       log_entry (LogError "NoSQLiScanner._get" (url +:+ ": " +:+ str_exn e));;
       mret (0%Z, "")).

(** Boolean pairs: the body of the loop over [self.boolean_pairs]. *)
Definition boolean_probe (url p : string) (st_b : Z) (baseline_body : string)
    (pair : string * string) (findings : list NoSQLiFinding)
    : M (ctl * list NoSQLiFinding) :=
  let '(t, f_val) := pair in
  let t_url := _with_param url p (url_safe t) in
  let f_url := _with_param url p (url_safe f_val) in
  '(st_t, body_t) ← _get t_url;
  '(st_f, body_f) ← _get f_url;
  if (st_t =? 0)%Z || (st_f =? 0)%Z then mret (Continue, findings)
  else
    let sim_tf := similarity body_t body_f in
    let sim_tb := similarity body_t baseline_body in
    let sim_fb := similarity body_f baseline_body in
    if (sim_tf <? 0.60)%float &&
       ((0.85 <? sim_tb)%float || (0.85 <? sim_fb)%float || negb (st_t =? st_f)%Z) then
      let evidence :=
        "similarity(true,false)=" +:+ format_2f sim_tf +:+
        "; status(" +:+ pretty st_t +:+ "," +:+ pretty st_f +:+ ")" in
      f ← _report "NoSQL Injection (boolean/ops, GET)" p (t_url +:+ " vs " +:+ f_url)
            evidence st_b (Two st_t st_f) (String.length baseline_body)
            (Two (String.length body_t) (String.length body_f)) None;
      mret (Break, findings ++ [f])
    else mret (Continue, findings).

(** Error hint: one operator payload, flagged when operator tokens are
    echoed in the response. *)
Definition operator_probe (url p : string) (st_b : Z) (baseline_body : string)
    (findings : list NoSQLiFinding) : M (list NoSQLiFinding) :=
  let inj := "{" +:+ dq +:+ "$ne" +:+ dq +:+ ": null}" in
  let e_url := _with_param url p (url_safe inj) in
  '(st, body) ← _get e_url;
  if negb (st =? 0)%Z && bool_decide (is_Some (search true MONGO_HINTS_RE body)) then
    f ← _report "NoSQL Injection (operator leakage, GET)" p e_url
          "Response contains NoSQL operator echoes."
          st_b (One st) (String.length baseline_body) (One (String.length body)) None;
    mret (findings ++ [f])
  else mret findings.

Definition scan_get_params (url : string) (params : list string)
    : M (list NoSQLiFinding) :=
  (* Baseline *)
  '(st_b, body_b) ← _get url;
  let baseline := (st_b, slice_to 4000 body_b) in
  for_each params
    (fun p findings =>
       findings ← for_each boolean_pairs (boolean_probe url p baseline.1 baseline.2) findings;
       findings ← operator_probe url p st_b baseline.2 findings;
       mret (Continue, findings))
    [].

End scanner.
End NoSQLi.

(* ================================================================= *)
(** ** [active/injection/cmdi.py]: the timing probes *)

Module CMDi.

Definition TIME_PROBES : list string := [
  "; sleep 5";               (* sh / bash *)
  "|| sleep 5";              (* alternate separators *)
  "$(sleep 5)";              (* subshell *)
  "; ping -c 5 127.0.0.1"    (* older systems may use ping as delay *)
].

(** safe default time threshold (seconds) *)
Definition TIME_THRESHOLD : float := 4.5.

Definition REQUEST_TIMEOUT : Z := 12.

Record CMDIScanner : Type := mkCMDIScanner {
  base_url : string;
  aggressive : bool;
  timeout : Z;
}.

(** [aggressive: bool = False], [timeout: int = REQUEST_TIMEOUT] *)
Definition __init__ (base_url : string) (aggressive : bool) : CMDIScanner :=
  mkCMDIScanner (SQLi.rstrip_slash base_url) aggressive REQUEST_TIMEOUT.

Section scanner.
Context `{!Transport, !Urllib, !Encode, !Format}.

Definition _safe_log_error (where_ message : string) : M unit :=
  try_except
    (log_entry (Log "cmdi_error" None (MetaError where_ message)))
    (fun _ => mret tt).

Definition on_failure (where_ : string) (e : exn) : M (Z * string * list (string * string)) :=
  if is_TimeoutError e then mret (0%Z, "", [])
  else (_safe_log_error where_ (str_exn e);; mret (0%Z, "", [])).

Definition _get (url : string) : M (Z * string * list (string * string)) :=
  try_except (session_request (get_request url)) (on_failure "_get").

Definition _post (url : string) (data : gmap string string)
    : M (Z * string * list (string * string)) :=
  try_except (session_request (post_request url data)) (on_failure "_post").

(** [(data.get(param) if data and param in data else None) or ""] *)
Definition injected_value (data : option (gmap string string)) (param : string) : string :=
  default "" (d ← data; d !! param).

(** The body of the loop over [TIME_PROBES]. *)
Definition timing_probe (url param : string) (method : http_method)
    (data : option (gmap string string)) (base_dt : float)
    (probe : string) (findings : list CMDiFinding) : M (ctl * list CMDiFinding) :=
  let candidate := injected_value data param +:+ probe in
  let cand_escaped := url_safe candidate in
  start ← perf_counter;
  '(st, body, _) ←
    match method with
    | GET => _get (_with_param url param cand_escaped)
    | POST => _post url (<[param := candidate]> (default ∅ data))
    end;
  stop ← perf_counter;
  let elapsed := (stop - start)%float in
  if (TIME_THRESHOLD <? elapsed - base_dt)%float then
    let finding := {|
      ct_type := "command_injection_timing";
      ct_url := url;
      ct_param := param;
      ct_payload := probe;
      ct_baseline_time := base_dt;
      ct_observed_time := elapsed;
      ct_status_code := st;
    |} in
    log_entry (LogFinding "CMDi" url ("timing " +:+ format_2f elapsed +:+ "s") "High"
                 (MetaCMDi finding));;
    mret (Break, findings ++ [finding])
  else mret (Continue, findings).

Definition scan_timing_param (self : CMDIScanner) (url param : string)
    (method : http_method) (data : option (gmap string string)) : M (list CMDiFinding) :=
  let findings := [] in
  if negb (aggressive self) then mret findings   (* skip timing probes unless explicitly allowed *)
  else
    (* baseline timing *)
    t0 ← perf_counter;
    _ ← match method with
        | GET => _get url
        | POST => _post url (default ∅ data)
        end;
    t1 ← perf_counter;
    let base_dt := (t1 - t0)%float in
    for_each TIME_PROBES (timing_probe url param method data base_dt) findings.

End scanner.
End CMDi.

(* ================================================================= *)
(** ** [active/injection/ssti.py] *)

Module SSTI.

Definition TIME_SAFETY_TIMEOUT : Z := 12.

(** Template engine probes (payload, expected marker) *)
Definition REFLECTIVE_PROBES : list (string * option string) := [
  ("{{7*7}}", Some "49");
  ("${7*7}", Some "49");
  ("<%= 7*7 %>", Some "49");
  ("${{7*7}}", Some "49");
  ("$mathTool.multiply(7,7)", Some "49")
].

(** Timing-based probes (for blind SSTI, only if aggressive is enabled) *)
Definition TIMING_PROBES : list string := [
  "{{''.join(['' for x in range(5000000)])}}";
  "${{ ''.join(['' for x in range(5000000)]) }}"
].

Record SSTIScanner : Type := mkSSTIScanner { aggressive : bool }.

Section scanner.
Context `{!Transport, !Urllib, !Encode}.

(** The body of the loop over [REFLECTIVE_PROBES]; both [except]
    clauses [continue]. *)
Definition reflective_probe (url param : string) (probe : string * option string)
    (findings : list SSTIFinding) : M (ctl * list SSTIFinding) :=
  let '(payload, marker) := probe in
  let test_url := _with_param url param (url_safe payload) in
  try_except
    ('(_, body, _) ← session_request (get_request test_url);
     match marker with
     | Some mk =>
         if truthy mk && contains mk body then
           let evidence := mkSSTIEvidence param payload (Some mk) None "Reflective eval" in
           log_entry (Log "ssti" (Some url) (MetaSSTI evidence));;
           mret (Continue, findings ++ [mkSSTIFinding url param payload "reflective" evidence])
         else mret (Continue, findings)
     | None => mret (Continue, findings)
     end)
    (fun _ => mret (Continue, findings)).

(** The body of the loop over [TIMING_PROBES]. *)
Definition timing_probe (url param : string) (payload : string)
    (findings : list SSTIFinding) : M (ctl * list SSTIFinding) :=
  let test_url := _with_param url param (url_safe payload) in
  try_except
    (start ← perf_counter;
     _ ← session_request (get_request test_url);
     stop ← perf_counter;
     let elapsed := (stop - start)%float in
     if (5 <? elapsed)%float then        (* heuristic threshold *)
       let evidence := mkSSTIEvidence param payload None (Some elapsed) "Timing-based SSTI" in
       log_entry (Log "ssti" (Some url) (MetaSSTI evidence));;
       mret (Continue, findings ++ [mkSSTIFinding url param payload "timing" evidence])
     else mret (Continue, findings))
    (fun _ => mret (Continue, findings)).

Definition scan_param (self : SSTIScanner) (url param : string) : M (list SSTIFinding) :=
  findings ← for_each REFLECTIVE_PROBES (reflective_probe url param) [];
  if aggressive self then for_each TIMING_PROBES (timing_probe url param) findings
  else mret findings.

Definition scan (self : SSTIScanner) (url : string) (params : list string)
    : M (list SSTIFinding) :=
  for_each params
    (fun param all_findings =>
       res ← scan_param self url param; mret (Continue, all_findings ++ res))
    [].

End scanner.
End SSTI.

(* ================================================================= *)
(** ** The fallback [ResponseDiffer] of [cmdi.py] and [hpp.py]

    [from diffing.responses import ResponseDiffer] fails (the module
    defines [ResponseDiff] only), so the class in the [except] branch is
    the one these modules run with. *)

Module Fallback.

(** trivial fallback: exact match -> 1.0 else 0.0 *)
Definition similarity (a b : string) : float :=
  if String.eqb a b then 1.0%float else 0.0%float.

Definition differ : ResponseDiffer := similarity.

End Fallback.

(* ================================================================= *)
(** ** [diffing/timing.py] *)

Module Timing.

(** [statistics.mean] and [statistics.stdev] of the standard library, on
    lists of floats; [None] where the call raises (as [stdev] does on
    samples that are not finite).  CPython computes both from the exact
    sum of the samples and rounds at the end, in a way that differs
    between versions in the last digit; the two facts kept here hold in
    all of them: of finite samples that are all equal, the mean is the
    sample (0.0 for the negative zero, which is left out) and the
    deviation is 0.0. *)
Class Statistics : Type := {
  mean : list float -> option float;
  stdev : list float -> option float;
  mean_equal : forall (x : float) (n : nat),
    is_finite x = true -> x <> neg_zero -> mean (replicate (S n) x) = Some x;
  stdev_equal : forall (x : float) (n : nat),
    is_finite x = true -> stdev (replicate (S (S n)) x) = Some 0%float;
}.

Record TimingAnalyzer : Type := mkTimingAnalyzer {
  baseline : list float;
  baseline_mean : float;
  baseline_std : float;
}.

(** The constructor; [None] when [statistics.mean] or [statistics.stdev]
    raises, so that no analyzer is made. *)
Definition __init__ `{!Statistics} (baseline_response_times : list float)
    : option TimingAnalyzer :=
  baseline_mean ←
    match baseline_response_times with
    | [] => Some 0%float
    | _ => mean baseline_response_times
    end;
  baseline_std ←
    (if (1 <? length baseline_response_times)%nat then stdev baseline_response_times
     else Some 0%float);
  Some (mkTimingAnalyzer baseline_response_times baseline_mean baseline_std).

(** Determines if a response time is delayed compared to baseline. *)
Definition is_delayed (self : TimingAnalyzer) (response_time threshold : float) : bool :=
  match baseline self with
  | [] => false
  | _ =>
      (* Using standard deviation based detection *)
      let deviation := PrimFloat.abs (response_time - baseline_mean self)%float in
      if (0 <? baseline_std self)%float then
        (baseline_std self * threshold <? deviation)%float
      else
        (* fallback to simple threshold in seconds *)
        (threshold <? deviation)%float
  end.

(** The default [threshold: float = 3.0]. *)
Definition default_threshold : float := 3.0.

Definition analyze_multiple (self : TimingAnalyzer) (response_times : list float)
    (threshold : float) : float * float * list (float * bool) :=
  (baseline_mean self, baseline_std self,
   map (fun t => (t, is_delayed self t threshold)) response_times).

(** The two policies of the design document, written from its words:
    "statistical — |observed - mean| > k * stddev" and the
    "flat-second threshold".  The product is taken in the order the code
    takes it; the IEEE product does not depend on the order. *)
Definition spec_flat (mean_ observed threshold : float) : bool :=
  (threshold <? PrimFloat.abs (observed - mean_))%float.

Definition spec_statistical (mean_ std observed threshold : float) : bool :=
  (std * threshold <? PrimFloat.abs (observed - mean_))%float.

End Timing.

(* ================================================================= *)
(** ** [core/scheduler.py] *)

Module Scheduler.

(** Values passed to and returned by task functions. *)
Inductive Any : Type := PyNone | PyStr (s : string) | PyInt (z : Z).

(** What awaiting a call of a task function comes to: the call returns,
    it raises, or the await never completes.  The last is what happens to
    a coroutine that waits for ever, and to a plain function that raises
    [StopIteration] in the executor: on Python 3.11 the exception cannot
    be set on the future, which is then never resolved (later versions
    make the await raise [RuntimeError] instead). *)
Inductive outcome : Type :=
| Returns (v : Any)
| Raises (e : exn)
| Pending.

(** A task function: whether [asyncio.iscoroutinefunction] holds of it,
    and what awaiting its call with given arguments comes to. *)
Record Callable : Type := mkCallable {
  iscoroutinefunction : bool;
  call : list Any -> gmap string Any -> outcome;
}.

Record ScanTask : Type := mkScanTask {
  name : string;
  func : Callable;
  args : list Any;
  kwargs : gmap string Any;
  result_ : Any;
  exception : option exn;
  completed : bool;
  started_at : option float;
  finished_at : option float;
}.

(** [args or []], [kwargs or {}] *)
Definition new_task (name : string) (func : Callable)
    (args : option (list Any)) (kwargs : option (gmap string Any)) : ScanTask := {|
  name := name;
  func := func;
  args := default [] args;
  kwargs := default ∅ kwargs;
  result_ := PyNone;
  exception := None;
  completed := false;
  started_at := None;
  finished_at := None;
|}.

(** The result of an await that completes; [None] for one that does not. *)
Definition awaited (o : outcome) : option (result Any) :=
  match o with
  | Returns v => Some (Ok v)
  | Raises e => Some (Raised e)
  | Pending => None
  end.

(** What the awaited call in [run] comes to.  [loop.run_in_executor]
    takes positional arguments only: keyword arguments are a [TypeError]. *)
Definition invoke (t : ScanTask) : option (result Any) :=
  if iscoroutinefunction (func t) then awaited (call (func t) (args t) (kwargs t))
  else if bool_decide (kwargs t = ∅) then awaited (call (func t) (args t) ∅)
  else Some (Raised (TypeError "run_in_executor() got an unexpected keyword argument")).

(** [run] up to its [await]: the start time is recorded. *)
Definition run_begin (now : float) (t : ScanTask) : ScanTask :=
  mkScanTask (name t) (func t) (args t) (kwargs t) (result_ t) (exception t)
    (completed t) (Some now) (finished_at t).

(** [run] from the [await] on: the [try] body's tail, the [except
    Exception] clause and the [finally] clause. *)
Definition run_end (now : float) (t : ScanTask) (outcome : result Any)
    : result unit * ScanTask :=
  match outcome with
  | Ok v =>
      (Ok tt, mkScanTask (name t) (func t) (args t) (kwargs t) v (exception t)
                true (started_at t) (Some now))
  | Raised e =>
      if is_Exception e then
        (Ok tt, mkScanTask (name t) (func t) (args t) (kwargs t) (result_ t) (Some e)
                  true (started_at t) (Some now))
      else
        (Raised e, mkScanTask (name t) (func t) (args t) (kwargs t) (result_ t)
                     (exception t) (completed t) (started_at t) (Some now))
  end.

(** [await task.run()] in one piece; [None] when its await never
    completes. *)
Definition run (t_start t_end : float) (t : ScanTask) : option (result unit * ScanTask) :=
  run_end t_end (run_begin t_start t) <$> invoke t.

Record Scheduler : Type := mkScheduler {
  max_concurrent_tasks : Z;
  tasks : list ScanTask;
}.

(** [max_concurrent_tasks: int = 5] *)
Definition new_scheduler : Scheduler := mkScheduler 5 [].

Definition add_task (self : Scheduler) (task : ScanTask) : Scheduler :=
  mkScheduler (max_concurrent_tasks self) (tasks self ++ [task]).

Definition pending_tasks (ts : list ScanTask) : list ScanTask :=
  filter (fun t => completed t = false) ts.

Definition completed_tasks (ts : list ScanTask) : list ScanTask :=
  filter (fun t => completed t = true) ts.

(** *** [run_all]: the coroutines of [gather] under the semaphore

    Each [sem_task] waits for the semaphore, runs its task up to the
    awaited call, and later finishes it and releases the semaphore.  The
    event loop interleaves these two steps of all tasks in any order. *)
Inductive phase : Type :=
| Waiting                 (* before [async with semaphore] is entered *)
| Running                 (* inside [task.run()], at its [await] *)
| Finished                (* [sem_task] returned *)
| Propagated (e : exn).   (* [sem_task] raised [e] into [gather] *)

#[global] Instance phase_eq_dec : EqDecision phase.
Proof. solve_decision. Defined.

Record Pool : Type := mkPool {
  permits : nat;                       (* the semaphore's value *)
  slots : list (phase * ScanTask);
}.

(** [asyncio.Semaphore(n)] raises [ValueError] for a negative [n]. *)
Definition start (self : Scheduler) : result Pool :=
  if (max_concurrent_tasks self <? 0)%Z
  then Raised (ValueError "Semaphore initial value must be >= 0")
  else Ok (mkPool (Z.to_nat (max_concurrent_tasks self))
             (map (fun t => (Waiting, t)) (tasks self))).

(** Slot [i] enters the semaphore and starts its task. *)
Definition acquire (i : nat) (now : float) (p : Pool) : option Pool :=
  match slots p !! i, permits p with
  | Some (Waiting, t), S n =>
      Some (mkPool n (<[i := (Running, run_begin now t)]> (slots p)))
  | _, _ => None
  end.

(** The awaited call of slot [i] completes; [run] ends and the
    semaphore is released. *)
Definition finish (i : nat) (now : float) (p : Pool) : option Pool :=
  match slots p !! i with
  | Some (Running, t) =>
      out ← invoke t;
      let '(r, t') := run_end now t out in
      let ph := match r with Ok _ => Finished | Raised e => Propagated e end in
      Some (mkPool (S (permits p)) (<[i := (ph, t')]> (slots p)))
  | _ => None
  end.

Inductive step (p p' : Pool) : Prop :=
| step_acquire i now : acquire i now p = Some p' -> step p p'
| step_finish i now : finish i now p = Some p' -> step p p'.

(** What [await asyncio.gather(...)] has come to in pool [p]: an
    exception of a [sem_task] is raised at once; otherwise [gather]
    returns when every [sem_task] has, and blocks until then. *)
Definition propagated (ps : phase * ScanTask) : option exn :=
  match ps.1 with Propagated e => Some e | _ => None end.

Definition is_finished (ps : phase * ScanTask) : bool :=
  match ps.1 with Finished => true | _ => false end.

Definition run_all_result (p : Pool) : option (result unit) :=
  match omap propagated (slots p) with
  | e :: _ => Some (Raised e)
  | [] => if forallb is_finished (slots p) then Some (Ok tt) else None
  end.

(** The tasks as [self.tasks] shows them in pool [p]. *)
Definition tasks_of (p : Pool) : list ScanTask := map snd (slots p).

(** The number of tasks inside the semaphore. *)
Definition in_flight (ph : phase) : nat :=
  match ph with Running => 1 | _ => 0 end.

Definition running (p : Pool) : nat :=
  sum_list (map (fun ps => in_flight ps.1) (slots p)).

(** The steps a slot still has to take. *)
Definition weight (ph : phase) : nat :=
  match ph with Waiting => 2 | Running => 1 | _ => 0 end.

Definition work_left (p : Pool) : nat :=
  sum_list (map (fun ps => weight ps.1) (slots p)).

(** A task whose awaited call returns or raises an exception that
    [except Exception] catches. *)
Definition ordinary (t : ScanTask) : bool :=
  match invoke t with
  | Some (Ok _) => true
  | Some (Raised e) => is_Exception e
  | None => false
  end.

(** How far the slot of task [t0] has come: what it holds is what
    [run] makes of [t0] and of nothing else. *)
Definition progress_of (t0 : ScanTask) (slot : phase * ScanTask) : Prop :=
  match slot.1 with
  | Waiting => slot.2 = t0
  | Running => exists now, slot.2 = run_begin now t0
  | Finished => exists t_start t_end, run t_start t_end t0 = Some (Ok tt, slot.2)
  | Propagated e => exists t_start t_end, run t_start t_end t0 = Some (Raised e, slot.2)
  end.

(** What every pool reached from the start in [n] steps satisfies. *)
Definition pool_inv (self : Scheduler) (n : nat) (p : Pool) : Prop :=
  Forall2 progress_of (tasks self) (slots p) /\
  permits p + running p = Z.to_nat (max_concurrent_tasks self) /\
  work_left p + n = 2 * length (tasks self).

End Scheduler.

(* ================================================================= *)
(** ** A laboratory: small concrete instances of the runtime

    The scanners are stated over any [Urllib], [Encode], [ResponseDiffer],
    [Format] and [Transport].  The instances below are deliberately small
    stand-ins, used to run the scanners on concrete inputs. *)

Module Lab.

(** Split at the first occurrence of a character. *)
Fixpoint split_at (c : ascii) (s : string) : string * option string :=
  match s with
  | EmptyString => (EmptyString, None)
  | String x s' =>
      if Ascii.eqb x c then (EmptyString, Some s')
      else let '(l, r) := split_at c s' in (String x l, r)
  end.

(** Split at every occurrence of a character ([fuel] bounds the pieces). *)
Fixpoint split_all (fuel : nat) (c : ascii) (s : string) : list string :=
  match fuel with
  | O => [s]
  | S fuel' =>
      match split_at c s with
      | (l, None) => [l]
      | (l, Some r) => l :: split_all fuel' c r
      end
  end.

(** URLs of the form [path?k=v&k=v], without quoting. *)
Definition urllib : Urllib := {|
  urlparse u :=
    let '(p, q) := split_at "?" u in mkParseResult "" "" p "" (default "" q) "";
  parse_qsl q :=
    if String.eqb q "" then []
    else map (fun kv => let '(k, v) := split_at "=" kv in (k, default "" v))
           (split_all (String.length q) "&" q);
  urlencode q := SQLi.join "&" (map (fun kv => kv.1 +:+ "=" +:+ kv.2) q);
  urlunparse r :=
    if String.eqb (query r) "" then path r else path r +:+ "?" +:+ query r;
|}.

Definition encode : Encode := fun s => s.

(** Enough of [:.2f] for the scores of the fallback differ. *)
Definition format : Format := fun x =>
  if (x =? 1)%float then "1.00" else if (x =? 0)%float then "0.00" else "#.##".

(** A target described by a table: the first row whose key occurs in the
    requested URL gives the outcome, the last column is the default. *)
Definition table_server (rows : list (string * Outcome)) (otherwise : Outcome)
    : Transport :=
  fun _ r =>
    match List.find (fun row => contains row.1 (req_url r)) rows with
    | Some row => row.2
    | None => otherwise
    end.

Definition welcome : Outcome := Respond 200 "Welcome" [] 0.1.
Definition sql_error : Outcome := Respond 200 "Error: SQL syntax ... MySQL" [] 0.1.

(** Answers every request with the same page. *)
Definition quiet_server : Transport := table_server [] welcome.

(** Breaks on a stray quote and is otherwise unimpressed. *)
Definition error_server : Transport := table_server [("'", sql_error)] welcome.

(** Executes whatever is injected. *)
Definition injectable_server : Transport :=
  table_server [
    ("SLEEP", Respond 200 "Welcome" [] 5.2);
    ("UNION", Respond 200 "1 | NULL" [] 0.1);
    ("AND", Respond 200 "No results" [] 0.1);
    ("OR", welcome);
    ("'", sql_error)
  ] welcome.

(** Breaks on a stray quote and sleeps when told to; otherwise shows the
    page of the unmodified request. *)
Definition slow_error_server : Transport :=
  table_server [
    ("SLEEP", Respond 200 "Welcome" [] 5.2);
    ("'", sql_error)
  ] welcome.

(** Two pages, and a true/false pair that differs in status only. *)
Definition status_server : Transport :=
  table_server [
    ("AND", Respond 500 "BBBB" [] 0.1);
    ("OR", Respond 200 "AAAA" [] 0.1);
    ("$ne", Respond 200 "AAAA" [] 0.1);
    ("fixedvalue", Respond 500 "BBBB" [] 0.1)
  ] (Respond 200 "CCCC" [] 0.1).

(** Unreachable: every call times out. *)
Definition down_server : Transport := fun _ _ => Fail TimeoutError 15.

(** Two different pages under two paths. *)
Definition two_pages_server : Transport :=
  table_server [("/a", Respond 200 "page A" [] 0.1)] (Respond 404 "page B" [] 0.1).

(** Answers the true payload and times out on the false one. *)
Definition flaky_server : Transport :=
  table_server [("fixedvalue", Fail TimeoutError 12)] (Respond 200 "AAAA" [] 0.1).

(** Breaks on a value that starts with a quote, answers at once. *)
Definition strict_server : Transport :=
  table_server [("id='", Respond 200 "Error: SQL syntax ... MySQL" [] 0)]
    (Respond 200 "Welcome" [] 0).

Definition target : string := "http://target/item?id=1".

(** A stand-in for [statistics]: exact on samples that are all equal
    (finite, and not the negative zero); elsewhere it computes in binary64,
    which can differ from CPython in the last digit. *)
Definition all_equal (x : float) (xs : list float) : bool :=
  forallb (fun y => (x =? y)%float) xs.

Fixpoint float_of_nat (n : nat) : float :=
  match n with
  | O => 0%float
  | S n' => (float_of_nat n' + 1)%float
  end.

Definition fsum (xs : list float) : float := fold_left PrimFloat.add xs 0%float.

Definition mean (xs : list float) : option float :=
  match xs with
  | [] => None                                    (* StatisticsError *)
  | x :: _ =>
      if all_equal x xs then Some x
      else Some (fsum xs / float_of_nat (length xs))%float
  end.

Definition stdev (xs : list float) : option float :=
  match xs with
  | [] | [_] => None                              (* StatisticsError *)
  | x :: _ =>
      if negb (forallb is_finite xs) then None
      else if all_equal x xs then Some 0%float
      else
        let m := (fsum xs / float_of_nat (length xs))%float in
        let ss := fsum (map (fun y => ((y - m) * (y - m))%float) xs) in
        Some (PrimFloat.sqrt (ss / float_of_nat (length xs - 1)))%float
  end.

Lemma all_equal_replicate (x : float) (n : nat) :
  is_finite x = true -> all_equal x (replicate n x) = true.
Proof.
  intros Hfin. unfold is_finite, is_nan in Hfin.
  apply negb_true_iff, orb_false_iff in Hfin as [Hnan _].
  apply negb_false_iff in Hnan.
  induction n as [|n IH]; simpl; [reflexivity|]. rewrite Hnan. exact IH.
Qed.

Lemma mean_equal (x : float) (n : nat) :
  is_finite x = true -> x <> neg_zero -> mean (replicate (S n) x) = Some x.
Proof.
  intros Hfin _. pose proof (all_equal_replicate x (S n) Hfin) as Hall.
  change (replicate (S n) x) with (x :: replicate n x) in *.
  unfold mean. by rewrite Hall.
Qed.

Lemma stdev_equal (x : float) (n : nat) :
  is_finite x = true -> stdev (replicate (S (S n)) x) = Some 0%float.
Proof.
  intros Hfin. pose proof (all_equal_replicate x (S (S n)) Hfin) as Hall.
  assert (Hfinite : forallb is_finite (replicate (S (S n)) x) = true).
  { generalize (S (S n)). intros k. induction k as [|k IH]; simpl; [reflexivity|].
    rewrite Hfin. exact IH. }
  change (replicate (S (S n)) x) with (x :: x :: replicate n x) in *.
  unfold stdev. by rewrite Hfinite, Hall.
Qed.

Definition statistics : Timing.Statistics := {|
  Timing.mean := mean;
  Timing.stdev := stdev;
  Timing.mean_equal := mean_equal;
  Timing.stdev_equal := stdev_equal;
|}.

(** Two tasks under a semaphore of one: the first fails, the second
    returns. *)
Definition failing : Scheduler.Callable :=
  Scheduler.mkCallable true (fun _ _ => Scheduler.Raises (ValueError "boom")).

Definition succeeding : Scheduler.Callable :=
  Scheduler.mkCallable true (fun _ _ => Scheduler.Returns (Scheduler.PyStr "Scanned")).

(** A coroutine function that is cancelled from inside. *)
Definition cancelled : Scheduler.Callable :=
  Scheduler.mkCallable true (fun _ _ => Scheduler.Raises CancelledError).

(** A plain function that raises [StopIteration], on Python 3.11: its
    executor future is never resolved. *)
Definition exhausted : Scheduler.Callable :=
  Scheduler.mkCallable false (fun _ _ => Scheduler.Pending).

(** A cancelled task and a sibling that returns, under a semaphore of
    two, and one run of them: both start, the sibling finishes, the
    cancelled task finishes. *)
Definition cancelled_and_sibling : Scheduler.Scheduler :=
  Scheduler.add_task
    (Scheduler.add_task (Scheduler.mkScheduler 2 [])
       (Scheduler.new_task "Task1" cancelled None None))
    (Scheduler.new_task "Task2" succeeding None None).

Definition pool_of (self : Scheduler.Scheduler) : Scheduler.Pool :=
  match Scheduler.start self with
  | Ok p0 => p0
  | Raised _ => Scheduler.mkPool 0 []
  end.

Definition cancelled_end : Scheduler.Pool :=
  default (pool_of cancelled_and_sibling)
    (p1 ← Scheduler.acquire 0 0 (pool_of cancelled_and_sibling);
     p2 ← Scheduler.acquire 1 0 p1;
     p3 ← Scheduler.finish 1 1 p2;
     Scheduler.finish 0 1 p3).

(** A task that never resolves and a sibling that returns, both started
    and the sibling finished. *)
Definition exhausted_and_sibling : Scheduler.Scheduler :=
  Scheduler.add_task
    (Scheduler.add_task (Scheduler.mkScheduler 2 [])
       (Scheduler.new_task "Task1" exhausted None None))
    (Scheduler.new_task "Task2" succeeding None None).

Definition exhausted_end : Scheduler.Pool :=
  default (pool_of exhausted_and_sibling)
    (p1 ← Scheduler.acquire 0 0 (pool_of exhausted_and_sibling);
     p2 ← Scheduler.acquire 1 0 p1;
     Scheduler.finish 1 1 p2).

Definition two_tasks : Scheduler.Scheduler :=
  Scheduler.add_task
    (Scheduler.add_task (Scheduler.mkScheduler 1 [])
       (Scheduler.new_task "Task1" failing None None))
    (Scheduler.new_task "Task2" succeeding None None).

Definition two_tasks_start : Scheduler.Pool :=
  match Scheduler.start two_tasks with
  | Ok p0 => p0
  | Raised _ => Scheduler.mkPool 0 []
  end.

(** One run of them: the first task from time 0 to 1, then the second
    from 1 to 2. *)
Definition two_tasks_end : Scheduler.Pool :=
  default two_tasks_start
    (p1 ← Scheduler.acquire 0 0 two_tasks_start;
     p2 ← Scheduler.finish 0 1 p1;
     p3 ← Scheduler.acquire 1 1 p2;
     Scheduler.finish 1 2 p3).

End Lab.

(* ================================================================= *)
(** ** Vocabulary for stating properties of runs *)

Module Logic.

(** [wp m Φ s]: running [m] from [s] ends in a result and a state that
    satisfy [Φ].  Every computation of [M] ends, so this is total
    correctness. *)
Definition wp {A} (m : M A) (Φ : result A -> State -> Prop) (s : State) : Prop :=
  Φ (m s).1 (m s).2.

(** What a scanner's fetch wrapper hands back for a transport outcome it
    can catch: the response, or the sentinel with status 0. *)
Definition seen (o : Outcome) : Z * string :=
  match o with
  | Respond st body _ _ => (st, body)
  | Fail _ _ => (0%Z, "")
  end.

(** The outcome does not raise past [except Exception]. *)
Definition catchable (o : Outcome) : bool :=
  match o with
  | Respond _ _ _ _ => true
  | Fail e _ => is_Exception e
  end.

Definition took (o : Outcome) : float :=
  match o with Respond _ _ _ t => t | Fail _ t => t end.

(** A transport whose failures are all ordinary exceptions (timeouts,
    refused connections, DNS failures). *)
Definition polite (T : Transport) : Prop := forall i r, catchable (net i r) = true.

(** An exception that left a scanner: one the transport raised and
    [except Exception] does not catch. *)
Definition escaped (T : Transport) (e : exn) : Prop :=
  is_Exception e = false /\ exists i r t, net i r = Fail e t.

(** The value a run returned, if it returned. *)
Definition returned {A} (run : result A * State) : option A :=
  match run.1 with
  | Ok a => Some a
  | Raised _ => None
  end.

(** A probe "reports a match" when it appends a finding and leaves its
    loop. *)
Definition matched {F} (run : result (ctl * list F) * State) : bool :=
  match run.1 with
  | Ok (Break, _) => true
  | _ => false
  end.

(** The decision rule of the boolean-pair procedure in the words of the
    design document: "Positive iff sim_tf < 0.60 AND (similarity(body_true,
    baseline) > 0.85 OR similarity(body_false, baseline) > 0.85 OR status
    codes differ)". *)
Definition spec_boolean_rule (sim_tf sim_tb sim_fb : float) (st_t st_f : Z) : bool :=
  (sim_tf <? 0.60)%float &&
  ((0.85 <? sim_tb)%float || (0.85 <? sim_fb)%float || negb (st_t =? st_f)%Z).

(** The state after one more request that took [t] seconds. *)
Definition after_request (r : Request) (t : float) (s : State) : State :=
  mkState (sent s ++ [r]) (clock s + t)%float (logger s) (_baselines s).

Definition after_log (e : LogEntry) (s : State) : State :=
  mkState (sent s) (clock s) (logger s ++ [e]) (_baselines s).

(** The cache only grows: entries present in [s] are unchanged in [s']. *)
Definition cache_kept (s s' : State) : Prop := _baselines s ⊆ _baselines s'.

(** The request log only grows at its end. *)
Definition sent_grows (s s' : State) : Prop := sent s `prefix_of` sent s'.

(** What later states keep of earlier ones. *)
Definition grows (s s' : State) : Prop := sent_grows s s' /\ cache_kept s s'.

(** What a probe leaves of the state it started in: it only adds
    requests (and time, and log entries); the cache is untouched. *)
Definition probed (s s' : State) : Prop :=
  sent_grows s s' /\ _baselines s' = _baselines s.

(** The four techniques of the SQLi scanner and what a finding of each
    looks like. *)
Inductive kind : Type := ErrorBased | BooleanBlind | TimeBlind | UnionBased.

Definition of_kind (k : kind) (p : string) (f : Finding) : Prop :=
  parameter f = p /\
  severity f = SQLi.severity_of (technique f) /\
  match k with
  | ErrorBased =>
      technique f = "error-based" /\ title f = "SQL Injection (Error-based)"
  | BooleanBlind =>
      technique f = "boolean-blind" /\ title f = "SQL Injection (Boolean-based)"
  | TimeBlind =>
      technique f = "time-blind" /\ title f = "SQL Injection (Time-based)"
  | UnionBased =>
      (exists cols, technique f = SQLi.union_technique cols) /\
      title f = "SQL Injection (UNION-based, columns guess)"
  end.

(** What one probe does to the list of findings: nothing, or one more
    finding and the end of its loop. *)
Definition probe_shape {F} (T : Transport) (Q : F -> Prop) (findings : list F)
    (r : result (ctl * list F)) : Prop :=
  match r with
  | Ok (Continue, fs) => fs = findings
  | Ok (Break, fs) => exists f, fs = findings ++ [f] /\ Q f
  | Raised e => escaped T e
  end.

(** What one loop of probes does to the list of findings. *)
Definition loop_shape {F} (T : Transport) (Q : F -> Prop) (findings : list F)
    (r : result (list F)) : Prop :=
  match r with
  | Ok fs => exists o : option F, fs = findings ++ option_list o /\ (forall f, o = Some f -> Q f)
  | Raised e => escaped T e
  end.

(** Whether a response body shows a database error. *)
Definition shows_db_error (body : string) : bool :=
  match SQLi._looks_like_db_error body with
  | Some err => truthy err
  | None => false
  end.

(** The payload of the UNION probe for a column count (the local
    variable [payload] of the loop). *)
Definition union_payload (cols : nat) : string :=
  "1 UNION SELECT " +:+ SQLi.join "," (replicate cols "NULL") +:+ "-- ".

(** The payloads of the three procedures that follow the error-based one. *)
Definition later_payloads (self : SQLi.SQLiScanner) : list string :=
  flat_map (fun pair => [pair.1; pair.2]) (SQLi.boolean_pairs self) ++
  SQLi.time_payloads self ++
  map union_payload (SQLi.range_1 (SQLi.max_union_cols self)).

(** What one pass of the SQLi scanner's per-parameter loop does to the
    list of findings. *)
Definition scan_param_post (T : Transport) (p : string) (findings : list Finding)
    (r : result (list Finding)) : Prop :=
  match r with
  | Ok fs =>
      exists e b t u : option Finding,
        fs = findings ++ option_list e ++ option_list b ++ option_list t ++ option_list u /\
        (forall f, e = Some f -> of_kind ErrorBased p f) /\
        (forall f, b = Some f -> of_kind BooleanBlind p f) /\
        (forall f, t = Some f -> of_kind TimeBlind p f) /\
        (forall f, u = Some f -> of_kind UnionBased p f)
  | Raised e => escaped T e
  end.

End Logic.
Export Logic.

(* ================================================================= *)
(** ** [core/context.py] *)

Module Context.

(** The attributes of a [ScanContext].  [datetime.utcnow()] is a reading
    of a clock in seconds, passed to the methods that take one; [F] is
    the type of a finding dictionary. *)
Record ScanContext (F : Type) : Type := mkScanContext {
  scan_id : string;
  target_url : string;
  mode : string;                       (* full, quick, custom *)
  start_time : float;
  end_time : option float;
  status : string;                     (* initialized, running, completed, failed *)
  metadata : gmap string string;
  discovered_urls : list string;
  findings : list F;
  config : gmap string string;
}.
Arguments mkScanContext {F}.
Arguments scan_id {F}.
Arguments target_url {F}.
Arguments mode {F}.
Arguments start_time {F}.
Arguments end_time {F}.
Arguments status {F}.
Arguments metadata {F}.
Arguments discovered_urls {F}.
Arguments findings {F}.
Arguments config {F}.

Section methods.
Context {F : Type}.

(** [mode: str = "full"] is the caller's to leave out. *)
Definition __init__ (now : float) (scan_id target_url mode : string) : ScanContext F := {|
  scan_id := scan_id;
  target_url := target_url;
  mode := mode;
  start_time := now;
  end_time := None;
  status := "initialized";
  metadata := ∅;
  discovered_urls := [];
  findings := [];
  config := ∅;
|}.

Definition add_metadata (key value : string) (self : ScanContext F) : ScanContext F :=
  mkScanContext (scan_id self) (target_url self) (mode self) (start_time self)
    (end_time self) (status self) (<[key := value]> (metadata self))
    (discovered_urls self) (findings self) (config self).

Definition add_discovered_url (url : string) (self : ScanContext F) : ScanContext F :=
  if bool_decide (url ∉ discovered_urls self) then
    mkScanContext (scan_id self) (target_url self) (mode self) (start_time self)
      (end_time self) (status self) (metadata self)
      (discovered_urls self ++ [url]) (findings self) (config self)
  else self.

Definition add_finding (finding : F) (self : ScanContext F) : ScanContext F :=
  mkScanContext (scan_id self) (target_url self) (mode self) (start_time self)
    (end_time self) (status self) (metadata self)
    (discovered_urls self) (findings self ++ [finding]) (config self).

Definition set_config (config : gmap string string) (self : ScanContext F) : ScanContext F :=
  mkScanContext (scan_id self) (target_url self) (mode self) (start_time self)
    (end_time self) (status self) (metadata self)
    (discovered_urls self) (findings self) config.

Definition start (now : float) (self : ScanContext F) : ScanContext F :=
  mkScanContext (scan_id self) (target_url self) (mode self) now
    (end_time self) "running" (metadata self)
    (discovered_urls self) (findings self) (config self).

Definition complete (now : float) (self : ScanContext F) : ScanContext F :=
  mkScanContext (scan_id self) (target_url self) (mode self) (start_time self)
    (Some now) "completed" (metadata self)
    (discovered_urls self) (findings self) (config self).

Definition fail (now : float) (self : ScanContext F) : ScanContext F :=
  mkScanContext (scan_id self) (target_url self) (mode self) (start_time self)
    (Some now) "failed" (metadata self)
    (discovered_urls self) (findings self) (config self).

(** [(self.end_time - self.start_time).total_seconds()], or [None] *)
Definition duration (self : ScanContext F) : option float :=
  match end_time self with
  | Some e => Some (e - start_time self)%float
  | None => None
  end.

(** The dictionary [summary] returns ([isoformat] left to the reader of
    the clock). *)
Record Summary : Type := mkSummary {
  sm_scan_id : string;
  sm_target_url : string;
  sm_mode : string;
  sm_status : string;
  sm_start_time : float;
  sm_end_time : option float;
  sm_duration_sec : option float;
  sm_metadata : gmap string string;
  sm_discovered_urls : list string;
  sm_findings_count : nat;
}.

Definition summary (self : ScanContext F) : Summary := {|
  sm_scan_id := scan_id self;
  sm_target_url := target_url self;
  sm_mode := mode self;
  sm_status := status self;
  sm_start_time := start_time self;
  sm_end_time := end_time self;
  sm_duration_sec := duration self;
  sm_metadata := metadata self;
  sm_discovered_urls := discovered_urls self;
  sm_findings_count := length (findings self);
|}.

(** A call of one of the methods that change the context, and a
    session as the sequence of such calls. *)
Inductive call : Type :=
| AddMetadata (key value : string)
| AddDiscoveredUrl (url : string)
| AddFinding (finding : F)
| SetConfig (config : gmap string string)
| Start (now : float)
| Complete (now : float)
| Fail (now : float).

Definition perform (self : ScanContext F) (c : call) : ScanContext F :=
  match c with
  | AddMetadata key value => add_metadata key value self
  | AddDiscoveredUrl url => add_discovered_url url self
  | AddFinding finding => add_finding finding self
  | SetConfig config => set_config config self
  | Start now => start now self
  | Complete now => complete now self
  | Fail now => fail now self
  end.

Definition session (self : ScanContext F) (calls : list call) : ScanContext F :=
  foldl perform self calls.

(** The URLs a session hands to [add_discovered_url], in order. *)
Definition urls_of (calls : list call) : list string :=
  omap (fun c => match c with AddDiscoveredUrl url => Some url | _ => None end) calls.

(** The findings a session hands to [add_finding], in order. *)
Definition findings_of (calls : list call) : list F :=
  omap (fun c => match c with AddFinding f => Some f | _ => None end) calls.

End methods.
Arguments call : clear implicits.

End Context.

(* ================================================================= *)
(** ** [diffing/responses.py]: status and header comparison *)

Module Responses.

(** [str.lower], on texts of code points below 256. *)
Fixpoint str_lower (s : string) : string :=
  match s with
  | EmptyString => EmptyString
  | String c s' => String (Regex.lower c) (str_lower s')
  end.

(** A response dictionary with keys 'status_code', 'headers', 'body';
    [.get] on a missing key gives [None]. *)
Record Response : Type := mkResponse {
  status_code : option Z;
  headers : gmap string string;
  body : option string;
}.

Record ResponseDiff : Type := mkResponseDiff {
  base_response : Response;
  test_response : Response;
}.

Definition compare_status (self : ResponseDiff) : bool :=
  bool_decide (status_code (base_response self) = status_code (test_response self)).

(** [key.lower() in map(str.lower, ignore_headers)] *)
Definition is_ignored (ignore_headers : list string) (key : string) : bool :=
  bool_decide (str_lower key ∈ map str_lower ignore_headers).

(** One pass of the loop body of [compare_headers]. *)
Definition compare_header (self : ResponseDiff) (ignore_headers : list string)
    (diffs : gmap string (option string * option string)) (key : string)
    : gmap string (option string * option string) :=
  if is_ignored ignore_headers key then diffs
  else
    let base_val := headers (base_response self) !! key in
    let test_val := headers (test_response self) !! key in
    if bool_decide (base_val ≠ test_val) then <[key := (base_val, test_val)]> diffs
    else diffs.

(** The result maps a header name to its ["base"] and ["test"] values. *)
Definition compare_headers (self : ResponseDiff) (ignore_headers : option (list string))
    : gmap string (option string * option string) :=
  let ignore_headers := default [] ignore_headers in
  let keys : gset string :=
    dom (headers (base_response self)) ∪ dom (headers (test_response self)) in
  foldl (compare_header self ignore_headers) ∅ (elements keys).

End Responses.

(* ================================================================= *)
(** ** More vocabulary: texts, patterns and logs *)

Module Traces.
Import Regex.

(** [tok] occurs in [s], in any letter case. *)
Definition occurs_ci (tok s : string) : Prop :=
  exists pre a post,
    s = pre +:+ a +:+ post /\ Responses.str_lower a = Responses.str_lower tok.

(** [m] is a piece of [s]. *)
Definition occurs (m s : string) : Prop := exists pre post, s = pre +:+ m +:+ post.

(** The length of the shortest text a pattern can match. *)
Fixpoint minlen (r : regex) : nat :=
  match r with
  | Eps => 0
  | Atom _ => 1
  | Seq r1 r2 => minlen r1 + minlen r2
  | Alt r1 r2 => minlen r1 `min` minlen r2
  | Rep _ lo _ => lo
  end.

(** No line break in [s]. *)
Fixpoint one_line (s : string) : bool :=
  match s with
  | EmptyString => true
  | String c s' => negb (Ascii.eqb c "010"%char) && one_line s'
  end.

(** The findings the SQLi scanner handed to [log_finding], oldest first. *)
Definition logged_findings (log : list LogEntry) : list Finding :=
  omap (fun e => match e with
                 | LogFinding _ _ _ _ (MetaSQLi f) => Some f
                 | _ => None
                 end) log.

(** The requests sent between two states of a run. *)
Definition requests_since (s s' : State) : list Request :=
  drop (length (sent s)) (sent s').

(** A run sent [new] and nothing else. *)
Definition sends (s s' : State) (new : list Request) : Prop :=
  sent s' = sent s ++ new.

(** The worst-case number of requests of one pass of the SQLi scanner's
    per-parameter loop: the baseline and every payload of every loop. *)
Definition requests_per_param (self : SQLi.SQLiScanner) : nat :=
  1 + length (SQLi.error_payloads self) + 2 * length (SQLi.boolean_pairs self)
    + length (SQLi.time_payloads self) + Z.to_nat (SQLi.max_union_cols self).

(** A run sent at most [c] requests, each of them as [P] says. *)
Definition sent_within (P : Request -> Prop) (c : nat) (s s' : State) : Prop :=
  exists new, sent s' = sent s ++ new /\ length new <= c /\ Forall P new.

(** The trace of one probe of a scanner: the requests it sent, what it
    kept of the state ([R]), and the finding it returned, which is the
    finding it logged ([lf] reads the scanner's findings off the log). *)
Definition probe_traced {F} (T : Transport) (lf : list LogEntry -> list F)
    (P : Request -> Prop) (Q : F -> Prop)
    (R : State -> State -> Prop) (c : nat) (s : State) (findings : list F)
    (r : result (ctl * list F)) (s' : State) : Prop :=
  sent_within P c s s' /\ R s s' /\
  match r with
  | Ok (Continue, fs) => fs = findings /\ lf (logger s') = lf (logger s)
  | Ok (Break, fs) =>
      exists f, fs = findings ++ [f] /\ Q f /\ lf (logger s') = lf (logger s) ++ [f]
  | Raised e => escaped T e
  end.

(** The trace of a loop of probes, or of several loops: at most [c]
    requests and at most [n] findings more. *)
Definition traced {F} (T : Transport) (lf : list LogEntry -> list F)
    (P : Request -> Prop) (Q : F -> Prop)
    (R : State -> State -> Prop) (c n : nat) (s : State) (findings : list F)
    (r : result (list F)) (s' : State) : Prop :=
  sent_within P c s s' /\ R s s' /\
  match r with
  | Ok fs =>
      exists new, fs = findings ++ new /\ length new <= n /\ Forall Q new /\
                  lf (logger s') = lf (logger s) ++ new
  | Raised e => escaped T e
  end.

(** The findings the NoSQL scanner handed to [log_finding], oldest first. *)
Definition logged_nosqli_findings (log : list LogEntry) : list NoSQLiFinding :=
  omap (fun e => match e with
                 | LogFinding _ _ _ _ (MetaNoSQLi f) => Some f
                 | _ => None
                 end) log.

(** A probe of the GET scan of [url]: the URL with one of the parameters
    [ps] replaced. *)
Definition param_probe_of `{!Urllib} (url : string) (ps : list string) (r : Request) : Prop :=
  exists p v, p ∈ ps /\ r = get_request (_with_param url p v).

(** A finding of the NoSQL scanner for parameter [p]. *)
Definition nosqli_finding (p : string) (f : NoSQLiFinding) : Prop :=
  ns_parameter f = p /\ ns_severity f = "High" /\ ns_category f = "Injection/NoSQLi".

(** A request of the GET scan of [url]: the URL itself, or the URL with
    one of the parameters [ps] replaced. *)
Definition get_probe_of `{!Urllib} (url : string) (ps : list string) (r : Request) : Prop :=
  r = get_request url \/
  exists p v, p ∈ ps /\ r = get_request (_with_param url p v).

(** A probe of the POST scan of a form: the form with one of the fields
    [ps] overwritten (or added), every other field as it was. *)
Definition post_probe_of (url : string) (form : list (string * string))
    (ps : list string) (r : Request) : Prop :=
  exists p v, p ∈ ps /\ r = post_request url (<[p := v]> (list_to_map form)).

(** A finding of the POST scan of a form, for field [p]. *)
Definition post_finding (url p : string) (f : Finding) : Prop :=
  parameter f = p /\ Evidence.url f = url /\
  severity f = SQLi.severity_of (technique f) /\
  (technique f = "error-based" \/ technique f = "boolean-blind" \/
   technique f = "time-blind").

(** The worst-case number of requests of the POST scan for one field. *)
Definition requests_per_field (self : SQLi.SQLiScanner) : nat :=
  length (SQLi.error_payloads self) + 2 * length (SQLi.boolean_pairs self)
    + length (SQLi.time_payloads self).

End Traces.
Export Traces.

(* ================================================================= *)
(** * Properties *)

(** ** The monad and its loops *)

Section monad_facts.
Context {A B : Type}.

Lemma run_ret (a : A) (s : State) : (mret a : M A) s = (Ok a, s).
Proof. reflexivity. Qed.

Lemma run_bind (m : M A) (f : A -> M B) (s : State) :
  (m ≫= f) s = match m s with
               | (Ok a, s') => f a s'
               | (Raised e, s') => (Raised e, s')
               end.
Proof. reflexivity. Qed.

Lemma wp_ret (a : A) (Φ : result A -> State -> Prop) s :
  Φ (Ok a) s -> wp (mret a) Φ s.
Proof. exact id. Qed.

Lemma wp_bind (m : M A) (f : A -> M B) (Φ : result B -> State -> Prop) s :
  wp m (fun r s' => match r with
                    | Ok a => wp (f a) Φ s'
                    | Raised e => Φ (Raised e) s'
                    end) s ->
  wp (m ≫= f) Φ s.
Proof.
  unfold wp. rewrite run_bind. destruct (m s) as [[a|e] s']; simpl; auto.
Qed.

Lemma wp_mono (m : M A) (Φ Ψ : result A -> State -> Prop) s :
  (forall r s', Φ r s' -> Ψ r s') -> wp m Φ s -> wp m Ψ s.
Proof. unfold wp. auto. Qed.

Lemma wp_try_except (m : M A) (h : exn -> M A) (Φ : result A -> State -> Prop) s :
  wp m (fun r s' => match r with
                    | Ok a => Φ (Ok a) s'
                    | Raised e => if is_Exception e then wp (h e) Φ s'
                                  else Φ (Raised e) s'
                    end) s ->
  wp (try_except m h) Φ s.
Proof.
  unfold wp, try_except. destruct (m s) as [[a|e] s']; simpl; auto.
  destruct (is_Exception e); auto.
Qed.

End monad_facts.

Section loop_facts.
Context {X A : Type}.
Implicit Types (body : X -> A -> M (ctl * A)) (xs : list X).

Lemma for_each_nil body acc s : for_each [] body acc s = (Ok acc, s).
Proof. reflexivity. Qed.

Lemma for_each_cons body x xs acc s :
  for_each (x :: xs) body acc s =
  match body x acc s with
  | (Ok (Break, acc'), s') => (Ok acc', s')
  | (Ok (Continue, acc'), s') => for_each xs body acc' s'
  | (Raised e, s') => (Raised e, s')
  end.
Proof.
  simpl. rewrite run_bind. destruct (body x acc s) as [[[[|] acc']|e] s']; reflexivity.
Qed.

(** The invariant rule for a loop with [break]. *)
Lemma wp_for_each (I : A -> State -> Prop) (Φ : result A -> State -> Prop) body xs :
  (forall x acc s, I acc s ->
     wp (body x acc) (fun r s' => match r with
                                  | Ok (Continue, acc') => I acc' s'
                                  | Ok (Break, acc') => Φ (Ok acc') s'
                                  | Raised e => Φ (Raised e) s'
                                  end) s) ->
  (forall acc s, I acc s -> Φ (Ok acc) s) ->
  forall acc s, I acc s -> wp (for_each xs body acc) Φ s.
Proof.
  intros Hbody Hend. induction xs as [|x xs IH]; intros acc s HI.
  - apply Hend, HI.
  - unfold wp. rewrite for_each_cons.
    specialize (Hbody x acc s HI). unfold wp in Hbody.
    destruct (body x acc s) as [[[[|] acc']|e] s']; simpl in *; auto.
    apply IH, Hbody.
Qed.

End loop_facts.

(** ** The response differ *)

Section differ_facts.

Lemma float_one_not_zero : 1%float <> 0%float.
Proof.
  intros E. assert (H : (1 =? 1)%float = (1 =? 0)%float) by (rewrite <- E; reflexivity).
  vm_compute in H. discriminate.
Qed.

(** C6.  The similarity the scanners fall back on ([cmdi.py], and with the
    same body [hpp.py]) is defined on all pairs of texts, the empty ones
    included; its value is a float between 0 and 1; a text is fully
    similar to itself; 1.0 is returned exactly for identical texts and
    0.0 for all others.  The function has no failing branch. *)
Theorem similarity_contract (a b : string) :
  (0 <=? Fallback.similarity a b)%float = true /\
  (Fallback.similarity a b <=? 1)%float = true /\
  Fallback.similarity a a = 1%float /\
  Fallback.similarity "" "" = 1%float /\
  (Fallback.similarity a b = 1%float <-> a = b) /\
  (Fallback.similarity a b = 0%float <-> a <> b).
Proof.
  unfold Fallback.similarity. rewrite String.eqb_refl.
  split; [|split; [|split; [reflexivity|split; [reflexivity|split]]]].
  - destruct (String.eqb a b); reflexivity.
  - destruct (String.eqb a b); reflexivity.
  - destruct (String.eqb_spec a b) as [E|Hne]; split; intros H;
      first [done | destruct (float_one_not_zero (eq_sym H))].
  - destruct (String.eqb_spec a b) as [E|Hne]; split; intros H;
      first [done | destruct (float_one_not_zero H)].
Qed.

End differ_facts.

(** ** The timing analyzer *)

Section timing_facts.
Import Timing.

Lemma tenth_not_neg_zero : (0.1 : float) <> neg_zero.
Proof.
  intros E. assert (H : (0 <? 0.1)%float = (0 <? neg_zero)%float) by (rewrite <- E; reflexivity).
  vm_compute in H. discriminate.
Qed.

Section any_statistics.
Context `{!Statistics}.

(** What the constructor stores. *)
Lemma init_fields (baseline : list float) (self : TimingAnalyzer) :
  __init__ baseline = Some self ->
  Timing.baseline self = baseline /\
  (baseline = [] -> baseline_mean self = 0%float) /\
  (baseline <> [] -> mean baseline = Some (baseline_mean self)) /\
  (length baseline < 2 -> baseline_std self = 0%float) /\
  (2 <= length baseline -> stdev baseline = Some (baseline_std self)).
Proof.
  unfold __init__. intros Hinit.
  destruct baseline as [|x [|y rest]]; simpl in Hinit.
  - injection Hinit as <-. simpl. split_and!; try done; simpl; lia.
  - destruct (mean [x]) as [m|] eqn:Hm; simpl in Hinit; [|discriminate].
    injection Hinit as <-. simpl. split_and!; try done; simpl; lia.
  - destruct (mean (x :: y :: rest)) as [m|] eqn:Hm; simpl in Hinit; [|discriminate].
    destruct (stdev (x :: y :: rest)) as [sd|] eqn:Hsd; simpl in Hinit; [|discriminate].
    injection Hinit as <-. simpl. split_and!; try done; simpl; lia.
Qed.

(** The analyzer of equal samples. *)
Lemma init_equal (x : float) (n : nat) :
  is_finite x = true -> x <> neg_zero ->
  __init__ (replicate (S n) x) = Some (mkTimingAnalyzer (replicate (S n) x) x 0).
Proof.
  intros Hfin Hnz. unfold __init__.
  change (replicate (S n) x) with (x :: replicate n x) at 1.
  rewrite (mean_equal x n Hfin Hnz). simpl.
  destruct n as [|n]; [reflexivity|].
  change (replicate (S n) x) with (x :: replicate n x) at 1. simpl.
  change (x :: x :: replicate n x) with (replicate (S (S n)) x).
  rewrite (stdev_equal x n Hfin). reflexivity.
Qed.

(** C8, as the counterexample amends it.  The analyzer holds
    [statistics.mean] of its samples (0 when there is none) and, from two
    samples on, their [statistics.stdev] (0 below two).  With no sample at
    all [is_delayed] answers false.  With exactly one sample, and whenever
    the deviation it holds is not positive — as for finite samples that
    are all equal — it applies the flat-second policy
    [|observed − mean| > threshold]; with a positive deviation (which
    needs two samples or more) it applies
    [|observed − mean| > stddev × threshold].  The constructor succeeds
    on no sample and on equal finite samples; for the single sample 0.1
    and threshold 4.5, an observation of 5.0 is delayed and one of 0.3 is
    not. *)
Theorem is_delayed_policy (baseline : list float) (self : TimingAnalyzer)
    (observed threshold : float) :
  __init__ baseline = Some self ->
  (Timing.baseline self = baseline /\
   (baseline = [] -> baseline_mean self = 0%float) /\
   (baseline <> [] -> mean baseline = Some (baseline_mean self)) /\
   (length baseline < 2 -> baseline_std self = 0%float) /\
   (2 <= length baseline -> stdev baseline = Some (baseline_std self))) /\
  (baseline = [] -> is_delayed self observed threshold = false) /\
  (length baseline = 1 ->
     is_delayed self observed threshold =
     spec_flat (baseline_mean self) observed threshold) /\
  (baseline <> [] -> (0 <? baseline_std self)%float = false ->
     is_delayed self observed threshold =
     spec_flat (baseline_mean self) observed threshold) /\
  ((0 <? baseline_std self)%float = true ->
     2 <= length baseline /\
     is_delayed self observed threshold =
     spec_statistical (baseline_mean self) (baseline_std self) observed threshold) /\
  (forall x n, is_finite x = true -> x <> neg_zero -> baseline = replicate (S n) x ->
     is_delayed self observed threshold = spec_flat x observed threshold) /\
  (baseline = [0.1%float] ->
     is_delayed self 5.0 4.5 = true /\ is_delayed self 0.3 4.5 = false) /\
  is_Some (__init__ []) /\
  (forall x n, is_finite x = true -> x <> neg_zero ->
     is_Some (__init__ (replicate (S n) x))).
Proof.
  intros Hinit.
  pose proof (init_fields baseline self Hinit) as Hfields.
  destruct Hfields as (Hb & Hm0 & Hm & Hsd0 & Hsd).
  assert (Hequal : forall x n, is_finite x = true -> x <> neg_zero ->
            baseline = replicate (S n) x ->
            self = mkTimingAnalyzer (replicate (S n) x) x 0).
  { intros x n Hfin Hnz ->. rewrite (init_equal x n Hfin Hnz) in Hinit. congruence. }
  split; [by split_and!|]. split_and!.
  - intros ->. unfold is_delayed. by rewrite Hb.
  - intros Hlen. unfold is_delayed, spec_flat. rewrite Hb, Hsd0 by lia.
    destruct baseline; [discriminate|]. reflexivity.
  - intros Hne Hstd. unfold is_delayed, spec_flat. rewrite Hb, Hstd.
    destruct baseline; [congruence|]. reflexivity.
  - intros Hstd. split.
    + destruct (decide (length baseline < 2)) as [Hlt|Hge]; [|lia].
      rewrite (Hsd0 Hlt) in Hstd. vm_compute in Hstd. discriminate.
    + unfold is_delayed, spec_statistical. rewrite Hb, Hstd.
      destruct baseline as [|x rest]; [|reflexivity].
      rewrite Hsd0 in Hstd by (simpl; lia). vm_compute in Hstd. discriminate.
  - intros x n Hfin Hnz Hrep. rewrite (Hequal x n Hfin Hnz Hrep). reflexivity.
  - intros H01. rewrite (Hequal 0.1%float 0 eq_refl tenth_not_neg_zero H01).
    split; reflexivity.
  - by eexists.
  - intros x n Hfin Hnz. rewrite (init_equal x n Hfin Hnz). by eexists.
Qed.

End any_statistics.

(** C8 as stated fails twice.  With no sample (fewer than two) the answer
    is false although the flat-second policy would flag 5.0 against the
    mean the analyzer holds; with the two samples 0.1 and 0.1 the
    deviation is zero and the flat-second policy is used although the
    statistical one would flag 0.3.  (Of the statistics library only the
    two facts on equal samples are used.) *)
Lemma is_delayed_claim_fails :
  (length (@nil float) < 2 /\
   exists self,
     @__init__ Lab.statistics [] = Some self /\
     is_delayed self 5.0 4.5 = false /\
     spec_flat (baseline_mean self) 5.0 4.5 = true) /\
  (2 <= length [0.1%float; 0.1%float] /\
   exists self,
     @__init__ Lab.statistics [0.1; 0.1]%float = Some self /\
     is_delayed self 0.3 4.5 = false /\
     spec_statistical (baseline_mean self) (baseline_std self) 0.3 4.5 = true).
Proof.
  split.
  - split; [simpl; lia|]. eexists. split; [reflexivity|]. split; reflexivity.
  - split; [simpl; lia|]. exists (mkTimingAnalyzer [0.1; 0.1]%float 0.1 0).
    split; [|split; reflexivity].
    exact (@init_equal Lab.statistics 0.1%float 1 eq_refl tenth_not_neg_zero).
Qed.

(** A concrete use of [is_delayed_policy]: one sample. *)
Lemma is_delayed_policy_witness :
  @__init__ Lab.statistics [0.1%float]
    = Some (mkTimingAnalyzer [0.1%float] 0.1 0) /\
  is_delayed (mkTimingAnalyzer [0.1%float] 0.1 0) 5.0 4.5 = true /\
  is_delayed (mkTimingAnalyzer [0.1%float] 0.1 0) 0.3 4.5 = false.
Proof.
  assert (Hinit : @__init__ Lab.statistics [0.1%float]
                  = Some (mkTimingAnalyzer [0.1%float] 0.1 0)) by reflexivity.
  split; [exact Hinit|].
  destruct (@is_delayed_policy Lab.statistics [0.1%float]
              (mkTimingAnalyzer [0.1%float] 0.1 0) 5.0 4.5 Hinit)
    as (_ & _ & _ & _ & _ & _ & Hex & _).
  exact (Hex eq_refl).
Defined.

End timing_facts.

(** ** How states evolve *)

Section state_facts.

Lemma grows_refl s : grows s s.
Proof. split; [unfold sent_grows | unfold cache_kept]; reflexivity. Qed.

Lemma grows_trans s1 s2 s3 : grows s1 s2 -> grows s2 s3 -> grows s1 s3.
Proof.
  intros [Ha Hb] [Hc Hd]. split.
  - unfold sent_grows in *. etrans; eauto.
  - unfold cache_kept in *. etrans; eauto.
Qed.

Lemma grows_after_request r t s : grows s (after_request r t s).
Proof.
  split; [unfold sent_grows; simpl; apply prefix_app_r | unfold cache_kept; simpl];
    reflexivity.
Qed.

Lemma grows_after_log e s : grows s (after_log e s).
Proof. split; [unfold sent_grows | unfold cache_kept]; reflexivity. Qed.

Lemma probed_refl s : probed s s.
Proof. split; [unfold sent_grows|]; reflexivity. Qed.

Lemma probed_trans s1 s2 s3 : probed s1 s2 -> probed s2 s3 -> probed s1 s3.
Proof.
  intros [Ha Hb] [Hc Hd]. split.
  - unfold sent_grows in *. etrans; eauto.
  - congruence.
Qed.

#[global] Instance probed_preorder : PreOrder probed.
Proof. split; [exact probed_refl | exact probed_trans]. Qed.

#[global] Instance grows_preorder : PreOrder grows.
Proof. split; [exact grows_refl | exact grows_trans]. Qed.

Lemma probed_grows s s' : probed s s' -> grows s s'.
Proof. intros [Ha Hb]. split; [exact Ha|]. unfold cache_kept. rewrite Hb. reflexivity. Qed.

Lemma probed_after_request r t s : probed s (after_request r t s).
Proof. split; [unfold sent_grows; simpl; apply prefix_app_r|]; reflexivity. Qed.

Lemma probed_after_log e s : probed s (after_log e s).
Proof. split; [unfold sent_grows|]; reflexivity. Qed.

Lemma length_sent_after_request r t s :
  length (sent (after_request r t s)) = S (length (sent s)).
Proof. simpl. rewrite length_app. simpl. lia. Qed.

Lemma escaped_polite (T : Transport) e : polite T -> escaped T e -> False.
Proof.
  intros Hp [He (i & r & t & Hnet)]. specialize (Hp i r).
  rewrite Hnet in Hp. simpl in Hp. congruence.
Qed.

End state_facts.

(** ** Texts and the fingerprint tables *)

Section text_facts.

Lemma str_app_nil_l (b : string) : "" +:+ b = b.
Proof. reflexivity. Qed.

Lemma str_app_cons (x : ascii) (a b : string) : String x a +:+ b = String x (a +:+ b).
Proof. reflexivity. Qed.

Lemma str_app_assoc (a b c : string) : (a +:+ b) +:+ c = a +:+ (b +:+ c).
Proof. induction a as [|x a IH]; rewrite ?str_app_cons, ?str_app_nil_l; simpl; [done | by f_equal]. Qed.

Lemma str_app_nil_r (a : string) : a +:+ "" = a.
Proof. induction a as [|x a IH]; rewrite ?str_app_cons, ?str_app_nil_l; simpl; [done | by f_equal]. Qed.

Lemma str_length_app (a b : string) :
  String.length (a +:+ b) = String.length a + String.length b.
Proof. induction a as [|x a IH]; rewrite ?str_app_cons, ?str_app_nil_l; simpl; [done | by f_equal]. Qed.

Lemma substring_whole (a : string) : String.substring 0 (String.length a) a = a.
Proof. induction a as [|x a IH]; rewrite ?str_app_cons, ?str_app_nil_l; simpl; [done | by f_equal]. Qed.

Lemma substring_prefix (a b : string) :
  String.substring 0 (String.length (a +:+ b) - String.length b) (a +:+ b) = a.
Proof.
  rewrite str_length_app.
  replace (String.length a + String.length b - String.length b) with (String.length a) by lia.
  induction a as [|x a IH]; rewrite ?str_app_cons, ?str_app_nil_l; simpl.
  - by destruct b.
  - by rewrite IH.
Qed.

Lemma str_lower_app (a b : string) :
  Responses.str_lower (a +:+ b) = Responses.str_lower a +:+ Responses.str_lower b.
Proof.
  induction a as [|x a IH]; rewrite ?str_app_cons, ?str_app_nil_l; simpl;
    rewrite ?str_app_cons, ?str_app_nil_l; [done | by f_equal].
Qed.

Lemma str_lower_length (a : string) :
  String.length (Responses.str_lower a) = String.length a.
Proof. induction a as [|x a IH]; rewrite ?str_app_cons, ?str_app_nil_l; simpl; [done | by f_equal]. Qed.

Lemma truthy_length (a : string) : 0 < String.length a -> truthy a = true.
Proof. destruct a; simpl; [lia | done]. Qed.

End text_facts.

Section regex_facts.
Import Regex.

(** Whatever a repetition matches, it leaves a suffix of its input to
    the rest of the pattern, after at least [lo] characters in all. *)
Lemma rep_greedy_inv p lo hi k : forall s n rest,
  rep_greedy p lo hi k n s = Some rest ->
  exists m s', s = m +:+ s' /\ k s' = Some rest /\ lo <= n + String.length m.
Proof.
  assert (Hstop : forall s n rest,
    (if (lo <=? n)%nat then k s else None) = Some rest ->
    exists m s', s = m +:+ s' /\ k s' = Some rest /\ lo <= n + String.length m).
  { intros s n rest Hk. destruct (Nat.leb_spec lo n); [|done].
    exists "", s. simpl. split_and!; [done | done | lia]. }
  induction s as [|ch s IH]; intros n rest; simpl; [by apply Hstop|].
  destruct (p ch && under hi n); [|by apply Hstop].
  destruct (rep_greedy p lo hi k (S n) s) as [rest'|] eqn:Hrec; [|by apply Hstop].
  intros [= <-]. destruct (IH _ _ Hrec) as (m & s' & -> & Hk & Hlo).
  exists (String ch m), s'. simpl. split_and!; [done | done | lia].
Qed.

(** A match consumes a prefix of the text of at least [minlen] characters. *)
Lemma rmatch_inv ic r : forall s k rest,
  rmatch ic r s k = Some rest ->
  exists m s', s = m +:+ s' /\ k s' = Some rest /\ minlen r <= String.length m.
Proof.
  induction r as [|c|r1 IH1 r2 IH2|r1 IH1 r2 IH2|c lo hi]; intros s k rest; simpl.
  - intros Hk. exists "", s. simpl. split_and!; [done | done | lia].
  - destruct s as [|ch s]; [done|]. destruct (cmatch ic c ch); [|done].
    intros Hk. exists (String ch ""), s. simpl. split_and!; [done | done | lia].
  - intros Hm. destruct (IH1 _ _ _ Hm) as (m1 & s1 & -> & Hm2 & Hl1).
    destruct (IH2 _ _ _ Hm2) as (m2 & s2 & -> & Hk & Hl2).
    exists (m1 +:+ m2), s2. rewrite str_app_assoc, str_length_app.
    split_and!; [done | done | lia].
  - destruct (rmatch ic r1 s k) as [rest1|] eqn:Hm1.
    + intros [= <-]. destruct (IH1 _ _ _ Hm1) as (m & s' & -> & Hk & Hl).
      exists m, s'. split_and!; [done | done | lia].
    + intros Hm2. destruct (IH2 _ _ _ Hm2) as (m & s' & -> & Hk & Hl).
      exists m, s'. split_and!; [done | done | lia].
  - intros Hm. destruct (rep_greedy_inv _ _ _ _ _ _ _ Hm) as (m & s' & -> & Hk & Hl).
    exists m, s'. split_and!; [done | done | lia].
Qed.

(** [search] returns a piece of the text, at least [minlen] long. *)
Lemma search_here ic r s rest :
  rmatch ic r s Some = Some rest ->
  let m := String.substring 0 (String.length s - String.length rest) s in
  occurs m s /\ minlen r <= String.length m.
Proof.
  intros Hm. destruct (rmatch_inv _ _ _ _ _ Hm) as (m0 & s' & -> & [= ->] & Hl).
  cbv zeta. rewrite substring_prefix. split; [by exists "", rest | done].
Qed.

Lemma search_inv ic r : forall s m,
  search ic r s = Some m -> occurs m s /\ minlen r <= String.length m.
Proof.
  induction s as [|ch s IH]; intros m; simpl.
  - destruct (rmatch ic r "" Some) as [rest|] eqn:Hm; [|done].
    intros [= <-]. by apply (search_here _ _ _ _ Hm).
  - destruct (rmatch ic r (String ch s) Some) as [rest|] eqn:Hm.
    + intros [= <-]. by apply (search_here _ _ _ _ Hm).
    + intros Hs. destruct (IH _ Hs) as [(pre & post & ->) Hl].
      split; [by exists (String ch pre), post | done].
Qed.

(** A pattern that matches at the start of some suffix is found. *)
Lemma search_finds ic r (pre s : string) :
  is_Some (rmatch ic r s Some) -> is_Some (search ic r (pre +:+ s)).
Proof.
  intros Hm. induction pre as [|ch pre IH]; simpl.
  - destruct s as [|c s]; simpl; destruct Hm as [rest ->]; eauto.
  - destruct (rmatch ic r (String ch (pre +:+ s)) Some); eauto.
Qed.

(** And only then. *)
Lemma search_found ic r : forall s,
  is_Some (search ic r s) ->
  exists pre s', s = pre +:+ s' /\ is_Some (rmatch ic r s' Some).
Proof.
  induction s as [|ch s IH]; simpl.
  - destruct (rmatch ic r "" Some) eqn:Hm; [|by intros [? [=]]].
    intros _. exists "", "". rewrite Hm. eauto.
  - destruct (rmatch ic r (String ch s) Some) eqn:Hm.
    + intros _. exists "", (String ch s). rewrite Hm. eauto.
    + intros Hs. destruct (IH Hs) as (pre & s' & -> & Hm').
      by exists (String ch pre), s'.
Qed.

(** A literal matches exactly the texts equal to it up to letter case. *)
Lemma rmatch_lit (L : string) : forall a rest k,
  Responses.str_lower a = Responses.str_lower L ->
  rmatch true (lit L) (a +:+ rest) k = k rest.
Proof.
  induction L as [|c L IH]; intros a rest k Ha.
  - destruct a; [done | discriminate].
  - destruct a as [|x a]; [discriminate|]. simpl in Ha. injection Ha as Hx Ha.
    assert (Hc : cmatch true (Lit c) x = true).
    { simpl. rewrite Hx. apply Ascii.eqb_refl. }
    destruct L as [|c' L].
    + destruct a; [|discriminate]. simpl. simpl in Hc. by rewrite Hc.
    + change (lit (String c (String c' L))) with (Seq (Atom (Lit c)) (lit (String c' L))).
      simpl rmatch at 1. simpl in Hc. rewrite Hc. by apply IH.
Qed.

Lemma rmatch_lit_inv (L : string) : forall s k rest,
  rmatch true (lit L) s k = Some rest ->
  exists a s', s = a +:+ s' /\ Responses.str_lower a = Responses.str_lower L /\
               k s' = Some rest.
Proof.
  induction L as [|c L IH]; intros s k rest.
  - simpl. intros Hk. by exists "", s.
  - assert (Hatom : forall s k rest,
      rmatch true (Atom (Lit c)) s k = Some rest ->
      exists x s', s = String x s' /\ lower x = lower c /\ k s' = Some rest).
    { intros s0 k0 rest0. simpl. destruct s0 as [|x s0]; [done|].
      destruct (Ascii.eqb_spec (lower c) (lower x)) as [Heq|]; [|done].
      intros Hk. by exists x, s0. }
    destruct L as [|c' L].
    + intros Hm. destruct (Hatom _ _ _ Hm) as (x & s' & -> & Hx & Hk).
      exists (String x ""), s'. simpl. by rewrite Hx.
    + change (lit (String c (String c' L))) with (Seq (Atom (Lit c)) (lit (String c' L))).
      simpl rmatch at 1. intros Hm.
      destruct (Hatom _ _ _ Hm) as (x & s' & -> & Hx & Hk).
      destruct (IH _ _ _ Hk) as (a & s'' & -> & Ha & Hk').
      exists (String x a), s''. simpl. simpl in Ha. by rewrite Hx, Ha.
Qed.

(** A greedy [.*] or [.+] gets past any text without a line break to a
    place where the rest of the pattern matches. *)
Lemma rep_greedy_dot ic lo k : forall mid n rest,
  one_line mid = true -> lo <= n + String.length mid -> is_Some (k rest) ->
  is_Some (rep_greedy (cmatch ic Dot) lo None k n (mid +:+ rest)).
Proof.
  induction mid as [|c mid IH]; intros n rest Hline Hlo Hk.
  - simpl in Hlo. assert (Hn : (lo <=? n)%nat = true) by (apply Nat.leb_le; lia).
    destruct rest as [|ch rest']; simpl; rewrite Hn; [done|].
    destruct (negb _ && true); [|done].
    by destruct (rep_greedy _ _ _ _ _ _).
  - simpl in Hline, Hlo. apply andb_true_iff in Hline as [Hc Hline].
    simpl. rewrite Hc. simpl.
    destruct (IH (S n) rest Hline ltac:(lia) Hk) as [x ->]. done.
Qed.

(** One alternative that matches is enough for the alternation. *)
Lemma rmatch_alts ic (rs : list regex) r s :
  r ∈ rs -> is_Some (rmatch ic r s Some) -> is_Some (rmatch ic (alts rs) s Some).
Proof.
  induction rs as [|r1 rs IH]; intros Hin Hm; [by apply elem_of_nil in Hin|].
  destruct rs as [|r2 rs].
  - apply list_elem_of_singleton in Hin as ->. done.
  - change (alts (r1 :: r2 :: rs)) with (Alt r1 (alts (r2 :: rs))). simpl rmatch at 1.
    destruct (rmatch ic r1 s Some) eqn:H1; [done|].
    apply elem_of_cons in Hin as [->|Hin]; [by rewrite H1 in Hm; destruct Hm|].
    by apply IH.
Qed.

Lemma rmatch_alts_inv ic (rs : list regex) s :
  rs <> [] -> is_Some (rmatch ic (alts rs) s Some) ->
  exists r, r ∈ rs /\ is_Some (rmatch ic r s Some).
Proof.
  induction rs as [|r1 rs IH]; intros Hne Hm; [done|].
  destruct rs as [|r2 rs].
  - exists r1. split; [by left | done].
  - change (alts (r1 :: r2 :: rs)) with (Alt r1 (alts (r2 :: rs))) in Hm.
    simpl rmatch at 1 in Hm.
    destruct (rmatch ic r1 s Some) eqn:H1.
    + exists r1. split; [by left | by rewrite H1].
    + destruct (IH ltac:(done) Hm) as (r & Hin & Hr).
      exists r. split; [by right | done].
Qed.

End regex_facts.

(** ** What the fingerprint tables detect *)

Section fingerprint_facts.
Import Regex.

Lemma minlen_db_errors : minlen SQLi.DB_ERROR_RE = 9.
Proof. reflexivity. Qed.

(** X1.  The evidence of an error-based finding: whenever
    [_looks_like_db_error] returns a match, the match is a piece of the
    body, it is at least nine characters long (the shortest signature is
    [ORA-] and five digits), and so it is never the empty (falsy) string:
    the test [if err] drops no match of the table. *)
Theorem db_error_evidence (body err : string) :
  SQLi._looks_like_db_error body = Some err ->
  occurs err body /\ 9 <= String.length err /\ truthy err = true.
Proof.
  intros Hs. apply search_inv in Hs as [Hocc Hlen].
  rewrite minlen_db_errors in Hlen.
  split_and!; [done | done | apply truthy_length; lia].
Qed.

Lemma db_error_evidence_witness :
  SQLi._looks_like_db_error "ORA-00933: SQL command not properly ended" = Some "ORA-00933" /\
  (occurs "ORA-00933" "ORA-00933: SQL command not properly ended" /\
   9 <= String.length "ORA-00933" /\ truthy "ORA-00933" = true).
Proof.
  split; [reflexivity|].
  apply (db_error_evidence "ORA-00933: SQL command not properly ended" "ORA-00933").
  reflexivity.
Defined.

Lemma detected_shows (pre s : string) (r : regex) :
  r ∈ SQLi.DB_ERRORS -> is_Some (rmatch true r s Some) ->
  shows_db_error (pre +:+ s) = true.
Proof.
  intros Hin Hm. unfold shows_db_error.
  destruct (search_finds true SQLi.DB_ERROR_RE pre s) as [err Herr].
  { by apply rmatch_alts with r. }
  unfold SQLi._looks_like_db_error. rewrite Herr.
  change (search true SQLi.DB_ERROR_RE (pre +:+ s)) with
    (SQLi._looks_like_db_error (pre +:+ s)) in Herr.
  by apply search_inv in Herr as [_ Hlen]; apply truthy_length;
    rewrite minlen_db_errors in Hlen; lia.
Qed.

(** X2.  Matching is case-insensitive and unanchored: a body that
    contains, anywhere and in any letter case, one of the fixed phrases of
    [DB_ERRORS] shows a database error. *)
Theorem db_error_phrase_detected (L body : string) :
  lit L ∈ SQLi.DB_ERRORS -> occurs_ci L body -> shows_db_error body = true.
Proof.
  intros Hin (pre & a & post & -> & Ha).
  apply detected_shows with (lit L); [done|].
  rewrite (rmatch_lit L a post Some Ha). eauto.
Qed.

Lemma db_error_phrase_detected_witness :
  shows_db_error "<b>Fatal</b>: PSQL: ERROR: relation does not exist" = true.
Proof.
  apply (db_error_phrase_detected "psql: error").
  - unfold SQLi.DB_ERRORS. set_solver.
  - exists "<b>Fatal</b>: ", "PSQL: ERROR", ": relation does not exist".
    split; reflexivity.
Defined.

(** X3.  The wildcard signatures ([SQL syntax.*MySQL],
    [Unknown column '.*' in 'field list'], [SQL Server.*Driver]): a body
    that contains the first phrase and, later on the same line, the
    second one, in any letter case, shows a database error. *)
Theorem db_error_wildcard_detected (A B pre a mid b post : string) :
  seqs [lit A; star Dot; lit B] ∈ SQLi.DB_ERRORS ->
  Responses.str_lower a = Responses.str_lower A ->
  Responses.str_lower b = Responses.str_lower B ->
  one_line mid = true ->
  shows_db_error (pre +:+ a +:+ mid +:+ b +:+ post) = true.
Proof.
  intros Hin Ha Hb Hline.
  apply detected_shows with (seqs [lit A; star Dot; lit B]); [done|].
  change (seqs [lit A; star Dot; lit B]) with (Seq (lit A) (Seq (star Dot) (lit B))).
  simpl rmatch at 1. rewrite (rmatch_lit A a _ _ Ha).
  simpl rmatch at 1. apply rep_greedy_dot; [done | lia |].
  rewrite (rmatch_lit B b post Some Hb). eauto.
Qed.

Lemma db_error_wildcard_detected_witness :
  shows_db_error "You have an error in your sql SYNTAX; check the manual of your mysql server" = true.
Proof.
  apply (db_error_wildcard_detected "SQL syntax" "MySQL"
           "You have an error in your " "sql SYNTAX" "; check the manual of your "
           "mysql" " server").
  - unfold SQLi.DB_ERRORS. set_solver.
  - reflexivity.
  - reflexivity.
  - reflexivity.
Defined.

(** The operator tokens of [MONGO_HINTS] are found exactly in the bodies
    that contain one of them, in any letter case. *)
Lemma mongo_hint_found (body : string) :
  is_Some (search true NoSQLi.MONGO_HINTS_RE body) <->
  exists L, lit L ∈ NoSQLi.MONGO_HINTS /\ occurs_ci L body.
Proof.
  split.
  - intros Hs. apply search_found in Hs as (pre & s' & -> & Hm).
    apply rmatch_alts_inv in Hm as (r & Hin & Hr); [|done].
    assert (exists L, r = lit L) as [L ->].
    { unfold NoSQLi.MONGO_HINTS in Hin.
      repeat (apply elem_of_cons in Hin as [->|Hin]; [eauto|]).
      by apply elem_of_nil in Hin. }
    destruct Hr as [rest Hr].
    apply rmatch_lit_inv in Hr as (a & s'' & -> & Ha & [= ->]).
    exists L. split; [done|]. by exists pre, a, rest.
  - intros (L & Hin & pre & a & post & -> & Ha).
    apply search_finds. apply rmatch_alts with (lit L); [done|].
    rewrite (rmatch_lit L a post Some Ha). eauto.
Qed.

End fingerprint_facts.

Create HintDb scan.
#[local] Hint Resolve grows_refl grows_after_request grows_after_log
  probed_refl probed_after_request probed_after_log probed_grows : scan.

(** A loop of probes: at most one finding more, of the probes' kind. *)
Section probe_loops.
Context {F X : Type} (T : Transport) (Q : F -> Prop).
Context (R : State -> State -> Prop) `{!PreOrder R}.
Context (body : X -> list F -> M (ctl * list F)).
Hypothesis body_shape : forall x findings s,
  wp (body x findings) (fun r s' => probe_shape T Q findings r /\ R s s') s.

Lemma loop_of_probes (xs : list X) : forall findings s,
  wp (for_each xs body findings) (fun r s' => loop_shape T Q findings r /\ R s s') s.
Proof.
  induction xs as [|x xs IH]; intros findings s.
  - unfold wp. rewrite for_each_nil. simpl. split; [|reflexivity].
    exists None. split; [symmetry; apply app_nil_r | discriminate].
  - unfold wp. rewrite for_each_cons.
    specialize (body_shape x findings s). unfold wp in body_shape.
    destruct (body x findings s) as [[[[|] fs]|e] s1]; simpl in *;
      destruct body_shape as [Hshape HR].
    + subst fs. specialize (IH findings s1). unfold wp in IH.
      destruct IH as [IH1 IH2]. split; [exact IH1 | etrans; eauto].
    + destruct Hshape as (f & -> & HQ). split; [|exact HR].
      exists (Some f). split; [reflexivity|]. intros ? [= <-]. exact HQ.
    + split; assumption.
Qed.

End probe_loops.

(** ** The SQLi scanner *)

Section sqli_facts.
Context `{!Transport, !Urllib, !Encode, !ResponseDiffer, !Format}.
Import SQLi.

Lemma session_request_run (r : Request) (s : State) :
  session_request r s =
  match net (length (sent s)) r with
  | Respond st body hdrs t => (Ok (st, body, hdrs), after_request r t s)
  | Fail e t => (Raised e, after_request r t s)
  end.
Proof. unfold session_request. destruct (net _ _); reflexivity. Qed.

(** [_fetch] on a GET, outcome by outcome. *)
Lemma fetch_get (url : string) (s : State) :
  _fetch url GET None s =
  match net (length (sent s)) (get_request url) with
  | Respond st body hdrs t => (Ok (st, body, hdrs), after_request (get_request url) t s)
  | Fail e t =>
      if is_Exception e then
        (Ok (0%Z, "", []),
         after_log (LogError "SQLiScanner._fetch" (url +:+ ": " +:+ str_exn e))
           (after_request (get_request url) t s))
      else (Raised e, after_request (get_request url) t s)
  end.
Proof.
  unfold _fetch, try_except. rewrite session_request_run.
  destruct (net _ _) as [st body hdrs t|e t]; [reflexivity|].
  destruct (is_Exception e); reflexivity.
Qed.

Lemma report_run title url p technique evidence bs st bl nl tm s :
  exists f,
    _report title url p technique evidence bs st bl nl tm s =
      (Ok f, after_log (LogFinding "SQL Injection" url (technique +:+ ": " +:+ evidence)
                          (severity_of technique) (MetaSQLi f)) s) /\
    f = mkFinding title "Injection/SQLi" url p technique evidence bs st bl nl tm
          (severity_of technique) recommendation_text.
Proof. eexists. split; reflexivity. Qed.

(** What [_fetch] comes to, in the vocabulary of [seen]. *)
Lemma fetch_get_wp (url : string) (s : State) :
  let o := net (length (sent s)) (get_request url) in
  wp (_fetch url GET None)
    (fun r s' =>
       probed s s' /\
       sent s' = sent s ++ [get_request url] /\
       clock s' = (clock s + took o)%float /\
       match r with
       | Ok (st, body, _) => catchable o = true /\ (st, body) = seen o
       | Raised e => catchable o = false /\ escaped _ e
       end) s.
Proof.
  intros o. unfold wp. rewrite fetch_get. subst o.
  destruct (net _ _) as [st body hdrs t|e t] eqn:Hnet; simpl.
  - split_and!; auto with scan.
  - destruct (is_Exception e) eqn:He; simpl.
    + split_and!; auto.
      eapply probed_trans; [apply probed_after_request | apply probed_after_log].
    + split_and!; auto with scan. split; eauto.
Qed.

(** *** The four probes, one at a time *)

Lemma error_probe_wp url p bs bl inj findings s :
  wp (error_probe url p bs bl inj findings)
    (fun r s' => probe_shape _ (of_kind ErrorBased p) findings r /\ probed s s') s.
Proof.
  unfold error_probe. apply wp_bind.
  eapply wp_mono; [|apply fetch_get_wp].
  intros [[[st body] hdrs]|e] s1 (Hp & _ & _ & Hr); simpl; [|destruct Hr; auto].
  destruct (st =? 0)%Z; [unfold wp; simpl; auto|].
  destruct (_looks_like_db_error body) as [err|]; [|unfold wp; simpl; auto].
  destruct (truthy err); [|unfold wp; simpl; auto].
  apply wp_bind. unfold wp at 1.
  destruct (report_run "SQL Injection (Error-based)"
              (_with_param url p (url_safe inj)) p "error-based" err bs (One st) bl
              (One (String.length body)) None s1) as (f & -> & Hf).
  simpl. unfold wp; simpl. split.
  - exists f. split; [reflexivity|]. subst f. repeat split.
  - etrans; [exact Hp | apply probed_after_log].
Qed.

Lemma boolean_probe_wp url p bs bl snippet pair findings s :
  wp (boolean_probe url p bs bl snippet pair findings)
    (fun r s' => probe_shape _ (of_kind BooleanBlind p) findings r /\ probed s s') s.
Proof.
  unfold boolean_probe. destruct pair as [t f_val]. apply wp_bind.
  eapply wp_mono; [|apply fetch_get_wp].
  intros [[[st_t body_t] hdrs_t]|e] s1 (Hp1 & _ & _ & Hr1); simpl; [|destruct Hr1; auto].
  apply wp_bind. eapply wp_mono; [|apply fetch_get_wp].
  intros [[[st_f body_f] hdrs_f]|e] s2 (Hp2 & _ & _ & Hr2); simpl;
    [|destruct Hr2; split; [auto | etrans; eauto]].
  assert (Hp : probed s s2) by (etrans; eauto).
  destruct ((st_t =? 0)%Z || (st_f =? 0)%Z); [unfold wp; simpl; auto|].
  match goal with |- wp (if ?c then _ else _) _ _ => destruct c end;
    [|unfold wp; simpl; auto].
  apply wp_bind. unfold wp at 1.
  match goal with |- context [_report ?a ?b ?c ?d ?e ?f ?g ?h ?i ?j s2] =>
    destruct (report_run a b c d e f g h i j s2) as (f0 & -> & Hf) end.
  simpl. unfold wp; simpl. split.
  - exists f0. split; [reflexivity|]. subst f0. repeat split.
  - etrans; [exact Hp | apply probed_after_log].
Qed.

Lemma time_probe_wp url p bs bl inj findings s :
  wp (time_probe url p bs bl inj findings)
    (fun r s' => probe_shape _ (of_kind TimeBlind p) findings r /\ probed s s') s.
Proof.
  unfold time_probe. apply wp_bind. unfold wp at 1. simpl.
  apply wp_bind. eapply wp_mono; [|apply fetch_get_wp].
  intros [[[st body] hdrs]|e] s1 (Hp & _ & _ & Hr); simpl; [|destruct Hr; auto].
  apply wp_bind. unfold wp at 1. simpl.
  destruct (st =? 0)%Z; [unfold wp; simpl; auto|].
  match goal with |- wp (if ?c then _ else _) _ _ => destruct c end;
    [|unfold wp; simpl; auto].
  apply wp_bind. unfold wp at 1.
  match goal with |- context [_report ?a ?b ?c ?d ?e ?f ?g ?h ?i ?j s1] =>
    destruct (report_run a b c d e f g h i j s1) as (f0 & -> & Hf) end.
  simpl. unfold wp; simpl. split.
  - exists f0. split; [reflexivity|]. subst f0. repeat split.
  - etrans; [exact Hp | apply probed_after_log].
Qed.

Lemma union_probe_wp url p bs bl snippet cols findings s :
  wp (union_probe url p bs bl snippet cols findings)
    (fun r s' => probe_shape _ (of_kind UnionBased p) findings r /\ probed s s') s.
Proof.
  unfold union_probe. apply wp_bind.
  eapply wp_mono; [|apply fetch_get_wp].
  intros [[[st body] hdrs]|e] s1 (Hp & _ & _ & Hr); simpl; [|destruct Hr; auto].
  destruct (st =? 0)%Z; [unfold wp; simpl; auto|].
  match goal with |- wp (if ?c then _ else _) _ _ => destruct c end;
    [|unfold wp; simpl; auto].
  apply wp_bind. unfold wp at 1.
  match goal with |- context [_report ?a ?b ?c ?d ?e ?f ?g ?h ?i ?j s1] =>
    destruct (report_run a b c d e f g h i j s1) as (f0 & -> & Hf) end.
  simpl. unfold wp; simpl. split.
  - exists f0. split; [reflexivity|]. subst f0. repeat split. exists cols. reflexivity.
  - etrans; [exact Hp | apply probed_after_log].
Qed.

(** *** The baseline cache *)

Lemma baseline_wp url param s :
  wp (_baseline url param)
    (fun r s' =>
       match _baselines s !! param with
       | Some cached => r = Ok cached /\ s' = s
       | None =>
           let o := net (length (sent s)) (get_request url) in
           sent s' = sent s ++ [get_request url] /\
           match r with
           | Ok b =>
               catchable o = true /\
               b = ((seen o).1, String.length (seen o).2, slice_to 4000 (seen o).2) /\
               _baselines s' = <[param := b]> (_baselines s)
           | Raised e =>
               catchable o = false /\ escaped _ e /\ _baselines s' = _baselines s
           end
       end) s.
Proof.
  unfold _baseline. apply wp_bind. unfold wp at 1. simpl.
  destruct (_baselines s !! param) as [cached|] eqn:Hc.
  - unfold wp; simpl. auto.
  - apply wp_bind. eapply wp_mono; [|apply fetch_get_wp].
    intros [[[st body] hdrs]|e] s1 ([_ Hb] & Hsent & _ & Hr); simpl.
    + destruct Hr as [Hcatch Hseen]. unfold wp; simpl.
      rewrite <- Hseen. simpl. rewrite Hb. auto.
    + destruct Hr. auto.
Qed.

Lemma baseline_grows url param s :
  wp (_baseline url param) (fun _ s' => grows s s') s.
Proof.
  eapply wp_mono; [|apply baseline_wp]. intros r s'. simpl.
  destruct (_baselines s !! param) as [cached|] eqn:Hc.
  - intros [_ ->]. reflexivity.
  - intros [Hsent Hr]. split.
    + unfold sent_grows. rewrite Hsent. apply prefix_app_r. reflexivity.
    + unfold cache_kept. destruct r as [b|e].
      * destruct Hr as (_ & _ & ->). apply insert_subseteq. exact Hc.
      * destruct Hr as (_ & _ & ->). reflexivity.
Qed.

(** *** One parameter *)

Lemma scan_param_wp self url p findings s :
  wp (scan_param self url p findings)
    (fun r s' => scan_param_post _ p findings r /\ grows s s') s.
Proof.
  unfold scan_param. apply wp_bind.
  pose proof (baseline_wp url p s) as Hbase.
  pose proof (baseline_grows url p s) as Hgrow.
  unfold wp in Hbase, Hgrow |- * at 1.
  destruct (_baseline url p s) as [[[[bs bl] snippet]|e0] s0]; simpl in *.
  2: { destruct (_baselines s !! p); [destruct Hbase; discriminate|].
       destruct Hbase as (_ & _ & He & _). auto. }
  clear Hbase.
  apply wp_bind. eapply wp_mono;
    [|apply (loop_of_probes _ (of_kind ErrorBased p) probed), error_probe_wp].
  intros [fs1|e] s1 [HL1 Hp1]; simpl; [|split; [exact HL1 | etrans; eauto with scan]].
  destruct HL1 as (oe & -> & Hoe).
  apply wp_bind. eapply wp_mono;
    [|apply (loop_of_probes _ (of_kind BooleanBlind p) probed), boolean_probe_wp].
  intros [fs2|e] s2 [HL2 Hp2]; simpl;
    [|split; [exact HL2 | etrans; [exact Hgrow|]; apply probed_grows; etrans; eauto]].
  destruct HL2 as (ob & -> & Hob).
  apply wp_bind. eapply wp_mono;
    [|apply (loop_of_probes _ (of_kind TimeBlind p) probed), time_probe_wp].
  intros [fs3|e] s3 [HL3 Hp3]; simpl;
    [|split; [exact HL3 | etrans; [exact Hgrow|]; apply probed_grows;
                         etrans; [exact Hp1|]; etrans; eauto]].
  destruct HL3 as (ot & -> & Hot).
  apply wp_bind. eapply wp_mono;
    [|apply (loop_of_probes _ (of_kind UnionBased p) probed), union_probe_wp].
  intros [fs4|e] s4 [HL4 Hp4]; simpl;
    [|split; [exact HL4 | etrans; [exact Hgrow|]; apply probed_grows;
                         etrans; [exact Hp1|]; etrans; [exact Hp2|]; etrans; eauto]].
  destruct HL4 as (ou & -> & Hou).
  unfold wp; simpl. split.
  - exists oe, ob, ot, ou. rewrite <- !app_assoc. auto.
  - etrans; [exact Hgrow|]. apply probed_grows.
    etrans; [exact Hp1|]. etrans; [exact Hp2|]. etrans; eauto.
Qed.

(** C2, as the counterexample amends it.  One pass of the per-parameter
    loop of [scan_get_params] appends at most one finding per technique —
    error-based, boolean-blind, time-blind, union-based, in this order —
    each for the parameter being scanned, hence at most four findings for
    it.  The pass returns normally unless the transport raises an error
    that [except Exception] does not catch. *)
Theorem scan_param_findings (self : SQLiScanner) (url p : string)
    (findings : list Finding) (s : State) :
  match scan_param self url p findings s with
  | (Ok fs, _) =>
      (exists e b t u : option Finding,
         fs = findings ++ option_list e ++ option_list b ++ option_list t ++ option_list u /\
         (forall f, e = Some f -> of_kind ErrorBased p f) /\
         (forall f, b = Some f -> of_kind BooleanBlind p f) /\
         (forall f, t = Some f -> of_kind TimeBlind p f) /\
         (forall f, u = Some f -> of_kind UnionBased p f)) /\
      length fs <= length findings + 4
  | (Raised e, _) => escaped _ e
  end.
Proof.
  pose proof (scan_param_wp self url p findings s) as H5. unfold wp in H5.
  destruct (scan_param self url p findings s) as [[fs|e] s']; simpl in H5;
    destruct H5 as [Hpost _]; [|exact Hpost].
  split; [exact Hpost|].
  destruct Hpost as (oe & ob & ot & ou & -> & _).
  rewrite !length_app.
  destruct oe, ob, ot, ou; simpl; lia.
Qed.

(** *** The whole scan *)

Lemma scan_get_params_wp self url params s :
  wp (scan_get_params self url params)
    (fun r s' =>
       grows s s' /\
       match r with
       | Ok fs => Forall (fun f => exists k p, p ∈ params /\ of_kind k p f) fs
       | Raised e => escaped _ e
       end) s.
Proof.
  unfold scan_get_params.
  assert (Hgen : forall ps acc s0,
    Forall (fun f => exists k p, p ∈ params /\ of_kind k p f) acc ->
    (forall p, p ∈ ps -> p ∈ params) ->
    wp (for_each ps
          (fun p findings =>
             findings ← scan_param self url p findings; mret (Continue, findings)) acc)
       (fun r s' =>
          grows s0 s' /\
          match r with
          | Ok fs => Forall (fun f => exists k p, p ∈ params /\ of_kind k p f) fs
          | Raised e => escaped _ e
          end) s0).
  { induction ps as [|p ps IH]; intros acc s0 Hacc Hsub.
    - unfold wp. rewrite for_each_nil. simpl. split; [reflexivity | exact Hacc].
    - unfold wp. rewrite for_each_cons, run_bind.
      pose proof (scan_param_wp self url p acc s0) as Hp. unfold wp in Hp.
      destruct (scan_param self url p acc s0) as [[fs|e] s1]; simpl in *;
        destruct Hp as [Hpost Hg]; [|auto].
      destruct Hpost as (oe & ob & ot & ou & -> & Hoe & Hob & Hot & Hou).
      assert (Hin : p ∈ params) by (apply Hsub; left).
      specialize (IH (acc ++ option_list oe ++ option_list ob ++ option_list ot ++
                        option_list ou) s1).
      unfold wp in IH. destruct IH as [IHg IHr].
      + repeat (apply Forall_app; split); auto.
        * destruct oe as [f|]; simpl; constructor; [|constructor].
          exists ErrorBased, p. auto.
        * destruct ob as [f|]; simpl; constructor; [|constructor].
          exists BooleanBlind, p. auto.
        * destruct ot as [f|]; simpl; constructor; [|constructor].
          exists TimeBlind, p. auto.
        * destruct ou as [f|]; simpl; constructor; [|constructor].
          exists UnionBased, p. auto.
      + intros q Hq. apply Hsub. right. exact Hq.
      + split; [etrans; eauto | exact IHr]. }
  apply Hgen; [constructor | auto].
Qed.

(** *** Severity *)

Lemma severity_of_union (cols : nat) : severity_of (union_technique cols) = "Medium".
Proof. reflexivity. Qed.

Lemma severity_of_high (technique : string) :
  severity_of technique = "High" <->
  technique = "time-blind" \/ technique = "union-based" \/ technique = "error-based".
Proof.
  unfold severity_of. simpl.
  destruct (String.eqb_spec technique "time-blind") as [->|N1]; simpl; [tauto|].
  destruct (String.eqb_spec technique "union-based") as [->|N2]; simpl; [tauto|].
  destruct (String.eqb_spec technique "error-based") as [->|N3]; simpl; [tauto|].
  split; [discriminate | intros [?|[?|?]]; congruence].
Qed.

(** C10.  A finding of the UNION probe carries the technique
    ["union-based (cols~N)"] with the guessed column count [N]; the
    severity test of [_report] compares the technique with the three
    literals ["time-blind"], ["union-based"] and ["error-based"], so only
    these three yield "High" and every UNION finding of a scan is rated
    "Medium". *)
Theorem union_findings_are_medium (self : SQLiScanner) (url : string)
    (params : list string) (s : State) :
  (forall cols, severity_of (union_technique cols) = "Medium") /\
  (forall technique,
     severity_of technique = "High" <->
     technique = "time-blind" \/ technique = "union-based" \/ technique = "error-based") /\
  match scan_get_params self url params s with
  | (Ok fs, _) =>
      forall f, f ∈ fs ->
        severity f = severity_of (technique f) /\
        (title f = "SQL Injection (UNION-based, columns guess)" ->
           (exists cols, technique f = union_technique cols) /\ severity f = "Medium")
  | (Raised e, _) => escaped _ e
  end.
Proof.
  split; [exact severity_of_union|]. split; [exact severity_of_high|].
  pose proof (scan_get_params_wp self url params s) as Hscan. unfold wp in Hscan.
  destruct (scan_get_params self url params s) as [[fs|e] s']; simpl in Hscan;
    destruct Hscan as [_ Hfs]; [|exact Hfs].
  intros f Hf. rewrite Forall_forall in Hfs.
  destruct (Hfs f Hf) as (k & p & _ & _ & Hsev & Hk).
  split; [exact Hsev|]. intros Htitle.
  destruct k; destruct Hk as [Htech Ht]; rewrite Ht in Htitle; try discriminate.
  split; [exact Htech|]. destruct Htech as [cols Hc]. rewrite Hsev, Hc. reflexivity.
Qed.

(** *** The error-signature procedure *)

(** One error probe, computed from the transport's outcome. *)
Lemma error_probe_run url p bs bl inj findings s :
  let test_url := _with_param url p (url_safe inj) in
  let o := net (length (sent s)) (get_request test_url) in
  catchable o = true ->
  exists s1,
    sent s1 = sent s ++ [get_request test_url] /\
    _baselines s1 = _baselines s /\
    error_probe url p bs bl inj findings s =
      if ((seen o).1 =? 0)%Z then (Ok (Continue, findings), s1)
      else
        match _looks_like_db_error (seen o).2 with
        | Some err =>
            if truthy err then
              let f := mkFinding "SQL Injection (Error-based)" "Injection/SQLi" test_url p
                         "error-based" err bs (One (seen o).1) bl
                         (One (String.length (seen o).2)) None "High" recommendation_text in
              (Ok (Break, findings ++ [f]),
               after_log (LogFinding "SQL Injection" test_url ("error-based: " +:+ err)
                            "High" (MetaSQLi f)) s1)
            else (Ok (Continue, findings), s1)
        | None => (Ok (Continue, findings), s1)
        end.
Proof.
  intros test_url o Hcatch. subst o. unfold error_probe. fold test_url.
  rewrite run_bind, fetch_get.
  destruct (net (length (sent s)) (get_request test_url)) as [st body hdrs t|e t];
    simpl in *.
  - exists (after_request (get_request test_url) t s).
    split; [reflexivity|]. split; [reflexivity|].
    destruct (st =? 0)%Z; [reflexivity|].
    destruct (_looks_like_db_error body) as [err|]; [|reflexivity].
    destruct (truthy err); reflexivity.
  - rewrite Hcatch. simpl.
    exists (after_log (LogError "SQLiScanner._fetch" (test_url +:+ ": " +:+ str_exn e))
              (after_request (get_request test_url) t s)).
    split; [reflexivity|]. split; reflexivity.
Qed.

(** The payloads are tried in order; the first response that is not the
    failure sentinel and shows a database error ends the loop with one
    finding, and the payloads after it are not sent. *)
Lemma error_loop_first_match url p bs bl (pre : list string) x post findings :
  forall s,
  let req y := get_request (_with_param url p (url_safe y)) in
  (forall i y, pre !! i = Some y ->
     let o := net (length (sent s) + i) (get_request (_with_param url p (url_safe y))) in
     catchable o = true /\
     ((seen o).1 = 0%Z \/ shows_db_error (seen o).2 = false)) ->
  let o := net (length (sent s) + length pre) (req x) in
  catchable o = true -> (seen o).1 <> 0%Z -> shows_db_error (seen o).2 = true ->
  exists f s',
    for_each (pre ++ x :: post) (error_probe url p bs bl) findings s =
      (Ok (findings ++ [f]), s') /\
    sent s' = sent s ++ map req (pre ++ [x]) /\
    _baselines s' = _baselines s /\
    Evidence.url f = _with_param url p (url_safe x) /\
    _looks_like_db_error (seen o).2 = Some (evidence f) /\
    technique f = "error-based" /\ severity f = "High" /\ parameter f = p /\
    status f = One (seen o).1 /\ baseline_status f = bs /\ baseline_len f = bl.
Proof.
  induction pre as [|y pre IH]; intros s req Hpre o Hcatch Hst Herr;
    subst o req; cbn beta in *.
  - rewrite app_nil_l, for_each_cons. simpl in *.
    rewrite Nat.add_0_r in Hcatch, Hst, Herr |- *.
    destruct (error_probe_run url p bs bl x findings s Hcatch) as (s1 & Hs1 & Hb1 & ->).
    apply Z.eqb_neq in Hst. rewrite Hst.
    unfold shows_db_error in Herr.
    destruct (_looks_like_db_error _) as [err|]; [|discriminate].
    rewrite Herr. eexists _, _. split; [reflexivity|]. simpl.
    split_and!; auto.
  - rewrite <- app_comm_cons, for_each_cons.
    destruct (Hpre 0 y eq_refl) as [Hc0 Hno]. rewrite Nat.add_0_r in Hc0, Hno.
    destruct (error_probe_run url p bs bl y findings s Hc0) as (s1 & Hs1 & Hb1 & ->).
    assert (Hlen : length (sent s1) = S (length (sent s)))
      by (rewrite Hs1, length_app; simpl; lia).
    assert (Hskip :
      (if ((seen (net (length (sent s)) (get_request (_with_param url p (url_safe y))))).1 =? 0)%Z
       then (Ok (Continue, findings), s1)
       else match _looks_like_db_error (seen (net (length (sent s)) (get_request (_with_param url p (url_safe y))))).2 with
            | Some err =>
                if truthy err then
                  let f := mkFinding "SQL Injection (Error-based)" "Injection/SQLi"
                             (_with_param url p (url_safe y)) p "error-based" err bs
                             (One (seen (net (length (sent s)) (get_request (_with_param url p (url_safe y))))).1) bl
                             (One (String.length (seen (net (length (sent s)) (get_request (_with_param url p (url_safe y))))).2))
                             None "High" recommendation_text in
                  (Ok (Break, findings ++ [f]),
                   after_log (LogFinding "SQL Injection" (_with_param url p (url_safe y))
                                ("error-based: " +:+ err) "High" (MetaSQLi f)) s1)
                else (Ok (Continue, findings), s1)
            | None => (Ok (Continue, findings), s1)
            end) = (Ok (Continue, findings), s1)).
    { destruct Hno as [->|Hno]; [reflexivity|].
      destruct (_ =? 0)%Z; [reflexivity|]. unfold shows_db_error in Hno.
      destruct (_looks_like_db_error _) as [err|]; [|reflexivity].
      rewrite Hno. reflexivity. }
    rewrite Hskip. clear Hskip.
    destruct (IH s1) as (f & s' & Hrun & Hsent & Hb & Hrest).
    + intros i z Hz. specialize (Hpre (S i) z Hz). simpl in Hpre.
      rewrite Hlen. replace (S (length (sent s)) + i) with (length (sent s) + S i) by lia.
      exact Hpre.
    + rewrite Hlen. replace (S (length (sent s)) + length pre)
        with (length (sent s) + length (y :: pre)) by (simpl; lia). exact Hcatch.
    + rewrite Hlen. replace (S (length (sent s)) + length pre)
        with (length (sent s) + length (y :: pre)) by (simpl; lia). exact Hst.
    + rewrite Hlen. replace (S (length (sent s)) + length pre)
        with (length (sent s) + length (y :: pre)) by (simpl; lia). exact Herr.
    + exists f, s'. split; [exact Hrun|]. split.
      { rewrite Hsent, Hs1. rewrite <- app_assoc. reflexivity. }
      split; [congruence|].
      rewrite Hlen in Hrest.
      replace (S (length (sent s)) + length pre)
        with (length (sent s) + length (y :: pre)) in Hrest by (simpl; lia).
      exact Hrest.
Qed.

Lemma probed_of_sent s s1 r :
  sent s1 = sent s ++ [r] -> _baselines s1 = _baselines s -> probed s s1.
Proof.
  intros Hs Hb. split; [|exact Hb]. unfold sent_grows. rewrite Hs.
  apply prefix_app_r. reflexivity.
Qed.

(** If some payload of the list always draws a database error, the loop
    ends with exactly one error-based finding. *)
Lemma error_loop_finds url p bs bl inj (xs : list string) :
  polite _ -> inj ∈ xs ->
  (forall i,
     let o := net i (get_request (_with_param url p (url_safe inj))) in
     (seen o).1 <> 0%Z /\ shows_db_error (seen o).2 = true) ->
  forall findings s,
  exists f s',
    for_each xs (error_probe url p bs bl) findings s = (Ok (findings ++ [f]), s') /\
    of_kind ErrorBased p f /\ baseline_status f = bs /\ baseline_len f = bl /\
    probed s s'.
Proof.
  intros Hpolite Hin Hinj. induction xs as [|y xs IH]; intros findings s.
  { inversion Hin. }
  rewrite for_each_cons.
  destruct (error_probe_run url p bs bl y findings s (Hpolite _ _))
    as (s1 & Hs1 & Hb1 & ->).
  pose proof (probed_of_sent _ _ _ Hs1 Hb1) as Hp1.
  set (o := net (length (sent s)) (get_request (_with_param url p (url_safe y)))).
  assert (Hnext : inj <> y ->
    exists f s',
      for_each xs (error_probe url p bs bl) findings s1 = (Ok (findings ++ [f]), s') /\
      of_kind ErrorBased p f /\ baseline_status f = bs /\ baseline_len f = bl /\
      probed s s').
  { intros Hne. apply elem_of_cons in Hin as [Heq|Hin]; [congruence|].
    destruct (IH Hin findings s1) as (f & s' & Hrun & Hk & Hbs & Hbl & Hp).
    exists f, s'. split_and!; auto. etrans; eauto. }
  destruct (decide (inj = y)) as [<-|Hne].
  - pose proof (Hinj (length (sent s))) as Hi. cbn zeta in Hi. fold o in Hi.
    destruct Hi as [Hst Herr].
    apply Z.eqb_neq in Hst. rewrite Hst. unfold shows_db_error in Herr.
    destruct (_looks_like_db_error (seen o).2) as [err|]; [|discriminate].
    rewrite Herr. eexists _, _. split; [reflexivity|]. simpl.
    split; [repeat split|]. split; [reflexivity|]. split; [reflexivity|].
    etrans; [exact Hp1 | apply probed_after_log].
  - destruct ((seen o).1 =? 0)%Z; [apply Hnext, Hne|].
    destruct (_looks_like_db_error (seen o).2) as [err|]; [|apply Hnext, Hne].
    destruct (truthy err) eqn:Herr; [|apply Hnext, Hne].
    eexists _, _. split; [reflexivity|]. simpl.
    split; [repeat split|]. split; [reflexivity|]. split; [reflexivity|].
    etrans; [exact Hp1 | apply probed_after_log].
Qed.

Lemma other_kinds_differ k p f :
  k <> ErrorBased -> of_kind k p f -> technique f <> "error-based" /\ parameter f = p.
Proof.
  intros Hk (Hp & _ & Hkind). split; [|exact Hp].
  destruct k; try congruence; destruct Hkind as [Ht _].
  - rewrite Ht. discriminate.
  - rewrite Ht. discriminate.
  - destruct Ht as [cols ->]. discriminate.
Qed.

(** The scenario of the design document: the unmodified request shows
    "Welcome", one error payload draws a MySQL error. *)
Lemma error_scenario self url p inj hdrs hdrs' t t' s :
  polite _ -> inj ∈ error_payloads self -> _baselines s !! p = None ->
  (forall i, net i (get_request url) = Respond 200 "Welcome" hdrs t) ->
  (forall i, net i (get_request (_with_param url p (url_safe inj))) =
             Respond 200 "Error: SQL syntax ... MySQL" hdrs' t') ->
  exists f rest s',
    scan_get_params self url [p] s = (Ok (f :: rest), s') /\
    technique f = "error-based" /\ severity f = "High" /\ parameter f = p /\
    baseline_status f = 200%Z /\ baseline_len f = 7 /\
    Forall (fun g => technique g <> "error-based" /\ parameter g = p) rest /\
    length rest <= 3.
Proof.
  intros Hpolite Hin Hmiss Hbase Hinj.
  unfold scan_get_params. rewrite for_each_cons, run_bind.
  unfold scan_param. rewrite run_bind.
  pose proof (baseline_wp url p s) as Hb. unfold wp in Hb.
  rewrite Hmiss, Hbase in Hb. simpl in Hb.
  destruct (_baseline url p s) as [[[[bs bl] snippet]|e0] s0]; simpl in Hb;
    [|destruct Hb as (_ & ? & _); discriminate].
  destruct Hb as (_ & _ & Hbv & _). injection Hbv as -> -> ->. simpl.
  rewrite run_bind.
  destruct (error_loop_finds url p 200 7 inj (error_payloads self) Hpolite Hin) with
    (findings := @nil Finding) (s := s0) as (f & s1 & -> & Hk & Hbs & Hbl & _).
  { intros i. rewrite Hinj. simpl. split; [discriminate | reflexivity]. }
  simpl. rewrite run_bind.
  pose proof (loop_of_probes _ (of_kind BooleanBlind p) probed _
                (boolean_probe_wp url p 200 7 (slice_to 4000 "Welcome"))
                (boolean_pairs self) [f] s1) as HL2.
  unfold wp in HL2. simpl in HL2.
  destruct (for_each (boolean_pairs self) _ [f] s1) as [[fs2|e] s2]; simpl in HL2;
    destruct HL2 as [HL2 _]; [|destruct (escaped_polite _ _ Hpolite HL2)].
  destruct HL2 as (ob & -> & Hob). rewrite run_bind.
  pose proof (loop_of_probes _ (of_kind TimeBlind p) probed _
                (time_probe_wp url p 200 7)
                (time_payloads self) ([f] ++ option_list ob) s2) as HL3.
  unfold wp in HL3. simpl in HL3.
  destruct (for_each (time_payloads self) _ _ s2) as [[fs3|e] s3]; simpl in HL3;
    destruct HL3 as [HL3 _]; [|destruct (escaped_polite _ _ Hpolite HL3)].
  destruct HL3 as (ot & -> & Hot). rewrite run_bind.
  pose proof (loop_of_probes _ (of_kind UnionBased p) probed _
                (union_probe_wp url p 200 7 (slice_to 4000 "Welcome"))
                (range_1 (max_union_cols self))
                (([f] ++ option_list ob) ++ option_list ot) s3) as HL4.
  unfold wp in HL4. simpl in HL4.
  destruct (for_each (range_1 (max_union_cols self)) _ _ s3) as [[fs4|e] s4];
    simpl in HL4; destruct HL4 as [HL4 _]; [|destruct (escaped_polite _ _ Hpolite HL4)].
  destruct HL4 as (ou & -> & Hou).
  simpl. exists f, (option_list ob ++ option_list ot ++ option_list ou), s4.
  split; [rewrite <- !app_assoc; reflexivity|].
  destruct Hk as (Hp & Hsev & Htech & _).
  split; [exact Htech|]. split; [rewrite Hsev, Htech; reflexivity|].
  split; [exact Hp|]. split; [exact Hbs|]. split; [exact Hbl|]. split.
  - repeat (apply Forall_app; split).
    + destruct ob as [g|]; simpl; constructor; [|constructor].
      apply (other_kinds_differ BooleanBlind); [discriminate | auto].
    + destruct ot as [g|]; simpl; constructor; [|constructor].
      apply (other_kinds_differ TimeBlind); [discriminate | auto].
    + destruct ou as [g|]; simpl; constructor; [|constructor].
      apply (other_kinds_differ UnionBased); [discriminate | auto].
  - rewrite !length_app. destruct ob, ot, ou; simpl; lia.
Qed.

(** *** Transport failures *)

Lemma fetch_run (u : string) (method : http_method) (data : option (gmap string string))
    (s : State) :
  let r := match method with GET => get_request u | POST => mkRequest POST u data end in
  _fetch u method data s =
  match net (length (sent s)) r with
  | Respond st body hdrs t => (Ok (st, body, hdrs), after_request r t s)
  | Fail e t =>
      if is_Exception e then
        (Ok (0%Z, "", []),
         after_log (LogError "SQLiScanner._fetch" (u +:+ ": " +:+ str_exn e))
           (after_request r t s))
      else (Raised e, after_request r t s)
  end.
Proof.
  unfold _fetch, try_except. destruct method; rewrite session_request_run;
    (destruct (net _ _) as [st body hdrs t|e t]; [reflexivity|]);
    destruct (is_Exception e); reflexivity.
Qed.

(** What a caught outcome leaves behind. *)
Lemma fetch_get_caught (u : string) (s : State) :
  let o := net (length (sent s)) (get_request u) in
  catchable o = true ->
  exists hdrs s',
    _fetch u GET None s = (Ok ((seen o).1, (seen o).2, hdrs), s') /\
    sent s' = sent s ++ [get_request u] /\ clock s' = (clock s + took o)%float /\
    _baselines s' = _baselines s.
Proof.
  intros o Hc. subst o. rewrite fetch_get.
  destruct (net _ _) as [st body hdrs t|e t]; simpl in *.
  - eexists _, _. split; [reflexivity|]. split_and!; reflexivity.
  - rewrite Hc. eexists _, _. split; [reflexivity|]. split_and!; reflexivity.
Qed.

(** C7.  When the HTTP call of a probe raises an ordinary exception (a
    timeout, a refused connection, a DNS failure), [_fetch] returns the
    sentinel [(0, "", {})] and raises nothing; with a transport that
    fails in such ways only, a scan always returns its findings.  Each of
    the four procedures treats a result with status 0 as no result: the
    probe adds no finding and its loop goes on with the next payload, from
    the state the probe left. *)
Theorem sentinel_is_skipped (url p : string) (bs : Z) (bl : nat) (snippet : string)
    (findings : list Finding) (s : State) :
  let req y := get_request (_with_param url p (url_safe y)) in
  (forall u method data e t,
     net (length (sent s))
       (match method with GET => get_request u | POST => mkRequest POST u data end)
       = Fail e t ->
     is_Exception e = true ->
     exists s', _fetch u method data s = (Ok (0%Z, "", []), s') /\ probed s s') /\
  (forall e t, is_Exception e = true ->
     catchable (Fail e t) = true /\ (seen (Fail e t)).1 = 0%Z) /\
  (forall msg,
     is_Exception TimeoutError = true /\
     is_Exception (ClientConnectorError msg) = true /\
     is_Exception (ClientConnectorDNSError msg) = true) /\
  (forall self params,
     polite _ -> exists fs s', scan_get_params self url params s = (Ok fs, s')) /\
  (forall inj rest,
     let o := net (length (sent s)) (req inj) in
     catchable o = true -> (seen o).1 = 0%Z ->
     exists s',
       error_probe url p bs bl inj findings s = (Ok (Continue, findings), s') /\
       for_each (inj :: rest) (error_probe url p bs bl) findings s =
       for_each rest (error_probe url p bs bl) findings s') /\
  (forall t f_val rest,
     let o_t := net (length (sent s)) (req t) in
     let o_f := net (S (length (sent s))) (req f_val) in
     catchable o_t = true -> catchable o_f = true ->
     (seen o_t).1 = 0%Z \/ (seen o_f).1 = 0%Z ->
     exists s',
       boolean_probe url p bs bl snippet (t, f_val) findings s =
         (Ok (Continue, findings), s') /\
       for_each ((t, f_val) :: rest) (boolean_probe url p bs bl snippet) findings s =
       for_each rest (boolean_probe url p bs bl snippet) findings s') /\
  (forall inj rest,
     let o := net (length (sent s)) (req inj) in
     catchable o = true -> (seen o).1 = 0%Z ->
     exists s',
       time_probe url p bs bl inj findings s = (Ok (Continue, findings), s') /\
       for_each (inj :: rest) (time_probe url p bs bl) findings s =
       for_each rest (time_probe url p bs bl) findings s') /\
  (forall cols rest,
     let o := net (length (sent s))
                (req ("1 UNION SELECT " +:+ join "," (replicate cols "NULL") +:+ "-- ")) in
     catchable o = true -> (seen o).1 = 0%Z ->
     exists s',
       union_probe url p bs bl snippet cols findings s = (Ok (Continue, findings), s') /\
       for_each (cols :: rest) (union_probe url p bs bl snippet) findings s =
       for_each rest (union_probe url p bs bl snippet) findings s').
Proof.
  intros req. subst req. cbn beta. split_and!.
  - intros u method data e t Hnet He. rewrite fetch_run. cbn zeta. rewrite Hnet, He.
    eexists. split; [reflexivity|].
    etrans; [apply probed_after_request | apply probed_after_log].
  - intros e t He. simpl. auto.
  - intros msg. split_and!; reflexivity.
  - intros self params Hpolite.
    pose proof (scan_get_params_wp self url params s) as Hscan. unfold wp in Hscan.
    destruct (scan_get_params self url params s) as [[fs|e] s']; simpl in Hscan.
    + exists fs, s'. reflexivity.
    + destruct Hscan as [_ Hesc]. destruct (escaped_polite _ _ Hpolite Hesc).
  - intros inj rest o Hc Hzero. subst o.
    destruct (error_probe_run url p bs bl inj findings s Hc) as (s1 & _ & _ & Hrun).
    rewrite Hzero in Hrun. simpl in Hrun. exists s1. split; [exact Hrun|].
    rewrite for_each_cons, Hrun. reflexivity.
  - intros t f_val rest o_t o_f Hct Hcf Hzero. subst o_t o_f.
    destruct (fetch_get_caught (_with_param url p (url_safe t)) s Hct)
      as (h1 & s1 & Hf1 & Hs1 & _ & _).
    assert (Hlen : length (sent s1) = S (length (sent s)))
      by (rewrite Hs1, length_app; simpl; lia).
    rewrite <- Hlen in Hcf, Hzero.
    destruct (fetch_get_caught (_with_param url p (url_safe f_val)) s1 Hcf)
      as (h2 & s2 & Hf2 & _ & _ & _).
    assert (Hrun : boolean_probe url p bs bl snippet (t, f_val) findings s =
                   (Ok (Continue, findings), s2)).
    { unfold boolean_probe. rewrite run_bind, Hf1. simpl. rewrite run_bind, Hf2. simpl.
      destruct Hzero as [-> | ->]; simpl; [reflexivity|].
      rewrite orb_true_r. reflexivity. }
    exists s2. split; [exact Hrun|]. rewrite for_each_cons, Hrun. reflexivity.
  - intros inj rest o Hc Hzero. subst o.
    destruct (fetch_get_caught (_with_param url p (url_safe inj)) s Hc)
      as (h1 & s1 & Hf1 & _ & _ & _).
    assert (Hrun : time_probe url p bs bl inj findings s = (Ok (Continue, findings), s1)).
    { unfold time_probe. rewrite run_bind. unfold perf_counter at 1. simpl.
      rewrite run_bind, Hf1. simpl. rewrite Hzero. reflexivity. }
    exists s1. split; [exact Hrun|]. rewrite for_each_cons, Hrun. reflexivity.
  - intros cols rest o Hc Hzero. subst o.
    match type of Hc with catchable (net _ (get_request ?u)) = _ =>
      destruct (fetch_get_caught u s Hc) as (h1 & s1 & Hf1 & _ & _ & _) end.
    assert (Hrun : union_probe url p bs bl snippet cols findings s =
                   (Ok (Continue, findings), s1)).
    { unfold union_probe. rewrite run_bind, Hf1. simpl. rewrite Hzero. reflexivity. }
    exists s1. split; [exact Hrun|]. rewrite for_each_cons, Hrun. reflexivity.
Qed.

(** *** The baseline cache, as the scan uses it *)

Lemma length_slice_to (n : nat) (body : string) : String.length (slice_to n body) <= n.
Proof.
  unfold slice_to. revert body. induction n as [|n IH]; intros body.
  - destruct body; simpl; lia.
  - destruct body as [|c body]; simpl; [lia|]. specialize (IH body). lia.
Qed.

Lemma scan_param_caches self url p findings s :
  wp (scan_param self url p findings)
    (fun r s' => match r with
                 | Ok _ => is_Some (_baselines s' !! p)
                 | Raised _ => True
                 end) s.
Proof.
  unfold scan_param. apply wp_bind.
  pose proof (baseline_wp url p s) as Hbase. unfold wp in Hbase |- * at 1.
  destruct (_baseline url p s) as [[[[bs bl] snippet]|e0] s0]; simpl in *; [|exact I].
  assert (Hc : is_Some (_baselines s0 !! p)).
  { destruct (_baselines s !! p) as [cached|] eqn:Hc.
    - destruct Hbase as [_ ->]. rewrite Hc. eauto.
    - destruct Hbase as (_ & _ & _ & ->). rewrite lookup_insert_eq. eauto. }
  clear Hbase.
  apply wp_bind. eapply wp_mono;
    [|apply (loop_of_probes _ (of_kind ErrorBased p) probed), error_probe_wp].
  intros [fs1|e] s1 [_ [_ Hb1]]; simpl; [|exact I].
  apply wp_bind. eapply wp_mono;
    [|apply (loop_of_probes _ (of_kind BooleanBlind p) probed), boolean_probe_wp].
  intros [fs2|e] s2 [_ [_ Hb2]]; simpl; [|exact I].
  apply wp_bind. eapply wp_mono;
    [|apply (loop_of_probes _ (of_kind TimeBlind p) probed), time_probe_wp].
  intros [fs3|e] s3 [_ [_ Hb3]]; simpl; [|exact I].
  apply wp_bind. eapply wp_mono;
    [|apply (loop_of_probes _ (of_kind UnionBased p) probed), union_probe_wp].
  intros [fs4|e] s4 [_ [_ Hb4]]; simpl; [|exact I].
  unfold wp; simpl. rewrite Hb4, Hb3, Hb2, Hb1. exact Hc.
Qed.

Lemma baseline_halves (url param : string) (s : State) :
  _baseline url param s =
  (c ← cached_baseline param;
   match c with
   | Some cached => mret cached
   | None => fetch_baseline url param
   end) s.
Proof.
  unfold _baseline, cached_baseline, fetch_baseline. rewrite !run_bind. simpl.
  by destruct (_baselines s !! param).
Qed.

Lemma cached_baseline_run (param : string) (s : State) :
  cached_baseline param s = (Ok (_baselines s !! param), s).
Proof. reflexivity. Qed.

Lemma fetch_baseline_run (url param : string) (s : State) :
  let o := net (length (sent s)) (get_request url) in
  let b := ((seen o).1, String.length (seen o).2, slice_to 4000 (seen o).2) in
  catchable o = true ->
  exists s',
    fetch_baseline url param s = (Ok b, s') /\
    sent s' = sent s ++ [get_request url] /\
    _baselines s' = <[param := b]> (_baselines s).
Proof.
  intros o b Hc. unfold fetch_baseline. rewrite run_bind.
  destruct (fetch_get_caught url s Hc) as (hdrs & s1 & -> & Hsent & _ & Hb).
  fold o. cbn beta iota. eexists. split; [reflexivity|]. simpl.
  by rewrite Hsent, Hb.
Qed.

(** C3, as the counterexample amends it.  The cache of a scanner is keyed
    by the parameter name alone.  Among calls that do not overlap (one
    [_baseline] call returns before the next is entered, as within
    [scan_get_params]): the first call for a parameter name sends the
    unmodified request to the URL it is given and stores the status, the
    body length and the first 4000 characters of the body (the failure
    sentinel if the request fails); every later call for that name,
    whatever its URL, returns the stored snapshot and sends nothing; a
    stored snapshot is never replaced during a scan, the probes of a
    parameter leave the cache alone, and a completed pass over a
    parameter leaves its snapshot in the cache.  [_baseline] is its cache
    test followed, on a miss, by the fetch and the store; when a second
    call for the same name is entered while the first awaits its
    response, both miss, both send their request, and the second store
    replaces the first. *)
Theorem baseline_cache_by_parameter (self : SQLiScanner) (url param : string) (s : State) :
  (forall cached, _baselines s !! param = Some cached ->
     _baseline url param s = (Ok cached, s)) /\
  (_baselines s !! param = None ->
     let o := net (length (sent s)) (get_request url) in
     let b := ((seen o).1, String.length (seen o).2, slice_to 4000 (seen o).2) in
     catchable o = true ->
     exists s',
       _baseline url param s = (Ok b, s') /\
       sent s' = sent s ++ [get_request url] /\
       _baselines s' = <[param := b]> (_baselines s) /\
       String.length b.2 <= 4000) /\
  (forall url' params,
     wp (scan_get_params self url' params)
       (fun _ s' => forall q b, _baselines s !! q = Some b -> _baselines s' !! q = Some b) s) /\
  (forall url' findings,
     wp (scan_param self url' param findings)
       (fun r s' => match r with
                    | Ok _ => is_Some (_baselines s' !! param)
                    | Raised _ => True
                    end) s) /\
  (forall s0,
     _baseline url param s0 =
     (c ← cached_baseline param;
      match c with
      | Some cached => mret cached
      | None => fetch_baseline url param
      end) s0) /\
  (forall url2,
     _baselines s !! param = None ->
     let o1 := net (length (sent s)) (get_request url) in
     let o2 := net (S (length (sent s))) (get_request url2) in
     let b1 := ((seen o1).1, String.length (seen o1).2, slice_to 4000 (seen o1).2) in
     let b2 := ((seen o2).1, String.length (seen o2).2, slice_to 4000 (seen o2).2) in
     catchable o1 = true -> catchable o2 = true ->
     exists s',
       overlapping_baselines url url2 param s = (Ok (b1, b2), s') /\
       sent s' = sent s ++ [get_request url; get_request url2] /\
       _baselines s' = <[param := b2]> (_baselines s)).
Proof.
  pose proof (baseline_wp url param s) as Hbase. unfold wp in Hbase.
  split_and!.
  - intros cached Hc. rewrite Hc in Hbase. destruct Hbase as [Hr Hs].
    destruct (_baseline url param s) as [r s']. simpl in *. congruence.
  - intros Hmiss o b Hcatch. rewrite Hmiss in Hbase. cbn zeta in Hbase.
    fold o in Hbase. destruct (_baseline url param s) as [[b'|e] s']; simpl in *.
    + destruct Hbase as (Hsent & _ & -> & Hcache). exists s'.
      split_and!; auto. apply length_slice_to.
    + destruct Hbase as (_ & Hc & _). congruence.
  - intros url' params. eapply wp_mono; [|apply scan_get_params_wp].
    intros r s' [[_ Hkept] _] q b Hq. unfold cache_kept in Hkept.
    eapply lookup_weaken; eauto.
  - intros url' findings. apply scan_param_caches.
  - intros s0. apply baseline_halves.
  - intros url2 Hmiss o1 o2 b1 b2 Hc1 Hc2.
    unfold overlapping_baselines.
    rewrite run_bind, cached_baseline_run. cbn beta iota.
    rewrite run_bind, cached_baseline_run. cbn beta iota.
    rewrite Hmiss. rewrite run_bind.
    destruct (fetch_baseline_run url param s Hc1) as (s1 & -> & Hsent1 & Hb1).
    fold o1 b1. cbn beta iota. rewrite run_bind.
    assert (Hc2' : catchable (net (length (sent s1)) (get_request url2)) = true).
    { rewrite Hsent1, length_app. simpl. by rewrite Nat.add_1_r. }
    destruct (fetch_baseline_run url2 param s1 Hc2') as (s2 & Hrun2 & Hsent2 & Hb2).
    assert (Hidx : length (sent s1) = S (length (sent s)))
      by (rewrite Hsent1, length_app; simpl; lia).
    rewrite Hidx in Hrun2, Hb2. fold o2 b2 in Hrun2, Hb2. rewrite Hrun2.
    exists s2. split_and!; [done | |].
    + by rewrite Hsent2, Hsent1, <- app_assoc.
    + by rewrite Hb2, Hb1, insert_insert_eq.
Qed.

(** *** The boolean-pair rule of the SQLi scanner *)

Lemma sqli_boolean_matched url p bs bl snippet t f_val (findings : list Finding) s :
  let req y := get_request (_with_param url p (url_safe y)) in
  let o_t := net (length (sent s)) (req t) in
  let o_f := net (S (length (sent s))) (req f_val) in
  let sim_tf := similarity (seen o_t).2 (seen o_f).2 in
  let sim_tb := similarity (seen o_t).2 snippet in
  let sim_fb := similarity (seen o_f).2 snippet in
  matched (boolean_probe url p bs bl snippet (t, f_val) findings s) =
    catchable o_t && catchable o_f &&
    negb ((seen o_t).1 =? 0)%Z && negb ((seen o_f).1 =? 0)%Z &&
    ((sim_tf <? 0.60)%float && ((0.85 <? sim_tb)%float || (0.85 <? sim_fb)%float)).
Proof.
  intros req o_t o_f sim_tf sim_tb sim_fb.
  subst req o_t o_f sim_tf sim_tb sim_fb. cbn beta.
  unfold matched, boolean_probe. rewrite run_bind, fetch_get.
  destruct (net (length (sent s)) _) as [st_t body_t h_t tk_t|e_t tk_t]; simpl.
  - rewrite run_bind, fetch_get. rewrite length_sent_after_request.
    destruct (net (S (length (sent s))) _) as [st_f body_f h_f tk_f|e_f tk_f]; simpl.
    + destruct (st_t =? 0)%Z; simpl; [reflexivity|].
      destruct (st_f =? 0)%Z; simpl; [reflexivity|].
      match goal with |- context [if ?c then _ else _] => destruct c end; reflexivity.
    + destruct (is_Exception e_f); simpl; [|reflexivity].
      rewrite orb_true_r, !andb_false_r. reflexivity.
  - destruct (is_Exception e_t); simpl; [|reflexivity].
    rewrite run_bind, fetch_get. simpl. rewrite length_app. simpl.
    rewrite Nat.add_1_r.
    destruct (net (S (length (sent s))) _) as [st_f body_f h_f tk_f|e_f tk_f]; simpl;
      [|destruct (is_Exception e_f); simpl];
      rewrite ?andb_false_r; reflexivity.
Qed.

(** *** The time-based procedure runs in every pass *)

Lemma time_loop_sends url p bs bl inj rest findings s :
  wp (for_each (inj :: rest) (time_probe url p bs bl) findings)
    (fun r s' => sent_grows s s' /\
                 get_request (_with_param url p (url_safe inj)) ∈ sent s') s.
Proof.
  unfold wp. rewrite for_each_cons.
  assert (Hfirst : wp (time_probe url p bs bl inj findings)
    (fun r s1 => (sent s ++ [get_request (_with_param url p (url_safe inj))])
                   `prefix_of` sent s1) s).
  { unfold time_probe. apply wp_bind. unfold wp at 1. simpl.
    apply wp_bind. eapply wp_mono; [|apply fetch_get_wp].
    intros [[[st body] hdrs]|e] s1 (_ & Hsent & _ & _); simpl;
      [|rewrite Hsent; reflexivity].
    apply wp_bind. unfold wp at 1. simpl.
    destruct (st =? 0)%Z; [unfold wp; simpl; rewrite Hsent; reflexivity|].
    match goal with |- wp (if ?c then _ else _) _ _ => destruct c end;
      [|unfold wp; simpl; rewrite Hsent; reflexivity].
    apply wp_bind. unfold wp at 1.
    match goal with |- context [_report ?a ?b ?c ?d ?e ?f ?g ?h ?i ?j s1] =>
      destruct (report_run a b c d e f g h i j s1) as (f0 & -> & Hf) end.
    simpl. unfold wp; simpl. rewrite Hsent. reflexivity. }
  unfold wp in Hfirst.
  assert (Huse : forall s', (sent s ++ [get_request (_with_param url p (url_safe inj))])
                              `prefix_of` sent s' ->
                 sent_grows s s' /\
                 get_request (_with_param url p (url_safe inj)) ∈ sent s').
  { intros s' [k Hk]. split.
    - exists ([get_request (_with_param url p (url_safe inj))] ++ k).
      rewrite Hk, <- app_assoc. reflexivity.
    - rewrite Hk. apply elem_of_app. left. apply elem_of_app. right. left. }
  destruct (time_probe url p bs bl inj findings s) as [[[[|] fs]|e] s1]; simpl in *;
    try (apply Huse, Hfirst).
  pose proof (loop_of_probes _ (of_kind TimeBlind p) probed _
                (time_probe_wp url p bs bl) rest fs s1) as Hrest.
  unfold wp in Hrest. destruct Hrest as [_ [Hg _]].
  apply Huse. etrans; [exact Hfirst | exact Hg].
Qed.

Lemma scan_param_sends_time_payload self url p inj rest findings s :
  time_payloads self = inj :: rest ->
  wp (scan_param self url p findings)
    (fun r s' => match r with
                 | Ok _ => get_request (_with_param url p (url_safe inj)) ∈ sent s'
                 | Raised _ => True
                 end) s.
Proof.
  intros Htime. unfold scan_param. rewrite Htime. apply wp_bind.
  unfold wp at 1.
  destruct (_baseline url p s) as [[[[bs bl] snippet]|e0] s0]; simpl; [|exact I].
  apply wp_bind. unfold wp at 1.
  destruct (for_each (error_payloads self) _ findings s0) as [[fs1|e] s1]; simpl; [|exact I].
  apply wp_bind. unfold wp at 1.
  destruct (for_each (boolean_pairs self) _ fs1 s1) as [[fs2|e] s2]; simpl; [|exact I].
  apply wp_bind. eapply wp_mono; [|apply time_loop_sends].
  intros [fs3|e] s3 [_ Hin]; simpl; [|exact I].
  apply wp_bind.
  eapply wp_mono;
    [|apply (loop_of_probes _ (of_kind UnionBased p) probed), union_probe_wp].
  intros [fs4|e] s4 [_ [Hg _]]; simpl; [|exact I].
  unfold wp; simpl. destruct Hg as [k ->]. apply elem_of_app. left. exact Hin.
Qed.

(** *** The decisions of the other three probes *)

Lemma sqli_error_matched url p bs bl inj (findings : list Finding) s :
  let o := net (length (sent s)) (get_request (_with_param url p (url_safe inj))) in
  matched (error_probe url p bs bl inj findings s) =
    catchable o && negb ((seen o).1 =? 0)%Z && shows_db_error (seen o).2.
Proof.
  intros o. subst o. unfold matched, error_probe, shows_db_error.
  rewrite run_bind, fetch_get.
  destruct (net _ _) as [st body hdrs t|e t]; simpl.
  - destruct (st =? 0)%Z; simpl; [reflexivity|].
    destruct (_looks_like_db_error body) as [err|]; [|reflexivity].
    destruct (truthy err); reflexivity.
  - destruct (is_Exception e); reflexivity.
Qed.

Lemma sqli_time_matched url p bs bl inj (findings : list Finding) s :
  let o := net (length (sent s)) (get_request (_with_param url p (url_safe inj))) in
  matched (time_probe url p bs bl inj findings s) =
    catchable o && negb ((seen o).1 =? 0)%Z &&
    (4.5 <=? (clock s + took o) - clock s)%float.
Proof.
  intros o. subst o. unfold matched, time_probe.
  rewrite run_bind. unfold perf_counter at 1. simpl.
  rewrite run_bind, fetch_get.
  destruct (net _ _) as [st body hdrs t|e t]; simpl.
  - rewrite run_bind. unfold perf_counter. simpl.
    destruct (st =? 0)%Z; simpl; [reflexivity|].
    match goal with |- context [if ?c then _ else _] => destruct c end; reflexivity.
  - destruct (is_Exception e); reflexivity.
Qed.

Lemma sqli_union_matched url p bs bl snippet cols (findings : list Finding) s :
  let o := net (length (sent s))
             (get_request (_with_param url p (url_safe (union_payload cols)))) in
  matched (union_probe url p bs bl snippet cols findings s) =
    catchable o && negb ((seen o).1 =? 0)%Z &&
    (similarity (seen o).2 snippet <? 0.70)%float.
Proof.
  intros o. subst o. unfold matched, union_probe, union_payload.
  rewrite run_bind, fetch_get.
  destruct (net _ _) as [st body hdrs t|e t]; simpl.
  - destruct (st =? 0)%Z; simpl; [reflexivity|].
    match goal with |- context [if ?c then _ else _] => destruct c end; reflexivity.
  - destruct (is_Exception e); reflexivity.
Qed.

(** *** Loops in which no probe matches *)

Lemma unmatched_probe {F} (Q : F -> Prop) (findings : list F)
    (run : result (ctl * list F) * State) :
  polite _ -> probe_shape _ Q findings run.1 -> matched run = false ->
  run.1 = Ok (Continue, findings).
Proof.
  intros Hpolite Hshape Hm. unfold matched in Hm.
  destruct run.1 as [[[|] fs]|e]; simpl in *.
  - subst fs. reflexivity.
  - discriminate.
  - destruct (escaped_polite _ _ Hpolite Hshape).
Qed.

Lemma loop_unmatched {F X} (Q : F -> Prop) (J : State -> Prop)
    (body : X -> list F -> M (ctl * list F)) (findings : list F) (xs : list X) :
  polite _ ->
  (forall x s, probe_shape _ Q findings (body x findings s).1) ->
  (forall x s, x ∈ xs -> J s ->
     matched (body x findings s) = false /\ J (body x findings s).2) ->
  forall s, J s -> exists s', for_each xs body findings s = (Ok findings, s') /\ J s'.
Proof.
  intros Hpolite Hshape Hbody. induction xs as [|x xs IH]; intros s HJ.
  - exists s. split; [reflexivity | exact HJ].
  - rewrite for_each_cons.
    destruct (Hbody x s) as [Hm HJ']; [left | exact HJ |].
    pose proof (unmatched_probe Q findings _ Hpolite (Hshape x s) Hm) as Hrun.
    destruct (body x findings s) as [r s1]. simpl in *. subst r.
    apply IH; [|exact HJ'].
    intros y s2 Hy. apply Hbody. right. exact Hy.
Qed.

(** *** The clock while the target answers at once *)

Lemma fetch_clock (u : string) (s : State) :
  clock (_fetch u GET None s).2 =
  (clock s + took (net (length (sent s)) (get_request u)))%float.
Proof.
  rewrite fetch_get. destruct (net _ _) as [st body hdrs t|e t]; simpl; [reflexivity|].
  destruct (is_Exception e); reflexivity.
Qed.

Section steady_clock.
Context (c : float).
Hypothesis at_once : forall i r, took (net i r) = 0%float.
Hypothesis c_steady : (c + 0)%float = c.

Lemma fetch_steady u s : clock s = c -> clock (_fetch u GET None s).2 = c.
Proof. intros Hc. rewrite fetch_clock, at_once, Hc. exact c_steady. Qed.

Lemma error_probe_steady url p bs bl inj findings s :
  clock s = c -> clock (error_probe url p bs bl inj findings s).2 = c.
Proof.
  intros Hc. pose proof (fetch_steady (_with_param url p (url_safe inj)) s Hc) as Hf.
  unfold error_probe. rewrite run_bind.
  destruct (_fetch _ GET None s) as [[[[st body] hdrs]|e] s1]; simpl in *; [|exact Hf].
  destruct (st =? 0)%Z; [exact Hf|].
  destruct (_looks_like_db_error body) as [err|]; [|exact Hf].
  destruct (truthy err); exact Hf.
Qed.

Lemma boolean_probe_steady url p bs bl snippet pair findings s :
  clock s = c -> clock (boolean_probe url p bs bl snippet pair findings s).2 = c.
Proof.
  intros Hc. destruct pair as [t f_val].
  pose proof (fetch_steady (_with_param url p (url_safe t)) s Hc) as Hf1.
  unfold boolean_probe. rewrite run_bind.
  destruct (_fetch _ GET None s) as [[[[st_t body_t] h_t]|e] s1]; simpl in *; [|exact Hf1].
  pose proof (fetch_steady (_with_param url p (url_safe f_val)) s1 Hf1) as Hf2.
  rewrite run_bind.
  destruct (_fetch _ GET None s1) as [[[[st_f body_f] h_f]|e] s2]; simpl in *; [|exact Hf2].
  destruct ((st_t =? 0)%Z || (st_f =? 0)%Z); [exact Hf2|].
  match goal with |- context [if ?b then _ else _] => destruct b end; exact Hf2.
Qed.

Lemma time_probe_steady url p bs bl inj findings s :
  clock s = c -> clock (time_probe url p bs bl inj findings s).2 = c.
Proof.
  intros Hc. pose proof (fetch_steady (_with_param url p (url_safe inj)) s Hc) as Hf.
  unfold time_probe. rewrite run_bind. unfold perf_counter at 1. simpl. rewrite run_bind.
  destruct (_fetch _ GET None s) as [[[[st body] hdrs]|e] s1]; simpl in *; [|exact Hf].
  rewrite run_bind. unfold perf_counter. simpl.
  destruct (st =? 0)%Z; [exact Hf|].
  match goal with |- context [if ?b then _ else _] => destruct b end; exact Hf.
Qed.

Lemma union_probe_steady url p bs bl snippet cols findings s :
  clock s = c -> clock (union_probe url p bs bl snippet cols findings s).2 = c.
Proof.
  intros Hc. unfold union_probe.
  match goal with |- context [_with_param url p ?v] =>
    pose proof (fetch_steady (_with_param url p v) s Hc) as Hf end.
  rewrite run_bind.
  destruct (_fetch _ GET None s) as [[[[st body] hdrs]|e] s1]; simpl in *; [|exact Hf].
  destruct (st =? 0)%Z; [exact Hf|].
  match goal with |- context [if ?b then _ else _] => destruct b end; exact Hf.
Qed.

Lemma loop_steady {X A} (body : X -> A -> M (ctl * A)) (xs : list X) :
  (forall x acc s, clock s = c -> clock (body x acc s).2 = c) ->
  forall acc s, clock s = c -> clock (for_each xs body acc s).2 = c.
Proof.
  intros Hbody. induction xs as [|x xs IH]; intros acc s Hc; [exact Hc|].
  rewrite for_each_cons. specialize (Hbody x acc s Hc).
  destruct (body x acc s) as [[[[|] acc']|e] s1]; simpl in *; auto.
Qed.

Lemma baseline_steady url p s : clock s = c -> clock (_baseline url p s).2 = c.
Proof.
  intros Hc. unfold _baseline. rewrite run_bind. simpl.
  destruct (_baselines s !! p) as [cached|]; [exact Hc|].
  pose proof (fetch_steady url s Hc) as Hf. rewrite run_bind.
  destruct (_fetch url GET None s) as [[[[st body] hdrs]|e] s1]; simpl in *; exact Hf.
Qed.

End steady_clock.

(** The scenario of the design document with nothing else going on: the
    target answers at once; the unmodified request and the requests of the
    boolean, time and UNION procedures all show "Welcome"; one error
    payload draws the MySQL error.  The differ rates a text against itself
    with 1.0. *)
Lemma error_scenario_alone self url p inj hdrs hdrs' s :
  polite _ -> inj ∈ error_payloads self -> _baselines s !! p = None ->
  (forall a, similarity a a = 1%float) ->
  (forall i r, took (net i r) = 0%float) ->
  (clock s + 0)%float = clock s -> (4.5 <=? clock s - clock s)%float = false ->
  (forall i, net i (get_request url) = Respond 200 "Welcome" hdrs 0) ->
  (forall i z, z ∈ later_payloads self ->
     net i (get_request (_with_param url p (url_safe z))) = Respond 200 "Welcome" hdrs 0) ->
  (forall i, net i (get_request (_with_param url p (url_safe inj))) =
             Respond 200 "Error: SQL syntax ... MySQL" hdrs' 0) ->
  exists f s',
    scan_get_params self url [p] s = (Ok [f], s') /\
    technique f = "error-based" /\ severity f = "High" /\ parameter f = p.
Proof.
  intros Hpolite Hin Hmiss Hsim Honce Hc0 Hdt Hbase Hlater Hinj.
  set (c := clock s).
  unfold scan_get_params. rewrite for_each_cons, run_bind.
  unfold scan_param. rewrite run_bind.
  pose proof (baseline_wp url p s) as Hb. unfold wp in Hb.
  pose proof (baseline_steady c Honce Hc0 url p s eq_refl) as Hclk0.
  rewrite Hmiss, Hbase in Hb. simpl in Hb.
  destruct (_baseline url p s) as [[[[bs bl] snippet]|e0] s0]; simpl in Hb, Hclk0;
    [|destruct Hb as (_ & ? & _); discriminate].
  destruct Hb as (_ & _ & Hbv & _). injection Hbv as -> -> ->. simpl.
  rewrite run_bind.
  pose proof (loop_steady c (error_probe url p 200 7) (error_payloads self)
                (error_probe_steady c Honce Hc0 url p 200 7) [] s0 Hclk0) as Hclk1.
  destruct (error_loop_finds url p 200 7 inj (error_payloads self) Hpolite Hin) with
    (findings := @nil Finding) (s := s0) as (f & s1 & Hrun1 & Hk & _).
  { intros i. rewrite Hinj. simpl. split; [discriminate | reflexivity]. }
  rewrite Hrun1 in Hclk1 |- *. simpl in Hclk1 |- *. rewrite run_bind.
  (* boolean pairs *)
  destruct (loop_unmatched (of_kind BooleanBlind p) (fun s => clock s = c)
              (boolean_probe url p 200 7 (slice_to 4000 "Welcome")) [f]
              (boolean_pairs self) Hpolite) with (s := s1) as (s2 & -> & Hclk2).
  { intros x s'. pose proof (boolean_probe_wp url p 200 7 (slice_to 4000 "Welcome")
                               x [f] s') as Hw. unfold wp in Hw. apply Hw. }
  { intros [t f_val] s' Hx Hs'. split; [|apply boolean_probe_steady; assumption].
    rewrite sqli_boolean_matched. cbn zeta.
    rewrite !Hlater.
    - simpl. rewrite Hsim. reflexivity.
    - unfold later_payloads. apply elem_of_app. left.
      apply list_elem_of_In, in_flat_map. exists (t, f_val).
      split; [apply list_elem_of_In, Hx | right; left; reflexivity].
    - unfold later_payloads. apply elem_of_app. left.
      apply list_elem_of_In, in_flat_map. exists (t, f_val).
      split; [apply list_elem_of_In, Hx | left; reflexivity]. }
  { exact Hclk1. }
  simpl. rewrite run_bind.
  (* time payloads *)
  destruct (loop_unmatched (of_kind TimeBlind p) (fun s => clock s = c)
              (time_probe url p 200 7) [f] (time_payloads self) Hpolite)
    with (s := s2) as (s3 & -> & Hclk3).
  { intros x s'. pose proof (time_probe_wp url p 200 7 x [f] s') as Hw.
    unfold wp in Hw. apply Hw. }
  { intros x s' Hx Hs'. split; [|apply time_probe_steady; assumption].
    rewrite sqli_time_matched. cbn zeta. rewrite Honce, Hs'. subst c. rewrite Hc0, Hdt.
    apply andb_false_r. }
  { exact Hclk2. }
  simpl. rewrite run_bind.
  (* UNION probes *)
  destruct (loop_unmatched (of_kind UnionBased p) (fun s => clock s = c)
              (union_probe url p 200 7 (slice_to 4000 "Welcome")) [f]
              (range_1 (max_union_cols self)) Hpolite)
    with (s := s3) as (s4 & -> & Hclk4).
  { intros x s'. pose proof (union_probe_wp url p 200 7 (slice_to 4000 "Welcome")
                               x [f] s') as Hw. unfold wp in Hw. apply Hw. }
  { intros cols s' Hx Hs'. split; [|apply union_probe_steady; assumption].
    rewrite sqli_union_matched. cbn zeta. rewrite Hlater.
    - simpl. rewrite Hsim. reflexivity.
    - unfold later_payloads. apply elem_of_app. right. apply elem_of_app. right.
      apply list_elem_of_fmap. exists cols. split; [reflexivity | exact Hx]. }
  { exact Hclk3. }
  simpl. exists f, s4. split; [reflexivity|].
  destruct Hk as (Hp & Hsev & Htech & _).
  split; [exact Htech|]. split; [rewrite Hsev, Htech; reflexivity | exact Hp].
Qed.


End sqli_facts.

(** ** The NoSQLi scanner *)

Section nosqli_facts.
Context `{!Transport, !Urllib, !Encode, !ResponseDiffer, !Format}.

Lemma nosqli_get_run (u : string) (s : State) :
  NoSQLi._get u s =
  match net (length (sent s)) (get_request u) with
  | Respond st body hdrs t => (Ok (st, body), after_request (get_request u) t s)
  | Fail e t =>
      if is_Exception e then
        (Ok (0%Z, ""),
         after_log (LogError "NoSQLiScanner._get" (u +:+ ": " +:+ str_exn e))
           (after_request (get_request u) t s))
      else (Raised e, after_request (get_request u) t s)
  end.
Proof.
  unfold NoSQLi._get, try_except. rewrite run_bind, session_request_run.
  destruct (net _ _) as [st body hdrs t|e t]; [reflexivity|].
  destruct (is_Exception e); reflexivity.
Qed.

Lemma nosqli_boolean_matched url p st_b snippet t f_val (findings : list NoSQLiFinding) s :
  let req y := get_request (_with_param url p (url_safe y)) in
  let o_t := net (length (sent s)) (req t) in
  let o_f := net (S (length (sent s))) (req f_val) in
  let sim_tf := similarity (seen o_t).2 (seen o_f).2 in
  let sim_tb := similarity (seen o_t).2 snippet in
  let sim_fb := similarity (seen o_f).2 snippet in
  matched (NoSQLi.boolean_probe url p st_b snippet (t, f_val) findings s) =
    catchable o_t && catchable o_f &&
    negb ((seen o_t).1 =? 0)%Z && negb ((seen o_f).1 =? 0)%Z &&
    spec_boolean_rule sim_tf sim_tb sim_fb (seen o_t).1 (seen o_f).1.
Proof.
  intros req o_t o_f sim_tf sim_tb sim_fb.
  subst req o_t o_f sim_tf sim_tb sim_fb. cbn beta.
  unfold matched, NoSQLi.boolean_probe, spec_boolean_rule.
  rewrite run_bind, nosqli_get_run.
  destruct (net (length (sent s)) _) as [st_t body_t h_t tk_t|e_t tk_t]; simpl.
  - rewrite run_bind, nosqli_get_run. rewrite length_sent_after_request.
    destruct (net (S (length (sent s))) _) as [st_f body_f h_f tk_f|e_f tk_f]; simpl.
    + destruct (st_t =? 0)%Z; simpl; [reflexivity|].
      destruct (st_f =? 0)%Z; simpl; [reflexivity|].
      match goal with |- context [if ?c then _ else _] => destruct c end; reflexivity.
    + destruct (is_Exception e_f); simpl; [|reflexivity].
      rewrite ?orb_true_r, ?andb_false_r. reflexivity.
  - destruct (is_Exception e_t); simpl; [|reflexivity].
    rewrite run_bind, nosqli_get_run. simpl. rewrite length_app. simpl.
    rewrite Nat.add_1_r.
    destruct (net (S (length (sent s))) _) as [st_f body_f h_f tk_f|e_f tk_f]; simpl;
      [|destruct (is_Exception e_f); simpl];
      rewrite ?andb_false_r; reflexivity.
Qed.

Lemma nosqli_boolean_shape url p st_b snippet pair (findings : list NoSQLiFinding) s :
  probe_shape _ (fun f => ns_parameter f = p /\ ns_severity f = "High") findings
    (NoSQLi.boolean_probe url p st_b snippet pair findings s).1.
Proof.
  destruct pair as [t f_val]. unfold NoSQLi.boolean_probe.
  rewrite run_bind, nosqli_get_run.
  destruct (net (length (sent s)) _) as [st_t body_t h_t tk_t|e_t tk_t] eqn:E1; simpl.
  - rewrite run_bind, nosqli_get_run.
    destruct (net _ _) as [st_f body_f h_f tk_f|e_f tk_f] eqn:E2 in |- *; simpl.
    + destruct ((st_t =? 0)%Z || (st_f =? 0)%Z); simpl; [reflexivity|].
      match goal with |- context [if ?c then _ else _] => destruct c end; simpl;
        [|reflexivity].
      eexists. split; [reflexivity|]. split; reflexivity.
    + destruct (is_Exception e_f) eqn:He; simpl.
      * rewrite orb_true_r. reflexivity.
      * split; eauto.
  - destruct (is_Exception e_t) eqn:He1; simpl; [|split; eauto].
    rewrite run_bind, nosqli_get_run.
    destruct (net _ _) as [st_f body_f h_f tk_f|e_f tk_f] eqn:E2 in |- *; simpl.
    + reflexivity.
    + destruct (is_Exception e_f) eqn:He; simpl; [reflexivity|split; eauto].
Qed.

End nosqli_facts.

(** ** The timing probes of the command-injection and SSTI scanners *)

Section timing_probe_facts.
Context `{!Transport, !Urllib, !Encode, !Format}.

Lemma cmdi_timing_off (self : CMDi.CMDIScanner) url param method data s :
  CMDi.aggressive self = false ->
  CMDi.scan_timing_param self url param method data s = (Ok [], s).
Proof. intros Hoff. unfold CMDi.scan_timing_param. rewrite Hoff. reflexivity. Qed.

Lemma ssti_reflective_run url param probe (findings : list SSTIFinding) s :
  let r := get_request (_with_param url param (url_safe probe.1)) in
  exists res s',
    SSTI.reflective_probe url param probe findings s = (res, s') /\
    sent s' = sent s ++ [r] /\
    match res with
    | Ok (c, _) => c = Continue
    | Raised e => escaped _ e
    end.
Proof.
  destruct probe as [payload marker]. simpl.
  unfold SSTI.reflective_probe, try_except. rewrite run_bind, session_request_run.
  destruct (net _ _) as [st body hdrs t|e t] eqn:Hnet; simpl.
  - destruct marker as [mk|]; [|eexists _, _; split_and!; reflexivity].
    destruct (truthy mk && contains mk body);
      eexists _, _; (split; [reflexivity|]); split; reflexivity.
  - destruct (is_Exception e) eqn:He; eexists _, _; (split; [reflexivity|]);
      (split; [reflexivity|]); [reflexivity|split; eauto].
Qed.

(** The reflective loop sends its probes in order, one request each, and
    nothing else. *)
Lemma ssti_reflective_loop_sends url param (probes : list (string * option string)) :
  forall (findings : list SSTIFinding) s,
  let req probe := get_request (_with_param url param (url_safe probe.1)) in
  let run := for_each probes (SSTI.reflective_probe url param) findings s in
  exists k,
    k <= length probes /\
    sent run.2 = sent s ++ map req (take k probes) /\
    match run.1 with
    | Ok _ => k = length probes
    | Raised e => escaped _ e
    end.
Proof.
  induction probes as [|probe probes IH]; intros findings s req run; subst req run.
  - exists 0. rewrite for_each_nil. simpl. rewrite app_nil_r. auto.
  - rewrite for_each_cons.
    destruct (ssti_reflective_run url param probe findings s)
      as (res & s1 & -> & Hsent & Hres).
    destruct res as [[c fs]|e]; simpl.
    + subst c. destruct (IH fs s1) as (k & Hk & Hs & Hr). exists (S k).
      split; [simpl; lia|]. split.
      * rewrite Hs, Hsent. simpl. rewrite <- app_assoc. reflexivity.
      * destruct (for_each probes _ fs s1) as [[?|?] ?]; simpl in *; [lia | exact Hr].
    + exists 1. split; [simpl; lia|]. split; [|exact Hres].
      rewrite Hsent. reflexivity.
Qed.

End timing_probe_facts.

(** ** The oracle across scanners *)

Section oracle_facts.
Context `{!Transport, !Urllib, !Encode, !ResponseDiffer, !Format}.

(** C1, as the counterexamples amend it.  A pair of the boolean-pair
    procedure is decided only when both of its requests came back with a
    status other than 0 (a pair with a failed request is skipped).  For
    such a pair the NoSQLi scanner reports a match exactly when
    [sim_tf < 0.60] and ([similarity(body_true, baseline) > 0.85] or
    [similarity(body_false, baseline) > 0.85] or the two status codes
    differ); the SQLi scanner reports a match exactly when
    [sim_tf < 0.60] and one of the two similarities to the baseline
    exceeds 0.85 — it has no status disjunct.  A match appends one
    finding and ends the loop; anything else leaves the findings as they
    were. *)
Theorem boolean_pair_rule (url p : string) (bs : Z) (bl : nat) (snippet : string)
    (t f_val : string) (fs : list Finding) (fn : list NoSQLiFinding) (s : State) :
  let req y := get_request (_with_param url p (url_safe y)) in
  let o_t := net (length (sent s)) (req t) in
  let o_f := net (S (length (sent s))) (req f_val) in
  let st_t := (seen o_t).1 in
  let st_f := (seen o_f).1 in
  let sim_tf := similarity (seen o_t).2 (seen o_f).2 in
  let sim_tb := similarity (seen o_t).2 snippet in
  let sim_fb := similarity (seen o_f).2 snippet in
  let answered :=
    catchable o_t && catchable o_f && negb (st_t =? 0)%Z && negb (st_f =? 0)%Z in
  matched (NoSQLi.boolean_probe url p bs snippet (t, f_val) fn s) =
    answered && spec_boolean_rule sim_tf sim_tb sim_fb st_t st_f /\
  matched (SQLi.boolean_probe url p bs bl snippet (t, f_val) fs s) =
    answered &&
    ((sim_tf <? 0.60)%float && ((0.85 <? sim_tb)%float || (0.85 <? sim_fb)%float)) /\
  probe_shape _ (fun f => ns_parameter f = p /\ ns_severity f = "High") fn
    (NoSQLi.boolean_probe url p bs snippet (t, f_val) fn s).1 /\
  probe_shape _ (of_kind BooleanBlind p) fs
    (SQLi.boolean_probe url p bs bl snippet (t, f_val) fs s).1.
Proof.
  cbn zeta. split_and!.
  - apply nosqli_boolean_matched.
  - apply sqli_boolean_matched.
  - apply nosqli_boolean_shape.
  - pose proof (boolean_probe_wp url p bs bl snippet (t, f_val) fs s) as Hw.
    unfold wp in Hw. apply Hw.
Qed.

(** C4, as the counterexample amends it.  The timing procedure is gated
    by the aggressive flag in the command-injection and the SSTI scanner:
    with the flag off, [scan_timing_param] sends nothing and returns no
    finding, and [scan_param] of the SSTI scanner sends its reflective
    probes, in order, and no other request.  The SQLi scanner has no
    aggressive flag: every pass over a parameter that returns has sent
    the first of its time payloads. *)
Theorem timing_gate (url param : string) (s : State) :
  (forall base timeout method data,
     CMDi.scan_timing_param (CMDi.mkCMDIScanner base false timeout) url param method data s
     = (Ok [], s)) /\
  (exists k,
     k <= length SSTI.REFLECTIVE_PROBES /\
     sent (SSTI.scan_param (SSTI.mkSSTIScanner false) url param s).2 =
       sent s ++ map (fun probe => get_request (_with_param url param (url_safe probe.1)))
                   (take k SSTI.REFLECTIVE_PROBES) /\
     match (SSTI.scan_param (SSTI.mkSSTIScanner false) url param s).1 with
     | Ok _ => k = length SSTI.REFLECTIVE_PROBES
     | Raised e => escaped _ e
     end) /\
  (forall base cols findings,
     match SQLi.scan_param (SQLi.__init__ base cols) url param findings s with
     | (Ok _, s') =>
         get_request (_with_param url param (url_safe "1' OR SLEEP(5)-- ")) ∈ sent s'
     | (Raised e, _) => escaped _ e
     end).
Proof.
  split_and!.
  - intros. apply cmdi_timing_off. reflexivity.
  - destruct (ssti_reflective_loop_sends url param SSTI.REFLECTIVE_PROBES [] s)
      as (k & Hk & Hs & Hr).
    exists k. unfold SSTI.scan_param. rewrite run_bind.
    destruct (for_each SSTI.REFLECTIVE_PROBES _ [] s) as [[fs|e] s']; simpl in *; auto.
  - intros base cols findings.
    pose proof (scan_param_sends_time_payload (SQLi.__init__ base cols) url param
                  "1' OR SLEEP(5)-- " _ findings s eq_refl) as Hsend.
    pose proof (scan_param_wp (SQLi.__init__ base cols) url param findings s) as Hf.
    unfold wp in Hsend, Hf.
    destruct (SQLi.scan_param _ url param findings s) as [[fs|e] s']; simpl in *;
      [exact Hsend | apply Hf].
Qed.

End oracle_facts.

(** ** The scheduler *)

Section scheduler_facts.
Import Scheduler.

Lemma sum_insert {A} (f : A -> nat) (l : list A) (i : nat) (x y : A) :
  l !! i = Some x ->
  sum_list (map f (<[i := y]> l)) + f x = sum_list (map f l) + f y.
Proof.
  revert i. induction l as [|a l IH]; intros [|i] Hi; simpl in *; try discriminate.
  - injection Hi as ->. lia.
  - specialize (IH i Hi). lia.
Qed.

Lemma invoke_run_begin now t : invoke (run_begin now t) = invoke t.
Proof. reflexivity. Qed.

(** [run] never lets an ordinary exception out: it records it, marks
    the task completed and returns. *)
Lemma run_catches (t : ScanTask) (e : exn) (t_start t_end : float) :
  invoke t = Some (Raised e) -> is_Exception e = true ->
  exists t',
    run t_start t_end t = Some (Ok tt, t') /\
    exception t' = Some e /\ completed t' = true /\ result_ t' = result_ t /\
    started_at t' = Some t_start /\ finished_at t' = Some t_end.
Proof.
  intros Hinv He. unfold run, run_end. rewrite Hinv. simpl. rewrite He.
  eexists. split; [reflexivity|]. simpl. auto.
Qed.

Lemma run_returns (t : ScanTask) (v : Any) (t_start t_end : float) :
  invoke t = Some (Ok v) ->
  exists t',
    run t_start t_end t = Some (Ok tt, t') /\
    result_ t' = v /\ completed t' = true /\ exception t' = exception t.
Proof.
  intros Hinv. unfold run, run_end. rewrite Hinv.
  eexists. split; [reflexivity|]. simpl. auto.
Qed.

Lemma run_ok_completed (t t' : ScanTask) (t_start t_end : float) :
  run t_start t_end t = Some (Ok tt, t') -> completed t' = true.
Proof.
  unfold run, run_end.
  destruct (invoke t) as [[v|e]|]; simpl; [intros [= <-]; reflexivity | | discriminate].
  destruct (is_Exception e); [intros [= <-]; reflexivity | discriminate].
Qed.

Lemma run_raised_not_ordinary (t t' : ScanTask) (e : exn) (t_start t_end : float) :
  run t_start t_end t = Some (Raised e, t') -> ordinary t = false.
Proof.
  unfold run, run_end, ordinary.
  destruct (invoke t) as [[v|e']|]; simpl; [discriminate | | discriminate].
  destruct (is_Exception e'); [discriminate | reflexivity].
Qed.

Lemma ordinary_resolves (t : ScanTask) : ordinary t = true -> is_Some (invoke t).
Proof. unfold ordinary. destruct (invoke t); [eauto | discriminate]. Qed.

Lemma pool_inv_start self p0 : start self = Ok p0 -> pool_inv self 0 p0.
Proof.
  unfold start. destruct (_ <? 0)%Z; [discriminate|]. intros [= <-].
  unfold pool_inv, running, work_left. simpl.
  induction (tasks self) as [|t ts IH]; simpl.
  - split; [constructor|]. lia.
  - destruct IH as (IH1 & IH2 & IH3). split; [constructor; [reflexivity | exact IH1]|].
    lia.
Qed.

Lemma pool_inv_step self n p p' : pool_inv self n p -> step p p' -> pool_inv self (S n) p'.
Proof.
  intros (Hprog & Hperm & Hwork) [i now Hacq | i now Hfin].
  - unfold acquire in Hacq.
    destruct (slots p !! i) as [[ph t]|] eqn:Hi; [|discriminate].
    destruct ph; try discriminate.
    destruct (permits p) as [|k] eqn:Hk; [discriminate|].
    injection Hacq as <-.
    destruct (Forall2_lookup_r _ _ _ _ _ Hprog Hi) as (t0 & Ht0 & Hp0).
    unfold progress_of in Hp0. simpl in Hp0. subst t.
    unfold pool_inv, running, work_left in *. simpl. split_and!.
    + rewrite <- (list_insert_id (tasks self) i t0 Ht0).
      apply Forall2_insert; [exact Hprog|]. exists now. reflexivity.
    + pose proof (sum_insert (fun ps => in_flight ps.1) (slots p) i (Waiting, t0)
                    (Running, run_begin now t0) Hi) as Hs. simpl in Hs. lia.
    + pose proof (sum_insert (fun ps => weight ps.1) (slots p) i (Waiting, t0)
                    (Running, run_begin now t0) Hi) as Hs. simpl in Hs. lia.
  - unfold finish in Hfin.
    destruct (slots p !! i) as [[ph t]|] eqn:Hi; [|discriminate].
    destruct ph; try discriminate.
    destruct (Forall2_lookup_r _ _ _ _ _ Hprog Hi) as (t0 & Ht0 & Hp0).
    unfold progress_of in Hp0. simpl in Hp0. destruct Hp0 as [began ->].
    rewrite invoke_run_begin in Hfin.
    destruct (invoke t0) as [out|] eqn:Hout; simpl in Hfin; [|discriminate].
    destruct (run_end now (run_begin began t0) out) as [r t'] eqn:Hrun.
    injection Hfin as <-.
    assert (Hwhole : run began now t0 = Some (r, t'))
      by (unfold run; rewrite Hout; simpl; by rewrite Hrun).
    unfold pool_inv, running, work_left in *. simpl. split_and!.
    + rewrite <- (list_insert_id (tasks self) i t0 Ht0).
      apply Forall2_insert; [exact Hprog|].
      unfold progress_of. simpl. destruct r as [[]|e]; exists began, now; exact Hwhole.
    + pose proof (sum_insert (fun ps => in_flight ps.1) (slots p) i
                    (Running, run_begin began t0)
                    (match r with Ok _ => Finished | Raised e => Propagated e end, t')
                    Hi) as Hs.
      simpl in Hs. destruct r; simpl in Hs; lia.
    + pose proof (sum_insert (fun ps => weight ps.1) (slots p) i
                    (Running, run_begin began t0)
                    (match r with Ok _ => Finished | Raised e => Propagated e end, t')
                    Hi) as Hs.
      simpl in Hs. destruct r; simpl in Hs; lia.
Qed.

Lemma pool_inv_nsteps self p0 n p :
  start self = Ok p0 -> nsteps step n p0 p -> pool_inv self n p.
Proof.
  intros Hstart. revert p. induction n as [|n IH]; intros p Hsteps.
  - inversion Hsteps; subst. apply pool_inv_start, Hstart.
  - apply nsteps_inv_r in Hsteps as (q & Hq & Hstep).
    eapply pool_inv_step; [apply IH, Hq | exact Hstep].
Qed.

Lemma no_propagation self n p :
  pool_inv self n p -> Forall (fun t => ordinary t = true) (tasks self) ->
  omap propagated (slots p) = [].
Proof.
  intros (Hprog & _ & _) Hord.
  induction Hprog as [|t0 [ph t] ts sl Hp Hrest IH]; [reflexivity|].
  apply Forall_cons in Hord as [Ho Hord]. simpl.
  unfold propagated at 1. simpl.
  destruct ph; simpl; try (apply IH, Hord).
  unfold progress_of in Hp. simpl in Hp. destruct Hp as (a & b & Hrun).
  apply run_raised_not_ordinary in Hrun. congruence.
Qed.

Lemma all_finished_completed self n p :
  pool_inv self n p -> forallb is_finished (slots p) = true ->
  Forall (fun t => completed t = true) (tasks_of p).
Proof.
  intros (Hprog & _ & _). unfold tasks_of.
  induction Hprog as [|t0 [ph t] ts sl Hp Hrest IH]; simpl; [constructor|].
  intros Hall. apply andb_prop in Hall as [Hfin Hall].
  constructor; [|apply IH, Hall].
  unfold is_finished in Hfin. simpl in *. destruct ph; try discriminate.
  unfold progress_of in Hp. simpl in Hp. destruct Hp as (a & b & Hrun).
  eapply run_ok_completed, Hrun.
Qed.

Lemma running_slot (sl : list (phase * ScanTask)) :
  0 < sum_list (map (fun ps => in_flight ps.1) sl) ->
  exists i t, sl !! i = Some (Running, t).
Proof.
  induction sl as [|[ph t] sl IH]; simpl; [lia|]. intros Hpos.
  destruct ph; simpl in Hpos;
    try (destruct (IH Hpos) as (i & t' & Hi); exists (S i), t'; exact Hi).
  exists 0, t. reflexivity.
Qed.

Lemma unfinished_slot (sl : list (phase * ScanTask)) :
  forallb is_finished sl = false ->
  exists i ph t, sl !! i = Some (ph, t) /\ ph <> Finished.
Proof.
  induction sl as [|[ph t] sl IH]; simpl; [discriminate|]. intros Hall.
  destruct (is_finished (ph, t)) eqn:Hf; simpl in Hall.
  - destruct (IH Hall) as (i & ph' & t' & Hi & Hne). exists (S i), ph', t'. auto.
  - exists 0, ph, t. split; [reflexivity|]. intros ->. discriminate.
Qed.

Lemma propagated_none (sl : list (phase * ScanTask)) i e t :
  omap propagated sl = [] -> sl !! i = Some (Propagated e, t) -> False.
Proof.
  revert i. induction sl as [|[ph t'] sl IH]; intros [|i] Hnone Hi; simpl in *;
    try discriminate.
  - injection Hi as -> ->. unfold propagated in Hnone. simpl in Hnone. discriminate.
  - unfold propagated at 1 in Hnone. simpl in Hnone.
    destruct ph; simpl in Hnone; try discriminate; eapply IH; eauto.
Qed.

Lemma pool_progress self n p :
  pool_inv self n p -> Forall (fun t => is_Some (invoke t)) (tasks self) ->
  (0 < max_concurrent_tasks self)%Z ->
  run_all_result p = None -> exists p', step p p'.
Proof.
  intros (Hprog & Hperm & _) Hres Hmax Hblocked. unfold run_all_result in Hblocked.
  destruct (omap propagated (slots p)) as [|e es] eqn:Hnone; [|discriminate].
  destruct (forallb is_finished (slots p)) eqn:Hall; [discriminate|].
  destruct (decide (0 < running p)) as [Hrun|Hrun].
  - destruct (running_slot _ Hrun) as (i & t & Hi).
    destruct (finish i 0%float p) as [p'|] eqn:Hfin.
    + exists p'. eapply step_finish, Hfin.
    + unfold finish in Hfin. rewrite Hi in Hfin.
      destruct (Forall2_lookup_r _ _ _ _ _ Hprog Hi) as (t0 & Ht0 & Hp0).
      unfold progress_of in Hp0. simpl in Hp0. destruct Hp0 as [began ->].
      rewrite invoke_run_begin in Hfin.
      destruct (proj1 (Forall_lookup _ _) Hres i t0 Ht0) as [out Hout].
      rewrite Hout in Hfin. simpl in Hfin.
      destruct (run_end _ _ _); discriminate.
  - destruct (unfinished_slot _ Hall) as (i & ph & t & Hi & Hne).
    destruct ph; try congruence.
    + destruct (acquire i 0%float p) as [p'|] eqn:Hacq.
      * exists p'. eapply step_acquire, Hacq.
      * unfold acquire in Hacq. rewrite Hi in Hacq.
        destruct (permits p) eqn:Hk; [lia | discriminate].
    + exfalso. apply Hrun.
      pose proof (sum_insert (fun ps => in_flight ps.1) (slots p) i (Running, t)
                    (Waiting, t) Hi) as Hs. simpl in Hs. unfold running. lia.
    + destruct (propagated_none _ _ _ _ Hnone Hi).
Qed.

Lemma no_work_left_finished (sl : list (phase * ScanTask)) :
  sum_list (map (fun ps => weight ps.1) sl) = 0 -> omap propagated sl = [] ->
  forallb is_finished sl = true.
Proof.
  induction sl as [|[ph t] sl IH]; simpl; [reflexivity|]. intros Hw Hnone.
  unfold propagated at 1 in Hnone. simpl in Hnone.
  destruct ph; simpl in *; try lia; try discriminate.
  apply IH; [lia | exact Hnone].
Qed.



(** A bound of zero admits no task: from the start no step is possible, so
    [run_all] with a queued task never returns. *)
Lemma zero_bound_blocks (self : Scheduler) (p0 : Pool) :
  max_concurrent_tasks self = 0%Z -> start self = Ok p0 ->
  (forall p', ~ step p0 p') /\
  (tasks self <> [] -> run_all_result p0 = None).
Proof.
  intros Hmax Hstart. unfold start in Hstart. rewrite Hmax in Hstart. simpl in Hstart.
  injection Hstart as <-. split.
  - intros p' [i now Hacq | i now Hfin].
    + unfold acquire in Hacq. simpl in Hacq.
      destruct (_ !! i) as [[[] ?]|]; discriminate.
    + unfold finish in Hfin. simpl in Hfin. rewrite list_lookup_fmap in Hfin.
      destruct (tasks self !! i); discriminate.
  - intros Hne. unfold run_all_result. simpl.
    assert (Hnone : forall ts, omap propagated (map (fun t => (Waiting, t)) ts) = []).
    { intros ts. induction ts as [|t ts IH]; [reflexivity | exact IH]. }
    rewrite Hnone. destruct (tasks self) as [|t ts]; [congruence | reflexivity].
Qed.

End scheduler_facts.

(** ** Runs in the laboratory *)

Section on_any_server.
#[local] Existing Instances Lab.urllib Lab.encode Lab.format Fallback.differ.

Lemma table_server_polite rows otherwise :
  Forall (fun row => catchable row.2 = true) rows -> catchable otherwise = true ->
  polite (Lab.table_server rows otherwise).
Proof.
  intros Hrows Hother i r. unfold net, Lab.table_server.
  induction Hrows as [|row rows Hrow _ IH]; simpl; [exact Hother|].
  destruct (contains row.1 (req_url r)); [exact Hrow | exact IH].
Qed.

(** C1 as stated fails twice.  On the SQLi scanner: the true payload
    draws status 200 and ["AAAA"], the false payload status 500 and
    ["BBBB"], the baseline is ["CCCC"]; the stated rule holds (the
    bodies differ and so do the status codes) but no match is reported.
    On the NoSQLi scanner: the false request times out; the stated rule
    holds of what came back (200 and ["AAAA"] against 0 and [""]) but the
    pair is skipped. *)
Lemma boolean_rule_claim_fails :
  (@net Lab.status_server 0
     (get_request (_with_param Lab.target "id" (url_safe "1' OR '1'='1")))
     = Respond 200 "AAAA" [] 0.1 /\
   @net Lab.status_server 1
     (get_request (_with_param Lab.target "id" (url_safe "1' AND '1'='2")))
     = Respond 500 "BBBB" [] 0.1 /\
   spec_boolean_rule (similarity "AAAA" "BBBB") (similarity "AAAA" "CCCC")
     (similarity "BBBB" "CCCC") 200 500 = true /\
   matched (@SQLi.boolean_probe Lab.status_server _ _ _ _ Lab.target "id" 200 4 "CCCC"
              ("1' OR '1'='1", "1' AND '1'='2") [] initial_state) = false) /\
  (@net Lab.flaky_server 0
     (get_request (_with_param Lab.target "id" (url_safe ("{" +:+ dq +:+ "$ne" +:+ dq +:+ ": null}"))))
     = Respond 200 "AAAA" [] 0.1 /\
   @net Lab.flaky_server 1
     (get_request (_with_param Lab.target "id" (url_safe (dq +:+ "fixedvalue" +:+ dq))))
     = Fail TimeoutError 12 /\
   spec_boolean_rule (similarity "AAAA" "") (similarity "AAAA" "AAAA")
     (similarity "" "AAAA") 200 0 = true /\
   matched (@NoSQLi.boolean_probe Lab.flaky_server _ _ _ _ Lab.target "id" 200 "AAAA"
              ("{" +:+ dq +:+ "$ne" +:+ dq +:+ ": null}", dq +:+ "fixedvalue" +:+ dq)
              [] initial_state) = false).
Proof. split; split_and!; vm_compute; reflexivity. Qed.

(** C2 as stated fails: against a target that executes what is injected,
    one pass over the parameter ["id"] appends four findings for it. *)
Lemma four_findings_for_one_parameter :
  (fun fs => map (fun f => (parameter f, technique f, severity f)) fs) <$>
    returned (@SQLi.scan_get_params Lab.injectable_server _ _ _ _
                (SQLi.default_scanner "http://target/") Lab.target ["id"] initial_state)
  = Some [("id", "error-based", "High"); ("id", "boolean-blind", "Medium");
          ("id", "time-blind", "High"); ("id", "union-based (cols~1)", "Medium")].
Proof. vm_compute. reflexivity. Qed.


(** C3 as stated fails: the cache is keyed by the parameter name alone.
    After the baseline of ["id"] was taken on [/a], the first baseline
    call for ["id"] on [/b] sends no request and returns the snapshot of
    [/a], although the unmodified request to [/b] would show another
    page. *)
Lemma baseline_reused_across_targets :
  returned (@SQLi._baseline Lab.two_pages_server "http://target/a" "id" initial_state)
    = Some (200%Z, 6, "page A") /\
  returned (@SQLi._baseline Lab.two_pages_server "http://target/b" "id"
              (@SQLi._baseline Lab.two_pages_server "http://target/a" "id" initial_state).2)
    = Some (200%Z, 6, "page A") /\
  sent (@SQLi._baseline Lab.two_pages_server "http://target/b" "id"
          (@SQLi._baseline Lab.two_pages_server "http://target/a" "id" initial_state).2).2
    = [get_request "http://target/a"] /\
  @net Lab.two_pages_server 1 (get_request "http://target/b")
    = Respond 404 "page B" [] 0.1.
Proof. split_and!; vm_compute; reflexivity. Qed.

(** C4 as stated fails on the SQLi scanner: it takes no aggressive flag,
    and a plain scan of one parameter sends all four delay payloads. *)
Lemma sqli_sends_time_payloads_unasked :
  forallb
    (fun inj =>
       bool_decide
         (get_request (_with_param Lab.target "id" (url_safe inj)) ∈
          sent (@SQLi.scan_get_params Lab.quiet_server _ _ _ _
                  (SQLi.default_scanner "http://target/") Lab.target ["id"]
                  initial_state).2))
    (SQLi.time_payloads (SQLi.default_scanner "http://target/")) = true /\
  SQLi.time_payloads (SQLi.default_scanner "http://target/") =
    ["1' OR SLEEP(5)-- "; "1'); SELECT pg_sleep(5); --";
     "1) OR SLEEP(5)-- "; "1) ; SELECT pg_sleep(5); --"].
Proof. split; vm_compute; reflexivity. Qed.


(** A concrete use of [sentinel_is_skipped]: the target is unreachable. *)
Lemma sentinel_is_skipped_witness :
  exists s',
    @SQLi._fetch Lab.down_server Lab.target GET None initial_state = (Ok (0%Z, "", []), s') /\
    probed initial_state s'.
Proof.
  refine (proj1 (@sentinel_is_skipped Lab.down_server _ _ _ _ Lab.target "id" 200 7
                   "Welcome" [] initial_state)
            Lab.target GET None TimeoutError 15%float _ _); reflexivity.
Defined.

(** A concrete use of [baseline_cache_by_parameter]: a first call. *)
Lemma baseline_cache_witness :
  exists s',
    @SQLi._baseline Lab.quiet_server Lab.target "id" initial_state
      = (Ok (200%Z, 7, "Welcome"), s') /\
    sent s' = [get_request Lab.target] /\
    _baselines s' = <["id" := (200%Z, 7, "Welcome")]> ∅ /\
    7 <= 4000.
Proof.
  destruct (@baseline_cache_by_parameter Lab.quiet_server _ _ _ _
              (SQLi.default_scanner "http://target/") Lab.target "id" initial_state)
    as (_ & Hmiss & _).
  exact (Hmiss eq_refl eq_refl).
Defined.


End on_any_server.

(** ** The NoSQL scanner *)

Section nosqli_more.
Context `{!Transport, !Urllib, !Encode, !ResponseDiffer, !Format}.
Import Regex.

(** X4.  The operator-leakage probe of the NoSQL scanner sends one
    request and reports exactly when the response has a status other than
    0 and its body contains one of the operator tokens of [MONGO_HINTS]
    ([$where], [$ne], [$gt], [$regex], [$and], [$or]) in any letter
    case; the baseline is not consulted. *)
Theorem operator_probe_reports (url p : string) (st_b : Z) (snippet : string)
    (findings : list NoSQLiFinding) (s : State) :
  let inj := "{" +:+ dq +:+ "$ne" +:+ dq +:+ ": null}" in
  let e_url := _with_param url p (url_safe inj) in
  let o := net (length (sent s)) (get_request e_url) in
  catchable o = true ->
  exists fs s',
    NoSQLi.operator_probe url p st_b snippet findings s = (Ok fs, s') /\
    sent s' = sent s ++ [get_request e_url] /\
    ((seen o).1 <> 0%Z ->
     (exists L, lit L ∈ NoSQLi.MONGO_HINTS /\ occurs_ci L (seen o).2) ->
     exists f, fs = findings ++ [f] /\
               ns_title f = "NoSQL Injection (operator leakage, GET)" /\
               ns_parameter f = p /\ ns_url f = e_url /\ ns_status f = One (seen o).1) /\
    ((seen o).1 = 0%Z \/
     ~ (exists L, lit L ∈ NoSQLi.MONGO_HINTS /\ occurs_ci L (seen o).2) ->
     fs = findings).
Proof.
  intros inj e_url o Hc. unfold NoSQLi.operator_probe. fold inj. fold e_url.
  rewrite run_bind, nosqli_get_run. fold o.
  destruct o as [st body hdrs t|e t] eqn:Ho; simpl in Hc |- *.
  - destruct (Z.eqb_spec st 0) as [->|Hst]; simpl.
    + eexists _, _. split_and!; [reflexivity | reflexivity | done | done].
    + destruct (bool_decide_reflect (is_Some (search true NoSQLi.MONGO_HINTS_RE body)))
        as [Hs|Hs].
      * eexists _, _. split_and!; [reflexivity | reflexivity | |].
        -- intros _ _. eexists. split_and!; reflexivity.
        -- intros [?|Hno]; [done|]. destruct Hno. by apply mongo_hint_found.
      * eexists _, _. split_and!; [reflexivity | reflexivity | | done].
        intros _ Hyes. destruct Hs. by apply mongo_hint_found.
  - rewrite Hc. simpl.
    eexists _, _. split_and!; [reflexivity | reflexivity | done | done].
Qed.

End nosqli_more.

(** ** The query string built by [_with_param] *)

Section url_facts.
Context `{!Urllib}.

Lemma dict_set_keys (q : list (string * string)) (key value : string) :
  (dict_set q key value).*1 = if bool_decide (key ∈ q.*1) then q.*1 else q.*1 ++ [key].
Proof.
  induction q as [|[k v] q IH]; [done|].
  cbn [dict_set]. destruct (String.eqb_spec k key) as [->|Hne]; rewrite !fmap_cons.
  - rewrite bool_decide_eq_true_2; [done | by left].
  - rewrite IH. cbn [fst]. destruct (bool_decide_reflect (key ∈ q.*1)) as [Hin|Hnin].
    + rewrite bool_decide_eq_true_2; [done | by right].
    + rewrite bool_decide_eq_false_2; [done|].
      intros Hin. apply elem_of_cons in Hin as [->|Hin]; done.
Qed.

Lemma dict_set_NoDup (q : list (string * string)) (key value : string) :
  NoDup q.*1 -> NoDup (dict_set q key value).*1.
Proof.
  intros Hq. rewrite dict_set_keys.
  destruct (bool_decide_reflect (key ∈ q.*1)) as [Hin|Hnin]; [done|].
  apply NoDup_app. split_and!; [done | | apply NoDup_singleton].
  intros x Hx Hk. apply list_elem_of_singleton in Hk as ->. done.
Qed.

Lemma dict_set_map (q : list (string * string)) (key value : string) :
  (list_to_map (dict_set q key value) : gmap string string)
  = <[key := value]> (list_to_map q).
Proof.
  induction q as [|[k v] q IH]; simpl; [done|].
  destruct (String.eqb_spec k key) as [->|Hne]; simpl.
  - by rewrite insert_insert_eq.
  - rewrite IH. by apply insert_insert_ne.
Qed.

Lemma dict_of_pairs_spec (kvs : list (string * string)) :
  NoDup (dict_of_pairs kvs).*1 /\
  (list_to_map (dict_of_pairs kvs) : gmap string string) = list_to_map (reverse kvs).
Proof.
  unfold dict_of_pairs. induction kvs as [|[k v] kvs IH] using rev_ind.
  - split; [constructor | done].
  - rewrite fold_left_app, reverse_app. simpl. destruct IH as [Hnd Hmap].
    split; [by apply dict_set_NoDup|].
    by rewrite dict_set_map, Hmap.
Qed.

(** X9.  [_with_param] replaces or adds exactly one query parameter: the
    query it encodes has every key once, gives [key] the new value, and
    gives every other key of the old query the value of its last
    occurrence (Python's [dict(parse_qsl(...))]): repeated parameters of
    the URL are collapsed.  Nothing but the query of the URL changes. *)
Theorem with_param_query (url key value : string) :
  let parsed := urlparse url in
  exists q : list (string * string),
    _with_param url key value
      = urlunparse (mkParseResult (scheme parsed) (netloc parsed) (path parsed)
                      (params parsed) (urlencode q) (fragment parsed)) /\
    NoDup q.*1 /\
    (list_to_map q : gmap string string)
      = <[key := value]> (list_to_map (reverse (parse_qsl (query parsed)))).
Proof.
  intros parsed.
  exists (dict_set (dict_of_pairs (parse_qsl (query parsed))) key value).
  destruct (dict_of_pairs_spec (parse_qsl (query parsed))) as [Hnd Hmap].
  split_and!; [done | by apply dict_set_NoDup | by rewrite dict_set_map, Hmap].
Qed.

End url_facts.

(** ** Traces: requests sent and findings logged *)

Section trace_rules.
Context {F : Type} {T : Transport} {lf : list LogEntry -> list F}.

Lemma sent_within_refl P c s : sent_within P c s s.
Proof. exists []. rewrite app_nil_r. split_and!; [done | simpl; lia | constructor]. Qed.

Lemma sent_within_trans P c1 c2 s1 s2 s3 :
  sent_within P c1 s1 s2 -> sent_within P c2 s2 s3 -> sent_within P (c1 + c2) s1 s3.
Proof.
  intros (n1 & E1 & L1 & F1) (n2 & E2 & L2 & F2). exists (n1 ++ n2).
  rewrite E2, E1, <- app_assoc, length_app, Forall_app.
  split_and!; [done | lia | done | done].
Qed.

Lemma sent_within_mono (P P' : Request -> Prop) c c' s s' :
  (forall r, P r -> P' r) -> c <= c' -> sent_within P c s s' -> sent_within P' c' s s'.
Proof.
  intros HP Hc (new & E & L & Hall). exists new.
  split_and!; [done | lia | by eapply Forall_impl].
Qed.

(** The end of a probe that did not match. *)
Lemma probe_traced_continue P Q c (findings : list F) s s' :
  sent_within P c s s' -> probed s s' ->
  lf (logger s') = lf (logger s) ->
  wp (mret (Continue, findings))
    (fun r s'' => probe_traced T lf P Q probed c s findings r s'') s'.
Proof. intros. unfold wp; simpl. by split_and!. Qed.

(** *** Loops and sequences of loops *)
Lemma traced_mono (P P' : Request -> Prop) (Q Q' : F -> Prop)
    (R R' : State -> State -> Prop) c c' n n' s findings r s' :
  (forall x, P x -> P' x) -> (forall f, Q f -> Q' f) ->
  (forall a b, R a b -> R' a b) -> c <= c' -> n <= n' ->
  traced T lf P Q R c n s findings r s' -> traced T lf P' Q' R' c' n' s findings r s'.
Proof.
  intros HP HQ HR Hc Hn (Hw & Hr & Hres). split_and!.
  - by eapply sent_within_mono.
  - by apply HR.
  - destruct r as [fs|e]; [|done].
    destruct Hres as (new & -> & Hlen & Hall & Hlog). exists new.
    split_and!; [done | lia | by eapply Forall_impl | done].
Qed.

Lemma traced_ret P Q (R : State -> State -> Prop) `{!Reflexive R} c n s findings :
  traced T lf P Q R c n s findings (Ok findings) s.
Proof.
  split_and!; [apply sent_within_refl | reflexivity |].
  exists []. rewrite !app_nil_r. split_and!; [done | simpl; lia | constructor | done].
Qed.

Lemma traced_trans P Q (R : State -> State -> Prop) `{!Transitive R}
    c1 n1 c2 n2 s0 s1 s2 f0 f1 r :
  traced T lf P Q R c1 n1 s0 f0 (Ok f1) s1 -> traced T lf P Q R c2 n2 s1 f1 r s2 ->
  traced T lf P Q R (c1 + c2) (n1 + n2) s0 f0 r s2.
Proof.
  intros (Hw1 & Hr1 & new1 & -> & Hlen1 & Hall1 & Hlog1) (Hw2 & Hr2 & Hres).
  split_and!; [by eapply sent_within_trans | by etrans |].
  destruct r as [fs|e]; [|done].
  destruct Hres as (new2 & -> & Hlen2 & Hall2 & Hlog2). exists (new1 ++ new2).
  rewrite length_app, Forall_app, Hlog2, Hlog1, <- !app_assoc.
  split_and!; [done | lia | done | done | done].
Qed.

Lemma traced_bind P Q (R : State -> State -> Prop) `{!Transitive R} {B}
    c1 n1 c2 n2 s findings (m : M B) (k : B -> M (list F)) (mid : B -> list F) :
  wp m (fun r s1 => match r with
                    | Ok b => traced T lf P Q R c1 n1 s findings (Ok (mid b)) s1
                    | Raised e => traced T lf P Q R c1 n1 s findings (Raised e) s1
                    end) s ->
  (forall b s1, wp (k b) (fun r s' => traced T lf P Q R c2 n2 s1 (mid b) r s') s1) ->
  wp (m ≫= k) (fun r s' => traced T lf P Q R (c1 + c2) (n1 + n2) s findings r s') s.
Proof.
  intros Hm Hk. apply wp_bind. eapply wp_mono; [|exact Hm].
  intros [b|e] s1 Hfirst; simpl.
  - eapply wp_mono; [|apply Hk]. intros r s' Hnext. by eapply traced_trans.
  - eapply traced_mono; [..|exact Hfirst]; auto; lia.
Qed.

(** A loop of probes that stops at its first match. *)
Lemma loop_traced {X} P Q c (body : X -> list F -> M (ctl * list F)) :
  (forall x findings s,
     wp (body x findings) (fun r s' => probe_traced T lf P Q probed c s findings r s') s) ->
  forall xs findings s,
    wp (for_each xs body findings)
      (fun r s' => traced T lf P Q probed (c * length xs) 1 s findings r s') s.
Proof.
  intros Hbody. induction xs as [|x xs IH]; intros findings s.
  - unfold wp. rewrite for_each_nil. simpl. apply traced_ret, _.
  - unfold wp. rewrite for_each_cons.
    specialize (Hbody x findings s). unfold wp in Hbody.
    destruct (body x findings s) as [[[[|] fs]|e] s1]; simpl in *;
      destruct Hbody as (Hw & Hp & Hres).
    + destruct Hres as [-> Hlog]. specialize (IH findings s1). unfold wp in IH.
      replace (c * S (length xs)) with (c + c * length xs) by lia.
      apply (traced_trans _ _ probed c 0 _ 1 s s1 _ findings findings); [|exact IH].
      split_and!; [done | done |]. exists []. rewrite !app_nil_r.
      split_and!; [done | simpl; lia | constructor | done].
    + destruct Hres as (f & -> & HQ & Hlog). split_and!.
      * eapply sent_within_mono; [| |exact Hw]; [done | lia].
      * done.
      * exists [f]. split_and!; [done | simpl; lia | by constructor | done].
    + split_and!; [|done|done]. eapply sent_within_mono; [| |exact Hw]; [done | lia].
Qed.

(** A loop whose body runs to its end every time ([for p in params]). *)
Lemma loop_traced_all {X} (P : Request -> Prop) (Q : F -> Prop)
    (R : State -> State -> Prop) `{!PreOrder R} c n
    (g : X -> list F -> M (list F)) (xs0 : list X) :
  (forall x findings s, x ∈ xs0 ->
     wp (g x findings) (fun r s' => traced T lf P Q R c n s findings r s') s) ->
  forall xs findings s, xs ⊆ xs0 ->
    wp (for_each xs (fun x acc => fs ← g x acc; mret (Continue, fs)) findings)
      (fun r s' => traced T lf P Q R (c * length xs) (n * length xs) s findings r s') s.
Proof.
  intros Hg. induction xs as [|x xs IH]; intros findings s Hsub.
  - unfold wp. rewrite for_each_nil. simpl. apply traced_ret, _.
  - unfold wp. rewrite for_each_cons, run_bind.
    assert (Hx : x ∈ xs0) by (apply Hsub; by left).
    specialize (Hg x findings s Hx). unfold wp in Hg.
    destruct (g x findings s) as [[fs|e] s1]; simpl in *.
    + assert (Hsub' : xs ⊆ xs0) by (intros y Hy; apply Hsub; by right).
      specialize (IH fs s1 Hsub'). unfold wp in IH.
      replace (c * S (length xs)) with (c + c * length xs) by lia.
      replace (n * S (length xs)) with (n + n * length xs) by lia.
      exact (traced_trans P Q R _ _ _ _ _ _ _ _ _ _ Hg IH).
    + eapply traced_mono; [..|exact Hg]; auto; lia.
Qed.


Lemma for_each_ext {X A} (body body' : X -> A -> M (ctl * A)) (xs : list X) :
  (forall x acc s, body x acc s = body' x acc s) ->
  forall acc s, for_each xs body acc s = for_each xs body' acc s.
Proof.
  intros Hext. induction xs as [|x xs IH]; intros acc s; [done|].
  rewrite !for_each_cons, Hext.
  destruct (body' x acc s) as [[[[|] acc']|e] s']; [apply IH | done | done].
Qed.

End trace_rules.

(** ** Traces of the SQLi scanner *)

Section trace_facts.
Context {T : Transport} `{!Urllib, !Encode, !ResponseDiffer, !Format}.
Import SQLi.

Lemma logged_findings_app (l1 l2 : list LogEntry) :
  logged_findings (l1 ++ l2) = logged_findings l1 ++ logged_findings l2.
Proof. apply omap_app. Qed.

(** What one call of [_fetch] leaves behind. *)
Lemma fetch_traced (P : Request -> Prop) (u : string) (method : http_method)
    (data : option (gmap string string)) (s : State) :
  let r := match method with GET => get_request u | POST => mkRequest POST u data end in
  P r ->
  wp (_fetch u method data)
    (fun res s' =>
       sent_within P 1 s s' /\ probed s s' /\
       logged_findings (logger s') = logged_findings (logger s) /\
       match res with
       | Ok _ => True
       | Raised e => escaped _ e
       end) s.
Proof.
  intros r HP. unfold wp. rewrite fetch_run. fold r.
  assert (Hone : forall t, sent_within P 1 s (after_request r t s)).
  { intros t. exists [r]. split_and!; [done | simpl; lia | by constructor]. }
  destruct (net _ _) as [st body hdrs t|e t] eqn:Hnet; simpl.
  - split_and!; auto with scan.
  - destruct (is_Exception e) eqn:He; simpl.
    + split_and!; [apply (Hone t) | | | done].
      * eapply probed_trans; [apply probed_after_request | apply probed_after_log].
      * rewrite logged_findings_app. simpl. apply app_nil_r.
    + split_and!; auto with scan. split; eauto.
Qed.

(** What one call of [_report] leaves behind. *)
Lemma report_traced title u p technique evidence bs st bl nl tm s :
  exists f,
    _report title u p technique evidence bs st bl nl tm s =
      (Ok f, after_log (LogFinding "SQL Injection" u (technique +:+ ": " +:+ evidence)
                          (severity_of technique) (MetaSQLi f)) s) /\
    f = mkFinding title "Injection/SQLi" u p technique evidence bs st bl nl tm
          (severity_of technique) recommendation_text /\
    logged_findings (logger (after_log (LogFinding "SQL Injection" u
                                          (technique +:+ ": " +:+ evidence)
                                          (severity_of technique) (MetaSQLi f)) s))
      = logged_findings (logger s) ++ [f].
Proof.
  destruct (report_run title u p technique evidence bs st bl nl tm s) as (f & Hrun & Hf).
  exists f. split_and!; [done | done |].
  simpl. by rewrite logged_findings_app.
Qed.


Lemma get_probe_here url p v : get_probe_of url [p] (get_request (_with_param url p v)).
Proof. right. exists p, v. split; [by left | done]. Qed.

Lemma post_probe_here url form p v :
  post_probe_of url form [p] (mkRequest POST url (form_data (dict_set form p v))).
Proof.
  exists p, v. split; [by left|].
  unfold form_data, post_request. by rewrite dict_set_map.
Qed.

(** The end of a probe that matched: the finding is logged and returned. *)
Lemma probe_traced_break P (Q : Finding -> Prop) c (findings : list Finding) s s'
    title u p technique evidence bs st bl nl tm :
  sent_within P c s s' -> probed s s' ->
  logged_findings (logger s') = logged_findings (logger s) ->
  Q (mkFinding title "Injection/SQLi" u p technique evidence bs st bl nl tm
       (severity_of technique) recommendation_text) ->
  wp (f ← _report title u p technique evidence bs st bl nl tm;
      mret (Break, findings ++ [f]))
    (fun r s'' => probe_traced T logged_findings P Q probed c s findings r s'') s'.
Proof.
  intros Hw Hp Hlog HQ. apply wp_bind. unfold wp at 1.
  destruct (report_traced title u p technique evidence bs st bl nl tm s')
    as (f & -> & Hf & Hlf).
  simpl. unfold wp; simpl. split_and!.
  - exact Hw.
  - etrans; [exact Hp | apply probed_after_log].
  - exists f. split_and!; [done | by subst f |].
    rewrite <- Hlog. exact Hlf.
Qed.

Lemma error_probe_traced url p bs bl inj findings s :
  wp (error_probe url p bs bl inj findings)
    (fun r s' => probe_traced T logged_findings (get_probe_of url [p]) (of_kind ErrorBased p) probed
                   1 s findings r s') s.
Proof.
  unfold error_probe. apply wp_bind.
  eapply wp_mono; [|apply (fetch_traced (get_probe_of url [p])), get_probe_here].
  intros [[[st body] hdrs]|e] s1 (Hw & Hp & Hlog & Hr); simpl; [|by split_and!].
  destruct (st =? 0)%Z; [by apply probe_traced_continue|].
  destruct (_looks_like_db_error body) as [err|]; [|by apply probe_traced_continue].
  destruct (truthy err); [|by apply probe_traced_continue].
  apply probe_traced_break; [done | done | done | by repeat split].
Qed.

Lemma boolean_probe_traced url p bs bl snippet pair findings s :
  wp (boolean_probe url p bs bl snippet pair findings)
    (fun r s' => probe_traced T logged_findings (get_probe_of url [p]) (of_kind BooleanBlind p) probed
                   2 s findings r s') s.
Proof.
  unfold boolean_probe. destruct pair as [t f_val]. apply wp_bind.
  eapply wp_mono; [|apply (fetch_traced (get_probe_of url [p])), get_probe_here].
  intros [[[st_t body_t] hdrs_t]|e] s1 (Hw1 & Hp1 & Hlog1 & Hr1); simpl.
  2: { split_and!; [|done|done]. eapply sent_within_mono; [| |exact Hw1]; [done|lia]. }
  apply wp_bind.
  eapply wp_mono; [|apply (fetch_traced (get_probe_of url [p])), get_probe_here].
  intros [[[st_f body_f] hdrs_f]|e] s2 (Hw2 & Hp2 & Hlog2 & Hr2); simpl.
  all: assert (Hw : sent_within (get_probe_of url [p]) 2 s s2)
         by apply (sent_within_trans _ 1 1 _ _ _ Hw1 Hw2).
  all: assert (Hp : probed s s2) by (etrans; eauto).
  2: by split_and!.
  assert (Hlog : logged_findings (logger s2) = logged_findings (logger s)) by congruence.
  destruct ((st_t =? 0)%Z || (st_f =? 0)%Z); [by apply probe_traced_continue|].
  match goal with |- wp (if ?c then _ else _) _ _ => destruct c end;
    [|by apply probe_traced_continue].
  apply probe_traced_break; [done | done | done | by repeat split].
Qed.

Lemma time_probe_traced url p bs bl inj findings s :
  wp (time_probe url p bs bl inj findings)
    (fun r s' => probe_traced T logged_findings (get_probe_of url [p]) (of_kind TimeBlind p) probed
                   1 s findings r s') s.
Proof.
  unfold time_probe. apply wp_bind. unfold wp at 1. simpl.
  apply wp_bind.
  eapply wp_mono; [|apply (fetch_traced (get_probe_of url [p])), get_probe_here].
  intros [[[st body] hdrs]|e] s1 (Hw & Hp & Hlog & Hr); simpl; [|by split_and!].
  apply wp_bind. unfold wp at 1. simpl.
  destruct (st =? 0)%Z; [by apply probe_traced_continue|].
  match goal with |- wp (if ?c then _ else _) _ _ => destruct c end;
    [|by apply probe_traced_continue].
  apply probe_traced_break; [done | done | done | by repeat split].
Qed.

Lemma union_probe_traced url p bs bl snippet cols findings s :
  wp (union_probe url p bs bl snippet cols findings)
    (fun r s' => probe_traced T logged_findings (get_probe_of url [p]) (of_kind UnionBased p) probed
                   1 s findings r s') s.
Proof.
  unfold union_probe. apply wp_bind.
  eapply wp_mono; [|apply (fetch_traced (get_probe_of url [p])), get_probe_here].
  intros [[[st body] hdrs]|e] s1 (Hw & Hp & Hlog & Hr); simpl; [|by split_and!].
  destruct (st =? 0)%Z; [by apply probe_traced_continue|].
  match goal with |- wp (if ?c then _ else _) _ _ => destruct c end;
    [|by apply probe_traced_continue].
  apply probe_traced_break; [done | done | done |].
  repeat split. by exists cols.
Qed.

Lemma error_probe_post_traced url form p baseline inj findings s :
  wp (error_probe_post url form p baseline inj findings)
    (fun r s' => probe_traced T logged_findings (post_probe_of url form [p]) (post_finding url p) probed
                   1 s findings r s') s.
Proof.
  unfold error_probe_post. apply wp_bind.
  eapply wp_mono; [|apply (fetch_traced (post_probe_of url form [p])), post_probe_here].
  intros [[[st body] hdrs]|e] s1 (Hw & Hp & Hlog & Hr); simpl; [|by split_and!].
  destruct (st =? 0)%Z; [by apply probe_traced_continue|].
  destruct (_looks_like_db_error body) as [err|]; [|by apply probe_traced_continue].
  destruct (truthy err); [|by apply probe_traced_continue].
  apply probe_traced_break; [done | done | done |].
  split_and!; [done | done | done | by left].
Qed.

Lemma boolean_probe_post_traced url form p baseline pair findings s :
  wp (boolean_probe_post url form p baseline pair findings)
    (fun r s' => probe_traced T logged_findings (post_probe_of url form [p]) (post_finding url p) probed
                   2 s findings r s') s.
Proof.
  unfold boolean_probe_post. destruct pair as [t f_val]. apply wp_bind.
  eapply wp_mono; [|apply (fetch_traced (post_probe_of url form [p])), post_probe_here].
  intros [[[st_t body_t] hdrs_t]|e] s1 (Hw1 & Hp1 & Hlog1 & Hr1); simpl.
  2: { split_and!; [|done|done]. eapply sent_within_mono; [| |exact Hw1]; [done|lia]. }
  apply wp_bind.
  eapply wp_mono; [|apply (fetch_traced (post_probe_of url form [p])), post_probe_here].
  intros [[[st_f body_f] hdrs_f]|e] s2 (Hw2 & Hp2 & Hlog2 & Hr2); simpl.
  all: assert (Hw : sent_within (post_probe_of url form [p]) 2 s s2)
         by apply (sent_within_trans _ 1 1 _ _ _ Hw1 Hw2).
  all: assert (Hp : probed s s2) by (etrans; eauto).
  2: by split_and!.
  assert (Hlog : logged_findings (logger s2) = logged_findings (logger s)) by congruence.
  destruct ((st_t =? 0)%Z || (st_f =? 0)%Z); [by apply probe_traced_continue|].
  match goal with |- wp (if ?c then _ else _) _ _ => destruct c end;
    [|by apply probe_traced_continue].
  apply probe_traced_break; [done | done | done |].
  split_and!; [done | done | done | by right; left].
Qed.

Lemma time_probe_post_traced url form p baseline inj findings s :
  wp (time_probe_post url form p baseline inj findings)
    (fun r s' => probe_traced T logged_findings (post_probe_of url form [p]) (post_finding url p) probed
                   1 s findings r s') s.
Proof.
  unfold time_probe_post. apply wp_bind. unfold wp at 1. simpl.
  apply wp_bind.
  eapply wp_mono; [|apply (fetch_traced (post_probe_of url form [p])), post_probe_here].
  intros [[[st body] hdrs]|e] s1 (Hw & Hp & Hlog & Hr); simpl; [|by split_and!].
  apply wp_bind. unfold wp at 1. simpl.
  destruct (st =? 0)%Z; [by apply probe_traced_continue|].
  match goal with |- wp (if ?c then _ else _) _ _ => destruct c end;
    [|by apply probe_traced_continue].
  apply probe_traced_break; [done | done | done |].
  split_and!; [done | done | done | by right; right].
Qed.


(** *** The GET scan *)
Lemma baseline_traced (Q : Finding -> Prop) url p s findings :
  wp (_baseline url p)
    (fun r s' =>
       match r with
       | Ok _ => traced T logged_findings (get_probe_of url [p]) Q grows 1 0 s findings (Ok findings) s'
       | Raised e => traced T logged_findings (get_probe_of url [p]) Q grows 1 0 s findings (Raised e) s'
       end) s.
Proof.
  pose proof (baseline_grows url p s) as Hgrow.
  assert (Hrest : wp (_baseline url p)
    (fun r s' =>
       sent_within (get_probe_of url [p]) 1 s s' /\
       logged_findings (logger s') = logged_findings (logger s) /\
       match r with Ok _ => True | Raised e => escaped T e end) s).
  { unfold _baseline. apply wp_bind. unfold wp at 1. simpl.
    destruct (_baselines s !! p) as [cached|] eqn:Hc.
    - unfold wp; simpl. split_and!; [apply sent_within_refl | done | done].
    - apply wp_bind.
      eapply wp_mono; [|apply (fetch_traced (get_probe_of url [p])); by left].
      intros [[[st body] hdrs]|e] s1 (Hw & Hp & Hlog & Hr); simpl; [|done].
      unfold wp; simpl. by split_and!. }
  unfold wp in *. destruct (_baseline url p s) as [[b|e] s']; simpl in *;
    destruct Hrest as (Hw & Hlog & Hr).
  - split_and!; [done | done |]. exists []. rewrite !app_nil_r.
    split_and!; [done | simpl; lia | constructor | done].
  - by split_and!.
Qed.

Lemma probed_loop_grows {X} P Q c n (body : X -> list Finding -> M (ctl * list Finding))
    xs findings s :
  wp (for_each xs body findings)
    (fun r s' => traced T logged_findings P Q probed c n s findings r s') s ->
  wp (for_each xs body findings)
    (fun r s' => traced T logged_findings P Q grows c n s findings r s') s.
Proof.
  apply wp_mono. intros r s'. apply traced_mono; auto. apply probed_grows.
Qed.

Lemma scan_param_traced self url p findings s :
  wp (scan_param self url p findings)
    (fun r s' => traced T logged_findings (get_probe_of url [p]) (fun f => exists k, of_kind k p f) grows
                   (requests_per_param self) 4 s findings r s') s.
Proof.
  unfold scan_param.
  eapply wp_mono; cycle 1.
  - eapply (traced_bind (get_probe_of url [p]) (fun f => exists k, of_kind k p f) grows
             1 0 _ _ s findings _ _ (fun _ => findings)).
    + apply baseline_traced.
    + intros [[bs bl] snippet] s1.
      eapply (traced_bind _ _ grows _ _ _ _ s1 findings _ _ id).
      { eapply wp_mono; [|eapply probed_loop_grows, loop_traced, error_probe_traced].
        intros [fs|e] s2; apply traced_mono; eauto. }
      intros fs1 s2. eapply (traced_bind _ _ grows _ _ _ _ s2 fs1 _ _ id).
      { eapply wp_mono; [|eapply probed_loop_grows, loop_traced, boolean_probe_traced].
        intros [fs|e] s3; apply traced_mono; eauto. }
      intros fs2 s3. eapply (traced_bind _ _ grows _ _ _ _ s3 fs2 _ _ id).
      { eapply wp_mono; [|eapply probed_loop_grows, loop_traced, time_probe_traced].
        intros [fs|e] s4; apply traced_mono; eauto. }
      intros fs3 s4. eapply (traced_bind _ _ grows _ _ 0 0 s4 fs3 _ _ id).
      { eapply wp_mono; [|eapply probed_loop_grows, loop_traced, union_probe_traced].
        intros [fs|e] s5; apply traced_mono; eauto. }
      intros fs4 s5. unfold wp; simpl. apply traced_ret, _.
  - intros r s'. apply traced_mono; auto; try lia.
    unfold requests_per_param, range_1. rewrite length_seq. lia.
Qed.

Lemma scan_get_params_traced self url params s :
  wp (scan_get_params self url params)
    (fun r s' => traced T logged_findings (get_probe_of url params)
                   (fun f => exists k p, p ∈ params /\ of_kind k p f) grows
                   (requests_per_param self * length params) (4 * length params)
                   s [] r s') s.
Proof.
  unfold scan_get_params. apply (loop_traced_all _ _ grows _ _ _ params); [|done].
  intros p findings s0 Hp. eapply wp_mono; [|apply scan_param_traced].
  intros r s'. apply traced_mono; auto.
  - intros x [->|(p' & v & Hin & ->)]; [by left|].
    apply list_elem_of_singleton in Hin as ->. right. by exists p, v.
  - intros f [k Hk]. by exists k, p.
Qed.

(** *** The POST scan *)
Lemma scan_field_traced self url form p baseline findings s :
  wp (findings ← for_each (error_payloads self)
                   (error_probe_post url form p baseline) findings;
      findings ← for_each (boolean_pairs self)
                   (boolean_probe_post url form p baseline) findings;
      findings ← for_each (time_payloads self)
                   (time_probe_post url form p baseline) findings;
      mret findings)
    (fun r s' => traced T logged_findings (post_probe_of url form [p]) (post_finding url p) probed
                   (requests_per_field self) 3 s findings r s') s.
Proof.
  eapply wp_mono; cycle 1.
  - eapply (traced_bind _ _ probed _ _ _ _ s findings _ _ id).
    { eapply wp_mono; [|eapply loop_traced, error_probe_post_traced].
      intros [fs|e] s2; apply traced_mono; eauto. }
    intros fs1 s2. eapply (traced_bind _ _ probed _ _ _ _ s2 fs1 _ _ id).
    { eapply wp_mono; [|eapply loop_traced, boolean_probe_post_traced].
      intros [fs|e] s3; apply traced_mono; eauto. }
    intros fs2 s3. eapply (traced_bind _ _ probed _ _ 0 0 s3 fs2 _ _ id).
    { eapply wp_mono; [|eapply loop_traced, time_probe_post_traced].
      intros [fs|e] s4; apply traced_mono; eauto. }
    intros fs3 s4. unfold wp; simpl. apply traced_ret, _.
  - intros r s'. apply traced_mono; auto; unfold requests_per_field; lia.
Qed.


Lemma scan_post_form_traced self url form target_params s :
  let targets := fields_to_test form target_params in
  wp (scan_post_form self url form target_params)
    (fun r s' =>
       exists s1,
         sent s1 = sent s ++ [post_request url (list_to_map form)] /\
         logged_findings (logger s1) = logged_findings (logger s) /\
         _baselines s1 = _baselines s /\
         traced T logged_findings (post_probe_of url form targets)
           (fun f => exists p, p ∈ targets /\ post_finding url p f) probed
           (requests_per_field self * length targets) (3 * length targets)
           s1 [] r s') s.
Proof.
  intros targets. unfold scan_post_form. fold targets. apply wp_bind.
  unfold wp at 1. rewrite fetch_run.
  change (mkRequest POST url (form_data form)) with (post_request url (list_to_map form)).
  set (r0 := post_request url (list_to_map form)).
  assert (Hraised : forall e st,
    escaped T e -> sent st = sent s ++ [r0] ->
    logged_findings (logger st) = logged_findings (logger s) ->
    _baselines st = _baselines s ->
    exists s1, sent s1 = sent s ++ [r0] /\
      logged_findings (logger s1) = logged_findings (logger s) /\
      _baselines s1 = _baselines s /\
      traced T logged_findings (post_probe_of url form targets)
        (fun f => exists p, p ∈ targets /\ post_finding url p f) probed
        (requests_per_field self * length targets) (3 * length targets)
        s1 [] (Raised e) st).
  { intros e st He Hs Hl Hb. exists st. split_and!; try done.
    split_and!; [apply sent_within_refl | reflexivity | done]. }
  assert (Hloop : forall b st,
    sent st = sent s ++ [r0] ->
    logged_findings (logger st) = logged_findings (logger s) ->
    _baselines st = _baselines s ->
    wp (for_each targets
          (fun p findings =>
             findings ← for_each (error_payloads self)
                          (error_probe_post url form p b) findings;
             findings ← for_each (boolean_pairs self)
                          (boolean_probe_post url form p b) findings;
             findings ← for_each (time_payloads self)
                          (time_probe_post url form p b) findings;
             mret (Continue, findings)) [])
      (fun r s' =>
         exists s1, sent s1 = sent s ++ [r0] /\
           logged_findings (logger s1) = logged_findings (logger s) /\
           _baselines s1 = _baselines s /\
           traced T logged_findings (post_probe_of url form targets)
             (fun f => exists p, p ∈ targets /\ post_finding url p f) probed
             (requests_per_field self * length targets) (3 * length targets)
             s1 [] r s') st).
  { intros b st Hs Hl Hb. unfold wp.
    rewrite (for_each_ext _
      (fun p acc =>
         fs ← (findings ← for_each (error_payloads self)
                            (error_probe_post url form p b) acc;
               findings ← for_each (boolean_pairs self)
                            (boolean_probe_post url form p b) findings;
               findings ← for_each (time_payloads self)
                            (time_probe_post url form p b) findings;
               mret findings);
         mret (Continue, fs))).
    2: { intros x acc s0. rewrite !run_bind.
         destruct (for_each (error_payloads self) _ acc s0) as [[f1|e] s1]; [|done].
         rewrite !run_bind.
         destruct (for_each (boolean_pairs self) _ f1 s1) as [[f2|e] s2]; [|done].
         rewrite !run_bind.
         destruct (for_each (time_payloads self) _ f2 s2) as [[f3|e] s3]; done. }
    exists st. split_and!; [done | done | done |].
    apply (loop_traced_all _ _ probed _ _ _ targets); [|done].
    intros p findings s0 Hp. eapply wp_mono; [|apply scan_field_traced].
    intros r s'. apply traced_mono; auto.
    - intros x (p' & v & Hin & ->). apply list_elem_of_singleton in Hin as ->.
      by exists p, v.
    - intros f Hf. by exists p. }
  destruct (net _ _) as [st body hdrs t|e t] eqn:Hnet; simpl.
  - apply Hloop; done.
  - destruct (is_Exception e) eqn:He; simpl.
    + apply Hloop; [done | | done].
      unfold after_log, logger at 1. rewrite logged_findings_app. simpl. apply app_nil_r.
    + apply Hraised; [|done..]. split; eauto.
Qed.

(** X5.  The request budget of the GET scan: [scan_get_params] sends at
    most (1 + error payloads + 2 × boolean pairs + time payloads + UNION
    column guesses) requests per parameter, and every one of them is a
    GET request for the scanned URL itself (the baseline) or for that URL
    with one of the scanned parameters replaced; no other URL is
    requested and nothing is posted. *)
Theorem sqli_get_scan_requests (self : SQLiScanner) (url : string) (params : list string)
    (s : State) :
  sent_within (get_probe_of url params) (requests_per_param self * length params)
    s (scan_get_params self url params s).2.
Proof.
  pose proof (scan_get_params_traced self url params s) as Ht. unfold wp in Ht.
  by destruct Ht as (Hw & _).
Qed.

(** X6.  Whenever [scan_get_params] returns, the findings it returns
    are the findings it handed to [log_finding], in the same order, and
    nothing else was logged as a SQLi finding; there are at most four per
    parameter, each for one of the scanned parameters. *)
Theorem sqli_get_scan_logs_findings (self : SQLiScanner) (url : string)
    (params : list string) (s : State) :
  match scan_get_params self url params s with
  | (Ok fs, s') =>
      logged_findings (logger s') = logged_findings (logger s) ++ fs /\
      length fs <= 4 * length params /\
      Forall (fun f => parameter f ∈ params) fs
  | (Raised e, _) => True
  end.
Proof.
  pose proof (scan_get_params_traced self url params s) as Ht. unfold wp in Ht.
  destruct (scan_get_params self url params s) as [[fs|e] s']; simpl in Ht;
    destruct Ht as (_ & _ & Hres); [|done].
  destruct Hres as (new & -> & Hlen & Hall & Hlog). simpl.
  split_and!; [done | done |].
  eapply Forall_impl; [exact Hall|]. intros f (k & p & Hin & Hp & _). by rewrite Hp.
Qed.

(** X7.  "Only mutates fields listed in target_params (or all if None)":
    [scan_post_form] first posts the form as it is, and every later
    request posts, to the same URL, the form with one field overwritten —
    a field of [target_params], or any field of the form when
    [target_params] is [None] or empty; at most (error payloads + 2 ×
    boolean pairs + time payloads) requests per field.  The baseline
    cache of the GET scan is neither read nor written. *)
Theorem sqli_post_scan_requests (self : SQLiScanner) (url : string)
    (form : list (string * string)) (target_params : option (list string)) (s : State) :
  let targets := fields_to_test form target_params in
  let s' := (scan_post_form self url form target_params s).2 in
  exists new,
    sent s' = sent s ++ post_request url (list_to_map form) :: new /\
    length new <= requests_per_field self * length targets /\
    Forall (post_probe_of url form targets) new /\
    _baselines s' = _baselines s.
Proof.
  intros targets s'.
  pose proof (scan_post_form_traced self url form target_params s) as Ht.
  unfold wp in Ht. cbv zeta in Ht. fold targets in Ht. fold s' in Ht.
  destruct Ht as (s1 & Hs1 & _ & Hb1 & (new & Hnew & Hlen & Hall) & [_ Hb] & _).
  exists new. rewrite Hnew, Hs1, <- app_assoc. by rewrite Hb, Hb1.
Qed.

(** X8.  The findings of the POST scan: at most three per tested field
    (error-based, boolean-blind, time-blind; there is no UNION probe for
    forms), each for a tested field and the form's URL, each handed to
    [log_finding] in the order returned. *)
Theorem sqli_post_scan_findings (self : SQLiScanner) (url : string)
    (form : list (string * string)) (target_params : option (list string)) (s : State) :
  let targets := fields_to_test form target_params in
  match scan_post_form self url form target_params s with
  | (Ok fs, s') =>
      length fs <= 3 * length targets /\
      Forall (fun f => exists p, p ∈ targets /\ post_finding url p f) fs /\
      logged_findings (logger s') = logged_findings (logger s) ++ fs
  | (Raised e, _) => escaped T e
  end.
Proof.
  intros targets.
  pose proof (scan_post_form_traced self url form target_params s) as Ht.
  unfold wp in Ht. cbv zeta in Ht. fold targets in Ht.
  destruct (scan_post_form self url form target_params s) as [[fs|e] s']; simpl in Ht;
    destruct Ht as (s1 & _ & Hl1 & _ & _ & _ & Hres); [|done].
  destruct Hres as (new & -> & Hlen & Hall & Hlog). simpl.
  split_and!; [done | done | by rewrite Hlog, Hl1].
Qed.


End trace_facts.

(** ** Traces of the NoSQL scanner *)

Section nosqli_traces.
Context {T : Transport} `{!Urllib, !Encode, !ResponseDiffer, !Format}.

Lemma nosqli_get_traced (P : Request -> Prop) (u : string) (s : State) :
  P (get_request u) ->
  wp (NoSQLi._get u)
    (fun res s' =>
       sent s' = sent s ++ [get_request u] /\ sent_within P 1 s s' /\ probed s s' /\
       logged_nosqli_findings (logger s') = logged_nosqli_findings (logger s) /\
       match res with
       | Ok _ => True
       | Raised e => escaped T e
       end) s.
Proof.
  intros HP. unfold wp. rewrite nosqli_get_run.
  assert (Hone : forall t, sent_within P 1 s (after_request (get_request u) t s)).
  { intros t. exists [get_request u]. split_and!; [done | simpl; lia | by constructor]. }
  destruct (net _ _) as [st body hdrs t|e t] eqn:Hnet; simpl.
  - split_and!; auto with scan.
  - destruct (is_Exception e) eqn:He; simpl.
    + split_and!; [done | apply (Hone t) | | | done].
      * eapply probed_trans; [apply probed_after_request | apply probed_after_log].
      * unfold logged_nosqli_findings. rewrite omap_app. simpl. apply app_nil_r.
    + split_and!; auto with scan. split; eauto.
Qed.

Lemma param_probe_here url p v : param_probe_of url [p] (get_request (_with_param url p v)).
Proof. exists p, v. split; [by left | done]. Qed.

Lemma nosqli_boolean_traced url p st_b snippet pair findings s :
  wp (NoSQLi.boolean_probe url p st_b snippet pair findings)
    (fun r s' => probe_traced T logged_nosqli_findings (param_probe_of url [p])
                   (nosqli_finding p) probed 2 s findings r s') s.
Proof.
  unfold NoSQLi.boolean_probe. destruct pair as [t f_val]. apply wp_bind.
  eapply wp_mono; [|apply (nosqli_get_traced (param_probe_of url [p])), param_probe_here].
  intros [[st_t body_t]|e] s1 (_ & Hw1 & Hp1 & Hlog1 & Hr1); simpl.
  2: { split_and!; [|done|done]. eapply sent_within_mono; [| |exact Hw1]; [done|lia]. }
  apply wp_bind.
  eapply wp_mono; [|apply (nosqli_get_traced (param_probe_of url [p])), param_probe_here].
  intros [[st_f body_f]|e] s2 (_ & Hw2 & Hp2 & Hlog2 & Hr2); simpl.
  all: assert (Hw : sent_within (param_probe_of url [p]) 2 s s2)
         by apply (sent_within_trans _ 1 1 _ _ _ Hw1 Hw2).
  all: assert (Hp : probed s s2) by (etrans; eauto).
  2: by split_and!.
  assert (Hlog : logged_nosqli_findings (logger s2) = logged_nosqli_findings (logger s))
    by congruence.
  destruct ((st_t =? 0)%Z || (st_f =? 0)%Z); [by apply probe_traced_continue|].
  match goal with |- wp (if ?c then _ else _) _ _ => destruct c end;
    [|by apply probe_traced_continue].
  unfold wp; simpl. split_and!; [done | |].
  - etrans; [exact Hp | apply probed_after_log].
  - eexists. split_and!; [done | done |].
    rewrite <- Hlog. unfold logged_nosqli_findings. cbn [logger]. by rewrite omap_app.
Qed.

Lemma nosqli_operator_traced url p st_b snippet findings s :
  wp (NoSQLi.operator_probe url p st_b snippet findings)
    (fun r s' => traced T logged_nosqli_findings (param_probe_of url [p])
                   (nosqli_finding p) probed 1 1 s findings r s') s.
Proof.
  unfold NoSQLi.operator_probe. apply wp_bind.
  eapply wp_mono; [|apply (nosqli_get_traced (param_probe_of url [p])), param_probe_here].
  intros [[st body]|e] s1 (_ & Hw & Hp & Hlog & Hr); simpl; [|by split_and!].
  match goal with |- wp (if ?c then _ else _) _ _ => destruct c end.
  - unfold wp; simpl. split_and!; [done | |].
    + etrans; [exact Hp | apply probed_after_log].
    + eexists [_]. split_and!; [done | simpl; lia | by repeat constructor |].
      rewrite <- Hlog. unfold logged_nosqli_findings. cbn [logger]. by rewrite omap_app.
  - unfold wp; simpl. split_and!; [done | done |].
    exists []. rewrite !app_nil_r. split_and!; [done | simpl; lia | constructor | done].
Qed.

Lemma nosqli_param_traced url p st_b snippet findings s :
  wp (findings ← for_each NoSQLi.boolean_pairs
                   (NoSQLi.boolean_probe url p st_b snippet) findings;
      findings ← NoSQLi.operator_probe url p st_b snippet findings;
      mret findings)
    (fun r s' => traced T logged_nosqli_findings (param_probe_of url [p])
                   (nosqli_finding p) probed 7 2 s findings r s') s.
Proof.
  eapply wp_mono; cycle 1.
  - eapply (traced_bind _ _ probed _ _ _ _ s findings _ _ id).
    { eapply wp_mono; [|eapply loop_traced, nosqli_boolean_traced].
      intros [fs|e] s2; apply traced_mono; eauto. }
    intros fs1 s2. eapply (traced_bind _ _ probed _ _ 0 0 s2 fs1 _ _ id).
    { eapply wp_mono; [|apply nosqli_operator_traced].
      intros [fs|e] s3; apply traced_mono; eauto. }
    intros fs2 s3. unfold wp; simpl. apply traced_ret, _.
  - intros r s'. apply traced_mono; auto; simpl; lia.
Qed.

(** X10.  The NoSQL GET scan requests the unmodified URL once, first,
    on every call (also for an empty parameter list: it keeps no baseline
    cache), then at most seven probes per parameter (three boolean pairs
    and the operator probe), each a GET of the URL with one scanned
    parameter replaced.  It returns at most two findings per parameter
    (one boolean, one operator leakage), each of severity High and each
    handed to [log_finding] in the order returned. *)
Theorem nosqli_scan_trace (url : string) (params : list string) (s : State) :
  let run := NoSQLi.scan_get_params url params s in
  (exists new,
     sent run.2 = sent s ++ get_request url :: new /\
     length new <= 7 * length params /\
     Forall (param_probe_of url params) new) /\
  match run.1 with
  | Ok fs =>
      length fs <= 2 * length params /\
      Forall (fun f => exists p, p ∈ params /\ nosqli_finding p f) fs /\
      logged_nosqli_findings (logger run.2) = logged_nosqli_findings (logger s) ++ fs
  | Raised e => escaped T e
  end.
Proof.
  cbv zeta. unfold NoSQLi.scan_get_params. rewrite run_bind.
  pose proof (nosqli_get_traced (fun _ => True) url s I) as Hget. unfold wp in Hget.
  destruct (NoSQLi._get url s) as [[[st_b body_b]|e] s1]; simpl in Hget;
    destruct Hget as (Hs1 & _ & _ & Hlog1 & Hr1).
  2: { simpl. split; [|done]. exists []. split_and!; [done | simpl; lia | constructor]. }
  cbn [fst snd].
  rewrite (for_each_ext _
    (fun p acc =>
       fs ← (findings ← for_each NoSQLi.boolean_pairs
                          (NoSQLi.boolean_probe url p st_b (slice_to 4000 body_b)) acc;
             findings ← NoSQLi.operator_probe url p st_b (slice_to 4000 body_b) findings;
             mret findings);
       mret (Continue, fs))).
  2: { intros x acc s0. rewrite !run_bind.
       destruct (for_each NoSQLi.boolean_pairs _ acc s0) as [[f1|e] s2]; [|done].
       rewrite !run_bind.
       destruct (NoSQLi.operator_probe url x st_b _ f1 s2) as [[f2|e] s3]; done. }
  pose proof (loop_traced_all (T := T) (lf := logged_nosqli_findings)
                (param_probe_of url params)
                (fun f => exists p, p ∈ params /\ nosqli_finding p f) probed 7 2
                (fun p acc =>
                   findings ← for_each NoSQLi.boolean_pairs
                                (NoSQLi.boolean_probe url p st_b (slice_to 4000 body_b)) acc;
                   findings ← NoSQLi.operator_probe url p st_b (slice_to 4000 body_b)
                                findings;
                   mret findings) params) as Hloop.
  specialize (Hloop ltac:(
    intros p findings s0 Hp; eapply wp_mono; [|apply nosqli_param_traced];
    intros r s'; apply traced_mono; auto;
    [ intros x (p' & v & Hin & ->); apply list_elem_of_singleton in Hin as ->;
      by exists p, v
    | intros f Hf; by exists p ]) params [] s1 ltac:(done)).
  unfold wp in Hloop.
  destruct (for_each params _ [] s1) as [r s'] eqn:Hrun. simpl in Hloop |- *.
  destruct Hloop as ((new & Hnew & Hlen & Hall) & _ & Hres). split.
  - exists new. rewrite Hnew, Hs1, <- app_assoc. split_and!; [done | lia | done].
  - destruct r as [fs|e]; [|done].
    destruct Hres as (newf & -> & Hlenf & Hallf & Hlogf). simpl.
    split_and!; [lia | done | by rewrite Hlogf, Hlog1].
Qed.

End nosqli_traces.

(** ** The timing probe of the command-injection scanner *)

Section cmdi_facts.
Context {T : Transport} `{!Urllib, !Encode, !Format}.

Lemma cmdi_get_run (u : string) (s : State) :
  let o := net (length (sent s)) (get_request u) in
  catchable o = true ->
  exists hdrs s',
    CMDi._get u s = (Ok ((seen o).1, (seen o).2, hdrs), s') /\
    clock s' = (clock s + took o)%float /\ sent s' = sent s ++ [get_request u].
Proof.
  intros o Hc. unfold CMDi._get, try_except. rewrite session_request_run. fold o.
  destruct o as [st body hdrs t|e t]; simpl in Hc |- *.
  - by eexists _, _.
  - rewrite Hc. unfold CMDi.on_failure.
    destruct (is_TimeoutError e); [by eexists _, _|].
    rewrite run_bind. unfold CMDi._safe_log_error, try_except. simpl. by eexists _, _.
Qed.

Lemma cmdi_timing_probe_run (url param : string) (data : option (gmap string string))
    (base_dt : float) (probe : string) (findings : list CMDiFinding) (s : State) :
  let candidate := CMDi.injected_value data param +:+ probe in
  let o := net (length (sent s)) (get_request (_with_param url param (url_safe candidate))) in
  let elapsed := ((clock s + took o) - clock s)%float in
  catchable o = true ->
  exists s',
    CMDi.timing_probe url param GET data base_dt probe findings s =
    (if (CMDi.TIME_THRESHOLD <? elapsed - base_dt)%float
     then Ok (Break, findings ++ [mkCMDiFinding "command_injection_timing" url param probe
                                    base_dt elapsed (seen o).1])
     else Ok (Continue, findings), s').
Proof.
  intros candidate o elapsed Hc. unfold CMDi.timing_probe.
  fold candidate. rewrite run_bind. unfold perf_counter at 1. cbn beta iota.
  rewrite run_bind.
  destruct (cmdi_get_run (_with_param url param (url_safe candidate)) s Hc)
    as (hdrs & s1 & -> & Hclock & _).
  fold o. cbn beta iota. rewrite run_bind. unfold perf_counter at 1. cbn beta iota.
  rewrite Hclock. subst elapsed o.
  match goal with |- context [if ?c then _ else _] => destruct c eqn:Hslow end.
  - rewrite run_bind. simpl. by eexists.
  - simpl. by eexists.
Qed.

(** X11.  The timing probe of the command-injection scanner decides by
    elapsed time alone.  Whatever came back — any status, and also a
    request that failed or timed out, which [_get] turns into status 0 —
    the probe reports a finding exactly when the request took more than
    [TIME_THRESHOLD] seconds longer than the baseline, and the finding
    carries that status (0 for a failed request). *)
Theorem cmdi_timing_decides_by_time_alone (url param : string)
    (data : option (gmap string string)) (base_dt : float) (probe : string)
    (findings : list CMDiFinding) (s : State) :
  let candidate := CMDi.injected_value data param +:+ probe in
  let o := net (length (sent s)) (get_request (_with_param url param (url_safe candidate))) in
  let elapsed := ((clock s + took o) - clock s)%float in
  let run := CMDi.timing_probe url param GET data base_dt probe findings s in
  catchable o = true ->
  matched run = (CMDi.TIME_THRESHOLD <? elapsed - base_dt)%float /\
  (matched run = true ->
   exists f, run.1 = Ok (Break, findings ++ [f]) /\
             ct_status_code f = (seen o).1 /\ ct_observed_time f = elapsed /\
             ct_baseline_time f = base_dt /\ ct_payload f = probe /\ ct_param f = param) /\
  (matched run = false -> run.1 = Ok (Continue, findings)).
Proof.
  intros candidate o elapsed run Hc.
  destruct (cmdi_timing_probe_run url param data base_dt probe findings s Hc)
    as (s' & Hrun).
  fold candidate o elapsed run in Hrun. rewrite Hrun. unfold matched.
  destruct (CMDi.TIME_THRESHOLD <? elapsed - base_dt)%float; simpl.
  - split_and!; [done | | done]. intros _. eexists. split_and!; reflexivity.
  - by split_and!.
Qed.

End cmdi_facts.

(** ** The SSTI scanner *)

Section ssti_facts.
Context {T : Transport} `{!Urllib, !Encode}.

(** The finding of a reflective probe. *)
Lemma ssti_reflective_probe_run url param payload mk (findings : list SSTIFinding) s :
  let o := net (length (sent s)) (get_request (_with_param url param (url_safe payload))) in
  catchable o = true ->
  exists s',
    SSTI.reflective_probe url param (payload, Some mk) findings s
      = (Ok (Continue,
             if truthy mk && contains mk (seen o).2
             then findings ++ [mkSSTIFinding url param payload "reflective"
                                 (mkSSTIEvidence param payload (Some mk) None
                                    "Reflective eval")]
             else findings), s') /\
    sent s' = sent s ++ [get_request (_with_param url param (url_safe payload))].
Proof.
  intros o Hc. unfold SSTI.reflective_probe, try_except.
  rewrite run_bind, session_request_run. fold o.
  destruct o as [st body hdrs t|e t]; simpl in Hc |- *.
  - destruct (truthy mk && contains mk body); by eexists.
  - rewrite Hc. simpl. destruct mk; by eexists.
Qed.

(** A probe that does not come back: the transport raised past
    [except Exception]. *)
Lemma ssti_reflective_probe_raises url param probe (findings : list SSTIFinding) s :
  catchable (net (length (sent s))
               (get_request (_with_param url param (url_safe probe.1)))) = false ->
  exists e s', SSTI.reflective_probe url param probe findings s = (Raised e, s').
Proof.
  destruct probe as [payload marker]. simpl. intros Hc.
  unfold SSTI.reflective_probe, try_except. rewrite run_bind, session_request_run.
  destruct (net _ _) as [st body hdrs t|e t]; simpl in Hc |- *; [discriminate|].
  rewrite Hc. by eexists _, _.
Qed.

Lemma ssti_timing_probe_run url param payload (findings : list SSTIFinding) s :
  match SSTI.timing_probe url param payload findings s with
  | (Ok (c, fs), s') =>
      c = Continue /\ length (sent s') = S (length (sent s)) /\
      length fs <= S (length findings)
  | (Raised _, _) => True
  end.
Proof.
  unfold SSTI.timing_probe, try_except.
  rewrite run_bind. unfold perf_counter at 1. cbn beta iota.
  rewrite run_bind, session_request_run.
  destruct (net _ _) as [st body hdrs t|e t]; cbn beta iota.
  - rewrite run_bind. unfold perf_counter at 1. cbn beta iota.
    match goal with |- context [if ?c then _ else _] => destruct c end; simpl;
      (split_and!; [reflexivity | | ]);
      simpl; rewrite ?length_app; simpl; lia.
  - destruct (is_Exception e); simpl; [|done].
    split_and!; [reflexivity | simpl; rewrite length_app; simpl; lia | lia].
Qed.

Lemma ssti_reflective_loop url param (probes : list (string * option string)) :
  Forall (fun probe => probe.2 = Some "49") probes ->
  forall (findings : list SSTIFinding) s,
  match for_each probes (SSTI.reflective_probe url param) findings s with
  | (Ok fs', s') =>
      exists fs,
        fs' = findings ++ fs /\
        length (sent s') = length (sent s) + length probes /\
        length fs <= length probes /\
        ((forall i r, contains "49" (seen (net i r)).2 = true) ->
         map sf_payload fs = map fst probes /\
         Forall (fun f => sf_type f = "reflective" /\ sf_param f = param) fs) /\
        ((forall i r, contains "49" (seen (net i r)).2 = false) -> fs = [])
  | (Raised _, _) => True
  end.
Proof.
  intros Hprobes. induction Hprobes as [|[payload marker] probes Hmk _ IH];
    intros findings s.
  - rewrite for_each_nil. exists []. rewrite app_nil_r.
    split_and!; [done | simpl; lia | done | done | done].
  - simpl in Hmk. subst marker. rewrite for_each_cons.
    set (o := net (length (sent s))
                (get_request (_with_param url param (url_safe payload)))).
    destruct (catchable o) eqn:Hc.
    2: { destruct (ssti_reflective_probe_raises url param (payload, Some "49") findings s Hc)
           as (e & s1 & ->). done. }
    destruct (ssti_reflective_probe_run url param payload "49" findings s Hc)
      as (s1 & -> & Hs1).
    fold o.
    set (f := mkSSTIFinding url param payload "reflective"
                (mkSSTIEvidence param payload (Some "49") None "Reflective eval")).
    destruct (contains "49" (seen o).2) eqn:Hrefl; simpl.
    + specialize (IH (findings ++ [f]) s1).
      destruct (for_each probes _ (findings ++ [f]) s1) as [[fs'|e] s']; [|done].
      destruct IH as (fs & -> & Hlen & Hfs & Hall & Hnone).
      exists (f :: fs). rewrite <- app_assoc. simpl.
      split_and!; [done | rewrite Hlen, Hs1, length_app; simpl; lia | lia | |].
      * intros Hyes. destruct (Hall Hyes) as [Hpay Hty].
        split; [by rewrite Hpay | by constructor].
      * intros Hno. specialize (Hno (length (sent s))
          (get_request (_with_param url param (url_safe payload)))).
        fold o in Hno. congruence.
    + specialize (IH findings s1).
      destruct (for_each probes _ findings s1) as [[fs'|e] s']; [|done].
      destruct IH as (fs & -> & Hlen & Hfs & Hall & Hnone).
      exists fs.
      split_and!; [done | rewrite Hlen, Hs1, length_app; simpl; lia | lia | | done].
      intros Hyes. specialize (Hyes (length (sent s))
        (get_request (_with_param url param (url_safe payload)))).
      fold o in Hyes. congruence.
Qed.

(** X12.  What the reflective SSTI check reports.  Whenever [scan_param]
    without the aggressive flag returns, it has sent exactly five
    requests and returns at most five findings; no status code and no
    baseline is consulted: if every response body contains the text
    "49", all five probes are reported, in order, as reflective findings;
    if no body contains it (the body of a failed request counting as
    empty), nothing is reported. *)
Theorem ssti_reflective_findings (url param : string) (s : State) :
  match SSTI.scan_param (SSTI.mkSSTIScanner false) url param s with
  | (Ok fs, s') =>
      length (sent s') = length (sent s) + 5 /\
      length fs <= 5 /\
      ((forall i r, contains "49" (seen (net i r)).2 = true) ->
       map sf_payload fs = map fst SSTI.REFLECTIVE_PROBES /\
       Forall (fun f => sf_type f = "reflective" /\ sf_param f = param) fs) /\
      ((forall i r, contains "49" (seen (net i r)).2 = false) -> fs = [])
  | (Raised _, _) => True
  end.
Proof.
  unfold SSTI.scan_param. rewrite run_bind.
  pose proof (ssti_reflective_loop url param SSTI.REFLECTIVE_PROBES
                ltac:(repeat constructor) [] s) as Hloop.
  destruct (for_each SSTI.REFLECTIVE_PROBES _ [] s) as [[fs'|e] s']; [|done].
  destruct Hloop as (fs & -> & Hlen & Hfs & Hall & Hnone). simpl.
  by split_and!.
Qed.

Lemma ssti_timing_loop url param (probes : list string) :
  forall (findings : list SSTIFinding) s,
  match for_each probes (SSTI.timing_probe url param) findings s with
  | (Ok fs, s') =>
      length (sent s') = length (sent s) + length probes /\
      length fs <= length findings + length probes
  | (Raised _, _) => True
  end.
Proof.
  induction probes as [|payload probes IH]; intros findings s.
  - rewrite for_each_nil. split; simpl; lia.
  - rewrite for_each_cons.
    pose proof (ssti_timing_probe_run url param payload findings s) as Hp.
    destruct (SSTI.timing_probe url param payload findings s) as [[[c fs1]|e] s1]; [|done].
    destruct Hp as (-> & Hs1 & Hf1).
    specialize (IH fs1 s1).
    destruct (for_each probes _ fs1 s1) as [[fs|e] s']; [|done].
    destruct IH as [Hlen Hfs]. split; simpl; lia.
Qed.

Lemma ssti_scan_param_total (self : SSTI.SSTIScanner) url param s :
  let per_param := if SSTI.aggressive self then 7 else 5 in
  match SSTI.scan_param self url param s with
  | (Ok fs, s') =>
      length (sent s') = length (sent s) + per_param /\ length fs <= per_param
  | (Raised _, _) => True
  end.
Proof.
  intros per_param. unfold SSTI.scan_param. rewrite run_bind.
  pose proof (ssti_reflective_loop url param SSTI.REFLECTIVE_PROBES
                ltac:(repeat constructor) [] s) as Hloop.
  destruct (for_each SSTI.REFLECTIVE_PROBES _ [] s) as [[fs'|e] s1]; [|done].
  destruct Hloop as (fs & -> & Hlen & Hfs & _). simpl in Hlen, Hfs. cbn beta iota.
  rewrite app_nil_l. subst per_param. destruct (SSTI.aggressive self).
  - pose proof (ssti_timing_loop url param SSTI.TIMING_PROBES fs s1) as Ht.
    destruct (for_each SSTI.TIMING_PROBES _ fs s1) as [[fs'|e] s']; [|done].
    simpl in Ht. destruct Ht as [Hlen' Hfs']. split; lia.
  - simpl. split; lia.
Qed.

(** X13.  The SSTI scan stops neither at a first finding nor at a failed
    request: whenever [scan] returns, it has sent exactly five requests
    per parameter, or seven with the aggressive flag, and it returns at
    most as many findings as it sent requests. *)
Theorem ssti_scan_total (self : SSTI.SSTIScanner) (url : string) (params : list string)
    (s : State) :
  let per_param := if SSTI.aggressive self then 7 else 5 in
  match SSTI.scan self url params s with
  | (Ok fs, s') =>
      length (sent s') = length (sent s) + per_param * length params /\
      length fs <= per_param * length params
  | (Raised _, _) => True
  end.
Proof.
  intros per_param. unfold SSTI.scan.
  assert (Hgen : forall ps acc s0,
    match for_each ps
            (fun param all_findings =>
               res ← SSTI.scan_param self url param; mret (Continue, all_findings ++ res))
            acc s0 with
    | (Ok fs', s') =>
        exists fs, fs' = acc ++ fs /\
          length (sent s') = length (sent s0) + per_param * length ps /\
          length fs <= per_param * length ps
    | (Raised _, _) => True
    end).
  { induction ps as [|p ps IH]; intros acc s0.
    - rewrite for_each_nil. exists []. rewrite app_nil_r.
      split_and!; [done | simpl; lia | simpl; lia].
    - rewrite for_each_cons, run_bind.
      pose proof (ssti_scan_param_total self url p s0) as Hp. cbv zeta in Hp.
      fold per_param in Hp.
      destruct (SSTI.scan_param self url p s0) as [[res|e] s1]; [|done].
      destruct Hp as [Hs1 Hres]. simpl.
      specialize (IH (acc ++ res) s1).
      destruct (for_each ps _ (acc ++ res) s1) as [[fs'|e] s']; [|done].
      destruct IH as (fs & -> & Hlen & Hfs).
      exists (res ++ fs). rewrite <- app_assoc, length_app.
      split_and!; [done | simpl; lia | simpl; lia]. }
  specialize (Hgen params [] s).
  destruct (for_each params _ [] s) as [[fs'|e] s']; [|done].
  destruct Hgen as (fs & -> & Hlen & Hfs). simpl. by split.
Qed.

End ssti_facts.

(** ** More on the scheduler *)

Section scheduler_more.
Import Scheduler.

Lemma propagated_some (sl : list (phase * ScanTask)) i e t :
  sl !! i = Some (Propagated e, t) -> exists e' rest, omap propagated sl = e' :: rest.
Proof.
  revert i. induction sl as [|[ph t0] sl IH]; intros i Hi; [done|].
  destruct i as [|i]; simpl in Hi.
  - injection Hi as -> ->. simpl. eauto.
  - destruct (IH i Hi) as (e' & rest & Hrest).
    change (omap propagated ((ph, t0) :: sl)) with
      (match propagated (ph, t0) with
       | Some y => y :: omap propagated sl
       | None => omap propagated sl
       end).
    destruct (propagated (ph, t0)); rewrite Hrest; eauto.
Qed.

Lemma finished_no_work (sl : list (phase * ScanTask)) :
  forallb is_finished sl = true -> sum_list (map (fun ps => weight ps.1) sl) = 0.
Proof.
  induction sl as [|[ph t] sl IH]; simpl; [done|].
  intros [Hph Hsl]%andb_true_iff. rewrite (IH Hsl).
  by destruct ph.
Qed.

Lemma run_keeps_name (t t' : ScanTask) (r : result unit) (t_start t_end : float) :
  run t_start t_end t = Some (r, t') -> name t' = name t.
Proof.
  unfold run, run_end. destruct (invoke t) as [[v|e]|]; simpl; [by intros [= _ <-] | | done].
  destruct (is_Exception e); by intros [= _ <-].
Qed.

(** X14.  The semaphore bound.  In every state [run_all] can reach, the
    number of tasks inside [task.run()] is at most
    [max_concurrent_tasks] (the permits left and the tasks running add
    up to it), no task is added or lost, and at most two steps per task
    have been taken: [run_all] cannot go on for ever. *)
Theorem scheduler_respects_bound (self : Scheduler) (p0 p : Pool) (n : nat) :
  start self = Ok p0 -> nsteps step n p0 p ->
  running p <= Z.to_nat (max_concurrent_tasks self) /\
  permits p + running p = Z.to_nat (max_concurrent_tasks self) /\
  length (tasks_of p) = length (tasks self) /\
  map name (tasks_of p) = map name (tasks self) /\
  n <= 2 * length (tasks self).
Proof.
  intros Hstart Hsteps.
  destruct (pool_inv_nsteps self p0 n p Hstart Hsteps) as (Hprog & Hperm & Hwork).
  split_and!; [lia | done | | | lia].
  - unfold tasks_of. rewrite length_map. symmetry. by eapply Forall2_length.
  - unfold tasks_of. clear -Hprog. induction Hprog as [|t0 [ph t] ts sl Hp _ IH]; [done|].
    simpl. f_equal; [|exact IH]. unfold progress_of in Hp. simpl in Hp.
    destruct ph.
    + by subst.
    + by destruct Hp as [now ->].
    + destruct Hp as (ts' & te & Hrun). by apply run_keeps_name in Hrun.
    + destruct Hp as (ts' & te & Hrun). by apply run_keeps_name in Hrun.
Qed.

Lemma scheduler_respects_bound_witness :
  running Lab.two_tasks_end <= 1 /\
  map name (tasks_of Lab.two_tasks_end) = ["Task1"; "Task2"].
Proof.
  assert (Hsteps : nsteps step 4 Lab.two_tasks_start Lab.two_tasks_end).
  { eapply nsteps_l; [eapply step_acquire with (i := 0) (now := 0%float); reflexivity|].
    eapply nsteps_l; [eapply step_finish with (i := 0) (now := 1%float); reflexivity|].
    eapply nsteps_l; [eapply step_acquire with (i := 1) (now := 1%float); reflexivity|].
    eapply nsteps_l; [eapply step_finish with (i := 1) (now := 2%float); reflexivity|].
    apply nsteps_O. }
  destruct (scheduler_respects_bound Lab.two_tasks Lab.two_tasks_start
              Lab.two_tasks_end 4 eq_refl Hsteps) as (Hbound & _ & _ & Hnames & _).
  split; [exact Hbound | exact Hnames].
Defined.

(** X15.  Exceptions outside [Exception] are not isolated.  When the
    function of a task raises [CancelledError] or [KeyboardInterrupt],
    [run] records nothing — the task is not marked completed and its
    [exception] attribute stays as it was — but its [finally] clause still
    sets [finished_at]; the exception leaves [run], the semaphore is
    released, and [gather], hence [run_all], raises. *)
Theorem base_exceptions_leave_run_all (p : Pool) (i : nat) (now : float)
    (t : ScanTask) (e : exn) :
  slots p !! i = Some (Running, t) ->
  invoke t = Some (Raised e) -> is_Exception e = false ->
  exists p' t' e',
    finish i now p = Some p' /\
    slots p' !! i = Some (Propagated e, t') /\
    completed t' = completed t /\ exception t' = exception t /\
    result_ t' = result_ t /\ finished_at t' = Some now /\
    permits p' = S (permits p) /\
    run_all_result p' = Some (Raised e').
Proof.
  intros Hslot Hinv He. unfold finish. rewrite Hslot, Hinv. simpl. unfold run_end.
  rewrite He.
  set (t' := mkScanTask (name t) (func t) (args t) (kwargs t) (result_ t) (exception t)
               (completed t) (started_at t) (Some now)).
  assert (Hi : i < length (slots p)) by (by eapply lookup_lt_Some).
  assert (Hnew : <[i := (Propagated e, t')]> (slots p) !! i = Some (Propagated e, t'))
    by (by apply list_lookup_insert_eq).
  destruct (propagated_some _ i e t' Hnew) as (e' & rest & Hprop).
  exists (mkPool (S (permits p)) (<[i := (Propagated e, t')]> (slots p))), t', e'.
  split_and!; try done.
  unfold run_all_result. cbn [slots]. by rewrite Hprop.
Qed.

Lemma base_exceptions_leave_run_all_witness :
  exists p' e',
    finish 0 1 (mkPool 0 [(Running, new_task "t" (mkCallable true (fun _ _ => Raises CancelledError))
                                       None None)]) = Some p' /\
    run_all_result p' = Some (Raised e') /\
    map completed (tasks_of p') = [false].
Proof.
  destruct (base_exceptions_leave_run_all
              (mkPool 0 [(Running, new_task "t"
                                     (mkCallable true (fun _ _ => Raises CancelledError))
                                     None None)])
              0 1%float _ CancelledError eq_refl eq_refl eq_refl)
    as (p' & t' & e' & Hfin & Hslot & Hc & _ & _ & _ & _ & Hres).
  exists p', e'. split; [exact Hfin|]. split; [exact Hres|].
  injection Hfin as <-. reflexivity.
Defined.

(** X16.  A plain (non-coroutine) function cannot be given keyword
    arguments: [run_in_executor] takes positional arguments only, so a
    task made of a plain function and a non-empty [kwargs] never calls
    its function; [run] records the [TypeError], marks the task
    completed and leaves [result] at [None]. *)
Theorem plain_function_with_kwargs_fails (name : string)
    (f : list Any -> gmap string Any -> outcome)
    (args : option (list Any)) (kwargs : gmap string Any) (t_start t_end : float) :
  kwargs <> ∅ ->
  exists t' msg,
    run t_start t_end (new_task name (mkCallable false f) args (Some kwargs))
      = Some (Ok tt, t') /\
    exception t' = Some (TypeError msg) /\ completed t' = true /\
    result_ t' = PyNone /\ finished_at t' = Some t_end.
Proof.
  intros Hkw. unfold run, invoke. simpl.
  rewrite bool_decide_eq_false_2 by done. simpl. by eexists _, _.
Qed.

Lemma plain_function_with_kwargs_fails_witness :
  exists t' msg,
    run 0 1 (new_task "t" (mkCallable false (fun _ _ => Returns (PyStr "done")))
               None (Some {["url" := PyStr "http://target/"]})) = Some (Ok tt, t') /\
    exception t' = Some (TypeError msg) /\ result_ t' = PyNone.
Proof.
  destruct (plain_function_with_kwargs_fails "t" (fun _ _ => Returns (PyStr "done")) None
              {["url" := PyStr "http://target/"]} 0 1) as (t' & msg & Hrun & He & _ & Hr & _).
  { apply insert_non_empty. }
  exists t', msg. split; [exact Hrun|]. split; [exact He | exact Hr].
Defined.



End scheduler_more.

(** ** The scan context *)

Section context_facts.
Import Context.
Context {F : Type}.

Lemma perform_urls (ctx : ScanContext F) (c : call F) :
  discovered_urls (perform ctx c) =
  match c with
  | AddDiscoveredUrl url =>
      if bool_decide (url ∉ discovered_urls ctx) then discovered_urls ctx ++ [url]
      else discovered_urls ctx
  | _ => discovered_urls ctx
  end.
Proof.
  destruct c; try reflexivity. simpl. unfold add_discovered_url.
  by destruct (bool_decide _).
Qed.

Lemma perform_findings (ctx : ScanContext F) (c : call F) :
  findings (perform ctx c) =
  match c with
  | AddFinding f => findings ctx ++ [f]
  | _ => findings ctx
  end.
Proof.
  destruct c; try reflexivity. simpl. unfold add_discovered_url.
  by destruct (bool_decide _).
Qed.

Lemma perform_end_time (ctx : ScanContext F) (c : call F) :
  is_Some (end_time ctx) -> is_Some (end_time (perform ctx c)).
Proof.
  destruct c; try done; simpl; eauto. unfold add_discovered_url.
  by destruct (bool_decide _).
Qed.

(** X18.  The class invariant of [ScanContext]: whatever methods are
    called in whatever order, [discovered_urls] never holds a URL twice;
    it holds exactly the URLs it started with and those handed to
    [add_discovered_url], earlier entries keep their place, and
    [findings] grows by exactly the findings handed to [add_finding], in
    order (findings are not deduplicated). *)
Theorem context_invariant (ctx : ScanContext F) (calls : list (call F)) :
  NoDup (discovered_urls ctx) ->
  let ctx' := session ctx calls in
  NoDup (discovered_urls ctx') /\
  (forall u, u ∈ discovered_urls ctx' <-> u ∈ discovered_urls ctx \/ u ∈ urls_of calls) /\
  discovered_urls ctx `prefix_of` discovered_urls ctx' /\
  findings ctx' = findings ctx ++ findings_of calls /\
  sm_findings_count (summary ctx') = length (findings ctx) + length (findings_of calls).
Proof.
  revert ctx. unfold session.
  induction calls as [|c calls IH]; intros ctx Hnd; cbn zeta.
  - simpl. rewrite app_nil_r. split_and!; [done | | done | done | lia].
    intros u. split; [by left | intros [Hu|Hu]; [done | by apply elem_of_nil in Hu]].
  - simpl foldl.
    assert (Hnd' : NoDup (discovered_urls (perform ctx c))).
    { rewrite perform_urls. destruct c as [k v|u0|f|cfg|t|t|t]; try done.
      destruct (bool_decide_reflect (u0 ∉ discovered_urls ctx)); [|done].
      apply NoDup_app. split_and!; [done | | apply NoDup_singleton].
      intros x Hx Hx'. by apply list_elem_of_singleton in Hx' as ->. }
    destruct (IH (perform ctx c) Hnd') as (Hnodup & Hmem & Hpre & Hfind & Hcount).
    split_and!.
    + exact Hnodup.
    + intros u. rewrite Hmem, perform_urls.
      destruct c as [k v|u0|f|cfg|t|t|t]; try reflexivity.
      change (urls_of (AddDiscoveredUrl u0 :: calls)) with (u0 :: urls_of calls).
      rewrite elem_of_cons.
      destruct (bool_decide_reflect (u0 ∉ discovered_urls ctx)) as [Hn|Hy].
      * rewrite elem_of_app, list_elem_of_singleton. tauto.
      * apply dec_stable in Hy. split; [tauto|]. intros [Hu|[->|Hu]]; tauto.
    + etrans; [|exact Hpre]. rewrite perform_urls.
      destruct c as [k v|u0|f|cfg|t|t|t]; try done.
      destruct (bool_decide _); [by apply prefix_app_r | done].
    + rewrite Hfind, perform_findings. destruct c as [k v|u0|f|cfg|t|t|t]; simpl; try done.
      by rewrite <- app_assoc.
    + rewrite Hcount, perform_findings. destruct c as [k v|u0|f|cfg|t|t|t]; simpl; try done.
      rewrite length_app. simpl. lia.
Qed.

(** X19.  [end_time] is never cleared.  Once [complete] or [fail] was
    called, every later state of the context has a duration, whatever
    methods follow; in particular a context that is started again after
    it completed reports status "running" together with a duration
    measured from the new start to the old end. *)
Theorem context_end_time_is_kept (ctx : ScanContext F) (calls : list (call F))
    (t_end t_again : float) :
  (is_Some (end_time ctx) -> is_Some (duration (session ctx calls))) /\
  sm_status (summary (start t_again (complete t_end ctx))) = "running" /\
  sm_duration_sec (summary (start t_again (complete t_end ctx)))
    = Some (t_end - t_again)%float.
Proof.
  split; [|done]. unfold session. revert ctx.
  induction calls as [|c calls IH]; intros ctx Hend; simpl.
  - unfold duration. by destruct Hend as [e ->].
  - by apply IH, perform_end_time.
Qed.

End context_facts.

Section context_witness.
Import Context.

Lemma context_invariant_witness :
  NoDup (discovered_urls
           (session (__init__ 0 "scan_001" "https://example.com" "full" : ScanContext string)
              [AddDiscoveredUrl "/login"; AddDiscoveredUrl "/admin";
               AddDiscoveredUrl "/login"])) /\
  discovered_urls
    (session (__init__ 0 "scan_001" "https://example.com" "full" : ScanContext string)
       [AddDiscoveredUrl "/login"; AddDiscoveredUrl "/admin"; AddDiscoveredUrl "/login"])
  = ["/login"; "/admin"].
Proof.
  split; [|reflexivity].
  refine (proj1 (@context_invariant string
                   (__init__ 0 "scan_001" "https://example.com" "full")
                   [AddDiscoveredUrl "/login"; AddDiscoveredUrl "/admin";
                    AddDiscoveredUrl "/login"] _)).
  constructor.
Defined.

End context_witness.

(** ** Header comparison *)

Section responses_facts.
Import Responses.

Lemma compare_header_other self ign acc (x key : string) :
  x <> key -> compare_header self ign acc x !! key = acc !! key.
Proof.
  intros Hne. unfold compare_header.
  destruct (is_ignored ign x); [done|].
  destruct (bool_decide _); [by rewrite lookup_insert_ne | done].
Qed.

Lemma compare_header_same self ign acc (key : string) :
  compare_header self ign acc key !! key =
  if is_ignored ign key then acc !! key
  else if bool_decide (headers (base_response self) !! key
                         <> headers (test_response self) !! key)
       then Some (headers (base_response self) !! key, headers (test_response self) !! key)
       else acc !! key.
Proof.
  unfold compare_header. destruct (is_ignored ign key); [done|].
  destruct (bool_decide _); [by rewrite lookup_insert_eq | done].
Qed.

Lemma compare_headers_fold self ign (key : string) (l : list string) : forall acc,
  foldl (compare_header self ign) acc l !! key =
  if bool_decide (key ∈ l) then compare_header self ign acc key !! key else acc !! key.
Proof.
  induction l as [|x l IH]; intros acc; simpl; [done|].
  rewrite IH. destruct (decide (x = key)) as [->|Hne].
  - rewrite (bool_decide_eq_true_2 (key ∈ key :: l)) by (by left).
    destruct (bool_decide (key ∈ l)); [|done].
    rewrite !compare_header_same.
    destruct (is_ignored ign key); [done|]. by destruct (bool_decide _).
  - rewrite (bool_decide_ext (key ∈ x :: l) (key ∈ l))
      by (rewrite elem_of_cons; split; [by intros [<-|?] | by right]).
    destruct (bool_decide (key ∈ l)).
    + rewrite !compare_header_same, compare_header_other by done. done.
    + by apply compare_header_other.
Qed.

(** X20.  What [compare_headers] returns: a header name is in the result
    exactly when it is not on the ignore list (compared without regard to
    letter case) and its value differs between the two responses, a
    header missing on one side counting as [None]; the entry holds the
    two values.  Responses with the same headers give an empty result,
    and so does an ignore list that covers every differing header. *)
Theorem compare_headers_spec (self : ResponseDiff) (ignore_headers : option (list string))
    (key : string) :
  let base_val := headers (base_response self) !! key in
  let test_val := headers (test_response self) !! key in
  compare_headers self ignore_headers !! key =
    (if is_ignored (default [] ignore_headers) key then None
     else if bool_decide (base_val <> test_val) then Some (base_val, test_val)
     else None) /\
  (headers (base_response self) = headers (test_response self) ->
   compare_headers self ignore_headers = ∅).
Proof.
  assert (Hspec : forall k,
    compare_headers self ignore_headers !! k =
    (if is_ignored (default [] ignore_headers) k then None
     else if bool_decide (headers (base_response self) !! k
                            <> headers (test_response self) !! k)
          then Some (headers (base_response self) !! k, headers (test_response self) !! k)
          else None)).
  { intros k. unfold compare_headers. rewrite compare_headers_fold, compare_header_same.
    rewrite lookup_empty.
    destruct (bool_decide_reflect
                (k ∈ elements (dom (headers (base_response self))
                               ∪ dom (headers (test_response self))))) as [Hin|Hnin];
      [done|].
    destruct (is_ignored _ k); [done|].
    rewrite bool_decide_eq_false_2; [done|].
    rewrite elem_of_elements, elem_of_union, !elem_of_dom in Hnin.
    intros Hne. apply Hne.
    destruct (headers (base_response self) !! k) eqn:Hb;
      [destruct Hnin; left; eauto|].
    destruct (headers (test_response self) !! k) eqn:Ht;
      [destruct Hnin; right; eauto | done]. }
  split; [apply Hspec|].
  intros Heq. apply map_eq. intros k. rewrite Hspec, lookup_empty, Heq.
  destruct (is_ignored _ k); [done|]. by rewrite bool_decide_eq_false_2 by (by intros H).
Qed.

End responses_facts.

(** ** Concrete runs *)

Section more_runs.
#[local] Existing Instances Lab.urllib Lab.encode Lab.format Fallback.differ.

(** A concrete use of [operator_probe_reports]: the target echoes an
    operator in an error message. *)
Lemma operator_probe_reports_witness :
  exists f s',
    @NoSQLi.operator_probe
      (Lab.table_server [] (Respond 200 "Unknown operator: $WHERE" [] 0.1)) _ _
      "http://target/find?q=1" "q" 200 "Welcome" [] initial_state = (Ok [f], s') /\
    ns_title f = "NoSQL Injection (operator leakage, GET)".
Proof.
  destruct (@operator_probe_reports
              (Lab.table_server [] (Respond 200 "Unknown operator: $WHERE" [] 0.1)) _ _
              "http://target/find?q=1" "q" 200 "Welcome" [] initial_state eq_refl)
    as (fs & s' & Hrun & _ & Hyes & _).
  destruct Hyes as (f & -> & Ht & _).
  - discriminate.
  - exists "$where". split; [apply elem_of_cons; by left|].
    exists "Unknown operator: ", "$WHERE", "". split; reflexivity.
  - exists f, s'. split; [exact Hrun | exact Ht].
Defined.

(** A concrete use of [cmdi_timing_decides_by_time_alone]: the target is
    unreachable and every call times out after 15 seconds. *)
Lemma cmdi_timing_witness :
  exists f,
    (@CMDi.timing_probe Lab.down_server _ _ _ Lab.target "id" GET None 0.1 "; sleep 5" []
       initial_state).1 = Ok (Break, [f]) /\
    ct_status_code f = 0%Z.
Proof.
  destruct (@cmdi_timing_decides_by_time_alone Lab.down_server _ _ _ Lab.target "id" None
              0.1 "; sleep 5" [] initial_state eq_refl) as (Hm & Hyes & _).
  destruct (Hyes eq_refl) as (f & Hrun & Hst & _).
  exists f. split; [exact Hrun | exact Hst].
Defined.

(** A concrete use of [ssti_reflective_findings]: an error page that
    happens to contain "49". *)
Lemma ssti_reflective_witness :
  exists fs s',
    @SSTI.scan_param (Lab.table_server [] (Respond 404 "Error 4951: not found" [] 0.1)) _ _
      (SSTI.mkSSTIScanner false) Lab.target "id" initial_state = (Ok fs, s') /\
    map sf_payload fs = map fst SSTI.REFLECTIVE_PROBES.
Proof.
  pose proof (@ssti_reflective_findings
                (Lab.table_server [] (Respond 404 "Error 4951: not found" [] 0.1)) _ _
                Lab.target "id" initial_state) as Hthm.
  destruct (@SSTI.scan_param (Lab.table_server [] (Respond 404 "Error 4951: not found" [] 0.1))
              _ _ (SSTI.mkSSTIScanner false) Lab.target "id" initial_state)
    as [[fs|e] s'] eqn:Hrun; [|vm_compute in Hrun; discriminate].
  destruct Hthm as (_ & _ & Hall & _).
  exists fs, s'. split; [reflexivity|]. apply Hall. intros i r. reflexivity.
Defined.

(** A concrete use of [ssti_scan_total]: the target is unreachable. *)
Lemma ssti_scan_total_witness :
  exists fs s',
    @SSTI.scan Lab.down_server _ _ (SSTI.mkSSTIScanner true) Lab.target ["id"; "page"]
      initial_state = (Ok fs, s') /\
    length (sent s') = 14.
Proof.
  pose proof (@ssti_scan_total Lab.down_server _ _ (SSTI.mkSSTIScanner true) Lab.target
                ["id"; "page"] initial_state) as Hthm.
  destruct (@SSTI.scan Lab.down_server _ _ (SSTI.mkSSTIScanner true) Lab.target
              ["id"; "page"] initial_state)
    as [[fs|e] s'] eqn:Hrun; [|vm_compute in Hrun; discriminate].
  destruct Hthm as [Hlen _].
  exists fs, s'. split; [reflexivity | exact Hlen].
Defined.

End more_runs.
